(** * Pair-list selection pipeline: filters, factory and manager

    A shallow embedding of the pair filters ([trading/pair_filter.h] and its
    implementation), of the instrument snapshot types ([pair_types.h]) and of
    [PairListManager], followed by the properties the specification states
    about them.

    Conventions of the embedding:
    - [int] is a 32-bit two's-complement integer carried by [Z]; arithmetic
      that can leave the range is written with its wrap-around;
    - [double] is IEEE-754 binary64, carried by the primitive [float];
    - [std::vector<T>] is [list T]; [std::map<std::string,T>] is
      [gmap string T];
    - a C++ call either returns, throws an exception or has undefined
      behaviour: the [outcome] type below;
    - [std::sort] and [std::shuffle] are library algorithms: the class
      [StdAlgorithms] carries an implementation, the class [Conforming] the
      contract the C++ standard gives them. *)

From Stdlib Require Import ZArith Floats Lia.
From Stdlib Require Import Sorting.Permutation Sorting.Sorted.
From stdpp Require Import gmap strings list.

Local Open Scope Z_scope.

(** ** Machine integers *)

Module Cxx.

Definition INT_MAX : Z := 2147483647.
Definition INT_MIN : Z := -2147483648.
Definition UINT_MAX : Z := 4294967295.

(** Reduction of an integer to the range of [int] (what a conversion to
    [int] or an overflowing [int] operation leaves on two's complement). *)
Definition wrap_int (z : Z) : Z := (z + 2147483648) mod 4294967296 - 2147483648.

(** Reduction to [unsigned int]. *)
Definition wrap_uint (z : Z) : Z := z mod 4294967296.

Definition in_int (z : Z) : Prop := INT_MIN <= z <= INT_MAX.

(** [a + b] on [int]. *)
Definition int_add (a b : Z) : Z := wrap_int (a + b).

(** [static_cast<int>(v.size())]. *)
Definition size_as_int {A} (v : list A) : Z := wrap_int (Z.of_nat (length v)).

(** What a call can do besides returning. *)
Inductive exception : Type :=
| json_type_error (what : string).

Inductive undefined_behaviour : Type :=
| out_of_bounds_read (index : Z) (size : nat)
| float_to_int_out_of_range.

Inductive outcome (A : Type) : Type :=
| Ok (a : A)
| Throws (e : exception)
| Undefined (u : undefined_behaviour).
Arguments Ok {A} a.
Arguments Throws {A} e.
Arguments Undefined {A} u.

Definition bind {A B} (m : outcome A) (k : A -> outcome B) : outcome B :=
  match m with
  | Ok a => k a
  | Throws e => Throws e
  | Undefined u => Undefined u
  end.

(** [v[i]] on a vector, the index being an [int]: a negative index converts
    to a huge [size_type], so every index outside [0, size) reads out of
    bounds. *)
Definition vector_at {A} (v : list A) (i : Z) : outcome A :=
  if (0 <=? i) && (i <? Z.of_nat (length v))
  then match v !! Z.to_nat i with
       | Some x => Ok x
       | None => Undefined (out_of_bounds_read i (length v))
       end
  else Undefined (out_of_bounds_read i (length v)).

End Cxx.

Import Cxx.

#[global] Instance outcome_ret : MRet outcome := @Ok.
#[global] Instance outcome_bind : MBind outcome := fun A B k m => Cxx.bind m k.
#[global] Instance outcome_fmap : FMap outcome :=
  fun A B f m => Cxx.bind m (fun a => Ok (f a)).

Lemma bind_Ok {A B} (a : A) (k : A -> outcome B) : (Ok a ≫= k) = k a.
Proof. reflexivity. Qed.

Lemma fmap_Ok {A B} (f : A -> B) (a : A) : f <$> Ok a = Ok (f a).
Proof. reflexivity. Qed.

Lemma wrap_int_id z : in_int z -> wrap_int z = z.
Proof.
  unfold in_int, wrap_int, INT_MIN, INT_MAX. intros H.
  rewrite Z.mod_small by lia. lia.
Qed.

Lemma wrap_int_range z : in_int (wrap_int z).
Proof.
  unfold in_int, wrap_int, INT_MIN, INT_MAX.
  pose proof (Z.mod_pos_bound (z + 2147483648) 4294967296 ltac:(lia)). lia.
Qed.

Lemma wrap_int_le_nonneg z : 0 <= z -> wrap_int z <= z.
Proof.
  unfold wrap_int. intros H.
  pose proof (Z.mod_le (z + 2147483648) 4294967296 ltac:(lia) ltac:(lia)). lia.
Qed.

Lemma size_as_int_le {A} (v : list A) : size_as_int v <= Z.of_nat (length v).
Proof. apply wrap_int_le_nonneg. lia. Qed.

Lemma size_as_int_exact {A} (v : list A) :
  Z.of_nat (length v) <= INT_MAX -> size_as_int v = Z.of_nat (length v).
Proof.
  intros H. apply wrap_int_id. unfold in_int, INT_MIN, INT_MAX in *. lia.
Qed.

Lemma vector_at_in_bounds {A} (v : list A) (i : nat) x :
  v !! i = Some x -> vector_at v (Z.of_nat i) = Ok x.
Proof.
  intros H. unfold vector_at.
  assert (Hlt : (i < length v)%nat) by (eapply lookup_lt_Some; eauto).
  replace ((0 <=? Z.of_nat i) && (Z.of_nat i <? Z.of_nat (length v))) with true
    by (symmetry; apply andb_true_iff; split; [apply Z.leb_le | apply Z.ltb_lt]; lia).
  rewrite Nat2Z.id, H. reflexivity.
Qed.

Lemma vector_at_negative {A} (v : list A) (i : Z) :
  i < 0 -> vector_at v i = Undefined (out_of_bounds_read i (length v)).
Proof.
  intros H. unfold vector_at.
  replace (0 <=? i) with false by (symmetry; apply Z.leb_gt; lia).
  reflexivity.
Qed.

(** ** IEEE-754 doubles

    [double] is the primitive binary64 [float]; its operations are specified
    by the standard library on [spec_float].  The comparisons of the program
    are [a < b] ([PrimFloat.ltb a b]), [a > b] ([PrimFloat.ltb b a]),
    [a <= b] ([PrimFloat.leb a b]) and [a >= b] ([PrimFloat.leb b a]); each
    is false as soon as an operand is NaN. *)

Module Double.

Definition lt (a b : float) : bool := PrimFloat.ltb a b.
Definition gt (a b : float) : bool := PrimFloat.ltb b a.
Definition le (a b : float) : bool := PrimFloat.leb a b.
Definition ge (a b : float) : bool := PrimFloat.leb b a.

(** [std::numeric_limits<double>::max()]. *)
Definition max : float := 0x1.fffffffffffffp+1023%float.

Definition SF_is_nan (x : spec_float) : bool :=
  match x with S754_nan => true | _ => false end.

Definition SF_is_zero (x : spec_float) : bool :=
  match x with S754_zero _ => true | _ => false end.

Definition SF_is_infinity (x : spec_float) : bool :=
  match x with S754_infinity _ => true | _ => false end.

Definition is_nan (x : float) : bool := SF_is_nan (Prim2SF x).
Definition is_zero (x : float) : bool := SF_is_zero (Prim2SF x).
Definition is_infinity (x : float) : bool := SF_is_infinity (Prim2SF x).

End Double.

Ltac sf_cases :=
  repeat match goal with
  | x : spec_float |- _ => destruct x
  end;
  repeat match goal with
  | s : bool |- _ => destruct s
  end;
  simpl in *; try discriminate; try reflexivity; try tauto.

Ltac sf_order :=
  repeat match goal with
  | |- context [Z.compare ?a ?b] => destruct (Z.compare_spec a b)
  | H : context [Z.compare ?a ?b] |- _ => destruct (Z.compare_spec a b)
  | |- context [Pos.compare_cont Eq ?a ?b] =>
      change (Pos.compare_cont Eq a b) with (Pos.compare a b);
      destruct (Pos.compare_spec a b)
  | H : context [Pos.compare_cont Eq ?a ?b] |- _ =>
      change (Pos.compare_cont Eq a b) with (Pos.compare a b) in H;
      destruct (Pos.compare_spec a b)
  end; simpl in *; subst; try discriminate; try reflexivity; try tauto; try lia.

Section SpecFloatOrder.

Import Double.

Lemma SFltb_irrefl x : SFltb x x = false.
Proof. unfold SFltb. sf_cases; sf_order. Qed.

Lemma SFltb_trans x y z :
  SFltb x y = true -> SFltb y z = true -> SFltb x z = true.
Proof. unfold SFltb. sf_cases; intros; sf_order. Qed.

Lemma SFltb_negtrans x y z :
  SF_is_nan y = false -> SFltb x z = true ->
  SFltb x y = true \/ SFltb y z = true.
Proof. unfold SFltb. sf_cases; intros; sf_order. Qed.

Lemma SFleb_of_not_ltb x y :
  SF_is_nan x = false -> SF_is_nan y = false ->
  SFltb x y = false -> SFleb y x = true.
Proof. unfold SFltb, SFleb. sf_cases; intros; sf_order. Qed.

Lemma SFleb_not_nan x y : SFleb x y = true ->
  SF_is_nan x = false /\ SF_is_nan y = false.
Proof. unfold SFleb. sf_cases. Qed.

Lemma SFltb_not_nan x y : SFltb x y = true ->
  SF_is_nan x = false /\ SF_is_nan y = false.
Proof. unfold SFltb. sf_cases. Qed.

Lemma SFleb_ltb_false x y : SFleb x y = true -> SFltb y x = false.
Proof. unfold SFltb, SFleb. sf_cases; intros; sf_order. Qed.

End SpecFloatOrder.

Section DoubleOrder.

Import Double.

Lemma gt_irrefl a : gt a a = false.
Proof. unfold gt. rewrite ltb_spec. apply SFltb_irrefl. Qed.

Lemma gt_trans a b c : gt a b = true -> gt b c = true -> gt a c = true.
Proof.
  unfold gt. rewrite !ltb_spec. intros H1 H2.
  exact (SFltb_trans _ _ _ H2 H1).
Qed.

Lemma gt_negtrans a b c :
  is_nan b = false -> gt a c = true -> gt a b = true \/ gt b c = true.
Proof.
  unfold gt, is_nan. rewrite !ltb_spec. intros Hb H.
  destruct (SFltb_negtrans _ _ _ Hb H); auto.
Qed.

Lemma ge_of_not_gt a b :
  is_nan a = false -> is_nan b = false -> gt b a = false -> ge a b = true.
Proof.
  unfold gt, ge, is_nan. rewrite ltb_spec, leb_spec. intros Ha Hb H.
  apply SFleb_of_not_ltb; assumption.
Qed.

Lemma ge_not_nan a b : ge a b = true -> is_nan a = false /\ is_nan b = false.
Proof.
  unfold ge, is_nan. rewrite leb_spec. intros H.
  destruct (SFleb_not_nan _ _ H). auto.
Qed.

Lemma lt_nan_r a b : is_nan b = true -> lt a b = false.
Proof.
  unfold lt, is_nan. rewrite ltb_spec. intros H.
  destruct (SFltb (Prim2SF a) (Prim2SF b)) eqn:E; [|reflexivity].
  apply SFltb_not_nan in E. destruct E; congruence.
Qed.

Lemma lt_nan_l a b : is_nan a = true -> lt a b = false.
Proof.
  unfold lt, is_nan. rewrite ltb_spec. intros H.
  destruct (SFltb (Prim2SF a) (Prim2SF b)) eqn:E; [|reflexivity].
  apply SFltb_not_nan in E. destruct E; congruence.
Qed.

Lemma ge_nan_l a b : is_nan a = true -> ge a b = false.
Proof.
  intros H. destruct (ge a b) eqn:E; [|reflexivity].
  apply ge_not_nan in E. destruct E; congruence.
Qed.

End DoubleOrder.

(** ** Library algorithms: [std::sort] and [std::shuffle]

    The program calls [std::sort(first, last, comp)].  The C++ standard
    requires [comp] to induce a strict weak ordering on the elements and then
    promises a permutation of the range that is sorted with respect to
    [comp]: for positions [i < j] of the result, [comp(r[j], r[i])] is false.
    The order of equivalent elements is not promised (that is
    [std::stable_sort]).  [std::shuffle(first, last, g)] promises a
    permutation determined by the state of the generator [g], which
    [std::mt19937 g(seed)] derives from the seed. *)

Definition strict_weak_ordering_on {A} (comp : A -> A -> bool) (l : list A) : Prop :=
  (forall a, a ∈ l -> comp a a = false) /\
  (forall a b c, a ∈ l -> b ∈ l -> c ∈ l ->
     comp a b = true -> comp b c = true -> comp a c = true) /\
  (forall a b c, a ∈ l -> b ∈ l -> c ∈ l ->
     comp a b = false -> comp b a = false ->
     comp b c = false -> comp c b = false ->
     comp a c = false /\ comp c a = false).

Definition sorted_wrt {A} (comp : A -> A -> bool) (l : list A) : Prop :=
  StronglySorted (fun a b => comp b a = false) l.

(** An implementation of the two algorithms. *)
Class StdAlgorithms := {
  std_sort : forall {A : Type}, (A -> A -> bool) -> list A -> list A;
  std_shuffle : forall {A : Type}, Z -> list A -> list A
}.

(** The contract of the standard. *)
Class Conforming (S : StdAlgorithms) : Prop := {
  std_sort_permutation : forall (A : Type) (comp : A -> A -> bool) (l : list A),
    strict_weak_ordering_on comp l -> l ≡ₚ std_sort comp l;
  std_sort_sorted : forall (A : Type) (comp : A -> A -> bool) (l : list A),
    strict_weak_ordering_on comp l -> sorted_wrt comp (std_sort comp l);
  std_shuffle_permutation : forall (A : Type) (seed : Z) (l : list A),
    l ≡ₚ std_shuffle seed l
}.

(** Two implementations that meet the contract.  The first is the straight
    insertion sort (what an introsort does on a short range); the second
    sorts the same way after reversing the range.  Both are conforming
    [std::sort]s; only the first keeps equivalent elements in input order. *)

Fixpoint insert_before {A} (comp : A -> A -> bool) (x : A) (l : list A) : list A :=
  match l with
  | [] => [x]
  | y :: l' => if comp y x then y :: insert_before comp x l' else x :: y :: l'
  end.

Fixpoint insertion_sort {A} (comp : A -> A -> bool) (l : list A) : list A :=
  match l with
  | [] => []
  | x :: l' => insert_before comp x (insertion_sort comp l')
  end.

Definition reversing_sort {A} (comp : A -> A -> bool) (l : list A) : list A :=
  insertion_sort comp (rev l).

(** A seed-indexed permutation standing for the shuffle: a rotation. *)
Definition rotation_shuffle {A} (seed : Z) (l : list A) : list A :=
  rotate (Z.to_nat (Z.abs seed)) l.

Section SortContract.

Context {A : Type} (comp : A -> A -> bool).

Lemma strict_weak_asym l a b :
  strict_weak_ordering_on comp l -> a ∈ l -> b ∈ l ->
  comp a b = true -> comp b a = false.
Proof.
  intros (Hirr & Htr & _) Ha Hb Hab.
  destruct (comp b a) eqn:Hba; [|reflexivity].
  rewrite <- (Hirr a Ha). symmetry. eapply Htr; eauto.
Qed.

Lemma strict_weak_negtrans l a b c :
  strict_weak_ordering_on comp l -> a ∈ l -> b ∈ l -> c ∈ l ->
  comp a b = false -> comp b c = false -> comp a c = false.
Proof.
  intros Hswo Ha Hb Hc Hab Hbc.
  pose proof Hswo as (Hirr & Htr & Heq).
  destruct (comp a c) eqn:Hac; [|reflexivity].
  destruct (comp b a) eqn:Hba.
  { rewrite <- Hbc. symmetry. eapply (Htr b a c); eauto. }
  destruct (comp c b) eqn:Hcb.
  { rewrite <- Hab. symmetry. eapply (Htr a c b); eauto. }
  destruct (Heq a b c Ha Hb Hc Hab Hba Hbc Hcb) as [H _]. congruence.
Qed.

Lemma strict_weak_ordering_on_perm l l' :
  l ≡ₚ l' -> strict_weak_ordering_on comp l -> strict_weak_ordering_on comp l'.
Proof.
  intros Hp (Hirr & Htr & Hequiv).
  assert (Hin : forall a, a ∈ l' -> a ∈ l) by (intros a; rewrite Hp; auto).
  split; [|split].
  - intros a Ha. apply Hirr; auto.
  - intros a b c Ha Hb Hc. apply Htr; auto.
  - intros a b c Ha Hb Hc. apply Hequiv; auto.
Qed.

Lemma strict_weak_ordering_on_cons x l :
  strict_weak_ordering_on comp (x :: l) -> strict_weak_ordering_on comp l.
Proof.
  intros (Hirr & Htr & Hequiv).
  split; [|split].
  - intros a Ha. apply Hirr. by right.
  - intros a b c Ha Hb Hc. apply Htr; by right.
  - intros a b c Ha Hb Hc. apply Hequiv; by right.
Qed.

Lemma insert_before_perm x l : x :: l ≡ₚ insert_before comp x l.
Proof.
  induction l as [|y l IH]; simpl; [reflexivity|].
  destruct (comp y x); [|reflexivity].
  rewrite <- IH. apply Permutation_swap.
Qed.

Lemma insertion_sort_perm l : l ≡ₚ insertion_sort comp l.
Proof.
  induction l as [|x l IH]; simpl; [reflexivity|].
  rewrite <- insert_before_perm. by constructor.
Qed.

Lemma insert_before_sorted dom x l :
  strict_weak_ordering_on comp dom -> x ∈ dom -> (forall y, y ∈ l -> y ∈ dom) ->
  sorted_wrt comp l -> sorted_wrt comp (insert_before comp x l).
Proof.
  intros Hswo Hx Hl Hs. unfold sorted_wrt in *.
  induction Hs as [|y l Hs IH Hall]; simpl.
  - repeat constructor.
  - assert (Hy : y ∈ dom) by (apply Hl; set_solver).
    assert (Hl' : forall z, z ∈ l -> z ∈ dom) by (intros z Hz; apply Hl; set_solver).
    destruct (comp y x) eqn:Hyx.
    + constructor; [apply IH; auto|].
      rewrite <- insert_before_perm. constructor; [|assumption].
      exact (strict_weak_asym dom y x Hswo Hy Hx Hyx).
    + constructor; [constructor; assumption|].
      constructor; [assumption|].
      rewrite Forall_forall in *. intros z Hz.
      apply (strict_weak_negtrans dom z y x); auto.
Qed.

Lemma insertion_sort_sorted_in dom l :
  strict_weak_ordering_on comp dom -> (forall y, y ∈ l -> y ∈ dom) ->
  sorted_wrt comp (insertion_sort comp l).
Proof.
  intros Hswo. induction l as [|x l IH]; intros Hsub; simpl.
  - constructor.
  - apply (insert_before_sorted dom); auto.
    + apply Hsub. by left.
    + intros y. rewrite <- insertion_sort_perm. intros Hy. apply Hsub. by right.
    + apply IH. intros y Hy. apply Hsub. by right.
Qed.

Lemma insertion_sort_sorted l :
  strict_weak_ordering_on comp l -> sorted_wrt comp (insertion_sort comp l).
Proof. intros Hswo. apply (insertion_sort_sorted_in l); auto. Qed.

End SortContract.

Lemma rotation_shuffle_perm {A} seed (l : list A) : l ≡ₚ rotation_shuffle seed l.
Proof.
  unfold rotation_shuffle, rotate.
  rewrite Permutation_app_comm, take_drop. reflexivity.
Qed.

Definition insertion_std : StdAlgorithms :=
  {| std_sort := @insertion_sort; std_shuffle := @rotation_shuffle |}.

Definition reversing_std : StdAlgorithms :=
  {| std_sort := @reversing_sort; std_shuffle := @rotation_shuffle |}.

#[global] Instance insertion_std_conforming : Conforming insertion_std.
Proof.
  split.
  - intros A comp l _. apply insertion_sort_perm.
  - intros A comp l H. apply insertion_sort_sorted, H.
  - intros A seed l. apply rotation_shuffle_perm.
Qed.

#[global] Instance reversing_std_conforming : Conforming reversing_std.
Proof.
  split.
  - intros A comp l _. unfold reversing_std, reversing_sort. simpl.
    rewrite <- insertion_sort_perm. apply Permutation_rev.
  - intros A comp l H. unfold reversing_std, reversing_sort. simpl.
    apply insertion_sort_sorted.
    eapply strict_weak_ordering_on_perm; [|exact H]. apply Permutation_rev.
  - intros A seed l. apply rotation_shuffle_perm.
Qed.

(** *** The [std::sort] of GNU libstdc++

    The introsort of [bits/stl_algo.h] (GCC 12), on a vector carried as a
    list with positions for iterators: quicksort with a median-of-three
    pivot while a range is longer than 16, then one insertion sort over the
    whole range.  A read outside the vector and the heap-sort fallback (depth
    limit exhausted) are outside the model: [None].  This implementation is
    used below only to run the filters on concrete inputs. *)

Module Libstdcxx.
Section Sort.

Context {A : Type} (comp : A -> A -> bool).

Definition S_threshold : nat := 16.

Definition iter_swap (v : list A) (a b : nat) : option (list A) :=
  x ← v !! a; y ← v !! b; Some (<[b := x]> (<[a := y]> v)).

(** [comp(i, j)] on two positions. *)
Definition comp_at (v : list A) (i j : nat) : option bool :=
  x ← v !! i; y ← v !! j; Some (comp x y).

Definition move_median_to_first (v : list A) (result a b c : nat)
  : option (list A) :=
  ab ← comp_at v a b; bc ← comp_at v b c; ac ← comp_at v a c;
  if ab : bool
  then if bc : bool then iter_swap v result b
       else if ac : bool then iter_swap v result c
       else iter_swap v result a
  else if ac then iter_swap v result a
  else if bc then iter_swap v result c
  else iter_swap v result b.

(** [while (comp(first, pivot)) ++first;] *)
Fixpoint scan_up (fuel : nat) (v : list A) (first pivot : nat) : option nat :=
  match fuel with
  | O => None
  | S fuel' =>
      c ← comp_at v first pivot;
      if c : bool then scan_up fuel' v (S first) pivot else Some first
  end.

(** [while (comp(pivot, last)) --last;] *)
Fixpoint scan_down (fuel : nat) (v : list A) (pivot last : nat) : option nat :=
  match fuel with
  | O => None
  | S fuel' =>
      c ← comp_at v pivot last;
      if c : bool
      then match last with O => None | S last' => scan_down fuel' v pivot last' end
      else Some last
  end.

Fixpoint unguarded_partition (fuel : nat) (v : list A) (first last pivot : nat)
  : option (list A * nat) :=
  match fuel with
  | O => None
  | S fuel' =>
      first ← scan_up (S (length v)) v first pivot;
      last ← match last with O => None | S last' => Some last' end;
      last ← scan_down (S (length v)) v pivot last;
      if negb (first <? last)%nat then Some (v, first)
      else v ← iter_swap v first last;
           unguarded_partition fuel' v (S first) last pivot
  end.

Definition unguarded_partition_pivot (v : list A) (first last : nat)
  : option (list A * nat) :=
  let mid := (first + (last - first) / 2)%nat in
  v ← move_median_to_first v first (first + 1) mid (last - 1);
  unguarded_partition (S (length v)) v (first + 1) last first.

Fixpoint introsort_loop (fuel : nat) (v : list A) (first last depth_limit : nat)
  : option (list A) :=
  match fuel with
  | O => None
  | S fuel' =>
      if (S_threshold <? last - first)%nat
      then match depth_limit with
           | O => None
           | S depth_limit =>
               '(v, cut) ← unguarded_partition_pivot v first last;
               v ← introsort_loop fuel' v cut last depth_limit;
               introsort_loop fuel' v first cut depth_limit
           end
      else Some v
  end.

(** The loop of [__unguarded_linear_insert]: [val] moves down from [last]
    past every element it must precede. *)
Fixpoint linear_insert_loop (fuel : nat) (v : list A) (val : A) (last : nat)
  : option (list A) :=
  match fuel with
  | O => None
  | S fuel' =>
      match last with
      | O => None
      | S next =>
          y ← v !! next;
          if comp val y then linear_insert_loop fuel' (<[last := y]> v) val next
          else Some (<[last := val]> v)
      end
  end.

Definition unguarded_linear_insert (v : list A) (last : nat) : option (list A) :=
  val ← v !! last; linear_insert_loop (S (length v)) v val last.

(** [val = *i; move_backward(first, i, i + 1); *first = val;] *)
Definition move_to_first (v : list A) (first i : nat) : option (list A) :=
  val ← v !! i;
  Some (take first v ++ val :: take (i - first) (drop first v) ++ drop (S i) v).

Fixpoint insertion_loop (n : nat) (v : list A) (first i : nat) : option (list A) :=
  match n with
  | O => Some v
  | S n' =>
      c ← comp_at v i first;
      v ← (if c : bool then move_to_first v first i else unguarded_linear_insert v i);
      insertion_loop n' v first (S i)
  end.

Definition insertion_sort (v : list A) (first last : nat) : option (list A) :=
  if (first =? last)%nat then Some v
  else insertion_loop (last - S first) v first (S first).

Fixpoint unguarded_insertion_sort (n : nat) (v : list A) (i : nat) : option (list A) :=
  match n with
  | O => Some v
  | S n' => v ← unguarded_linear_insert v i; unguarded_insertion_sort n' v (S i)
  end.

Definition final_insertion_sort (v : list A) (first last : nat) : option (list A) :=
  if (S_threshold <? last - first)%nat
  then v ← insertion_sort v first (first + S_threshold);
       unguarded_insertion_sort (last - (first + S_threshold)) v (first + S_threshold)
  else insertion_sort v first last.

Definition sort (v : list A) : option (list A) :=
  match v with
  | [] => Some v
  | _ =>
      let n := length v in
      v ← introsort_loop (S n) v 0 n (Nat.log2 n * 2);
      final_insertion_sort v 0 n
  end.

End Sort.
End Libstdcxx.

(** The range is left as it is where the model has no answer. *)
Definition libstdcxx_std : StdAlgorithms :=
  {| std_sort := fun A comp l => default l (Libstdcxx.sort comp l);
     std_shuffle := @rotation_shuffle |}.

(** ** Loops over vectors *)

(** [for (int i = first; i < last; ++i) result.push_back(v[i]);] *)
Fixpoint read_from {A} (v : list A) (i : Z) (n : nat) : outcome (list A) :=
  match n with
  | O => Ok []
  | S n' =>
      x ← vector_at v i;
      rest ← read_from v (i + 1) n';
      Ok (x :: rest)
  end.

Definition push_back_range {A} (v : list A) (first last : Z) : outcome (list A) :=
  read_from v first (Z.to_nat (last - first)).

(** ** The JSON values of the configuration (nlohmann::json)

    Only what the program uses: [contains], [operator[]] on a key, [is_array]
    and the typed reads [get<T>()], which throw [type_error] when the stored
    value has another type. *)

Module Json.

#[local] Set Warnings "-register-all".

Inductive json : Type :=
| null
| boolean (b : bool)
| number_integer (z : Z)       (* also number_unsigned *)
| number_float (f : float)
| string_ (s : string)
| array (items : list json)
| object (members : list (string * json)).   (* one member per key *)

Fixpoint assoc (key : string) (members : list (string * json)) : option json :=
  match members with
  | [] => None
  | (k, v) :: rest => if String.eqb k key then Some v else assoc key rest
  end.

(** [j.contains(key)]: false on anything that is not an object. *)
Definition contains (j : json) (key : string) : bool :=
  match j with
  | object members => match assoc key members with Some _ => true | None => false end
  | _ => false
  end.

(** [j[key]] on a const value; the program reads it only under
    [contains(key)]. *)
Definition at_key (j : json) (key : string) : json :=
  match j with
  | object members => match assoc key members with Some v => v | None => null end
  | _ => null
  end.

Definition is_array (j : json) : bool :=
  match j with array _ => true | _ => false end.

Definition type_name (j : json) : string :=
  match j with
  | null => "null"
  | boolean _ => "boolean"
  | number_integer _ | number_float _ => "number"
  | string_ _ => "string"
  | array _ => "array"
  | object _ => "object"
  end.

(** The [type_error] number 302 of the library. *)
Definition type_must_be (what : string) (j : json) : exception :=
  json_type_error ("[json.exception.type_error.302] type must be " +:+ what
                   +:+ ", but is " +:+ type_name j).

(** [static_cast<long>(double)]: the value with its fraction dropped; no value
    for NaN and the infinities. *)
Definition truncate (f : float) : option Z :=
  match Prim2SF f with
  | S754_zero _ => Some 0
  | S754_finite s m e =>
      let magnitude := if 0 <=? e then Z.pos m * 2 ^ e else Z.pos m / 2 ^ (- e) in
      Some (if s then - magnitude else magnitude)
  | S754_infinity _ | S754_nan => None
  end.

(** [static_cast<double>(z)]: the nearest double. *)
Definition of_integer (z : Z) : float :=
  SF2Prim (binary_normalize prec emax z 0 false).

(** [j.get<int>()]: any number converts, and so does a boolean. *)
Definition get_int (j : json) : outcome Z :=
  match j with
  | number_integer z => Ok (wrap_int z)
  | number_float f =>
      match truncate f with
      | Some z => if (INT_MIN <=? z) && (z <=? INT_MAX) then Ok z
                  else Undefined float_to_int_out_of_range
      | None => Undefined float_to_int_out_of_range
      end
  | boolean b => Ok (if b then 1 else 0)
  | _ => Throws (type_must_be "number" j)
  end.

(** [j.get<unsigned int>()]. *)
Definition get_unsigned (j : json) : outcome Z :=
  match j with
  | number_integer z => Ok (wrap_uint z)
  | number_float f =>
      match truncate f with
      | Some z => if (0 <=? z) && (z <=? UINT_MAX) then Ok z
                  else Undefined float_to_int_out_of_range
      | None => Undefined float_to_int_out_of_range
      end
  | boolean b => Ok (if b then 1 else 0)
  | _ => Throws (type_must_be "number" j)
  end.

(** [j.get<double>()]; [double] is the library's own float type, for which
    a boolean is not converted. *)
Definition get_double (j : json) : outcome float :=
  match j with
  | number_integer z => Ok (of_integer z)
  | number_float f => Ok f
  | _ => Throws (type_must_be "number" j)
  end.

(** [j.get<std::string>()]. *)
Definition get_string (j : json) : outcome string :=
  match j with
  | string_ s => Ok s
  | _ => Throws (type_must_be "string" j)
  end.

(** [j.get<std::vector<std::string>>()]. *)
Fixpoint get_strings (items : list json) : outcome (list string) :=
  match items with
  | [] => Ok []
  | item :: rest =>
      s ← get_string item;
      ss ← get_strings rest;
      Ok (s :: ss)
  end.

Definition get_string_vector (j : json) : outcome (list string) :=
  match j with
  | array items => get_strings items
  | _ => Throws (type_must_be "array" j)
  end.

End Json.

(** ** Instrument snapshot model ([pair_types.h]) *)

Inductive PairType : Type := Spot | Futures | Margin.

Inductive SortKey : Type := QuoteVolume | Volume | PriceChange | Volatility.

(** [std::chrono::system_clock::time_point], in ticks of one nanosecond. *)
Definition time_point : Type := Z.
Definition ticks_per_hour : Z := 3600 * 1000000000.

(** A [time_point] and the difference of two hold their count in a signed
    64-bit integer: the range, and the reduction of a count to it (what a
    subtraction that leaves the range gives on two's complement). *)
Definition in_ticks (z : Z) : Prop :=
  -9223372036854775808 <= z <= 9223372036854775807.

Definition wrap_ticks (z : Z) : Z :=
  (z + 9223372036854775808) mod 18446744073709551616 - 9223372036854775808.

Module MarketInfo.

Record t : Type := {
  symbol : string;
  base : string;
  quote : string;
  type : PairType;
  active : bool;
  min_amount : float;
  max_amount : float;
  min_price : float;
  max_price : float;
  min_cost : float;
  amount_precision : Z;
  price_precision : Z;
  maker_fee : float;
  taker_fee : float;
  listed_date : time_point;
  market_cap : float;
  market_cap_rank : Z
}.

End MarketInfo.

Module TickerInfo.

Record t : Type := {
  symbol : string;
  last_price : float;
  bid : float;
  ask : float;
  high_24h : float;
  low_24h : float;
  volume_24h : float;
  quote_volume_24h : float;
  price_change_percent_24h : float;
  timestamp : time_point
}.

Definition getSpread (self : t) : float := (ask self - bid self)%float.
Definition getSpreadRatio (self : t) : float := ((ask self - bid self) / ask self)%float.
Definition getVolatility (self : t) : float :=
  ((high_24h self - low_24h self) / last_price self)%float.

End TickerInfo.

(** What a filter observes of the outside world while it runs: the system
    clock ([AgeFilter]) and the random device ([ShuffleFilter] with seed 0). *)
Record Ambient : Type := {
  system_clock_now : time_point;
  random_device : Z
}.

(** ** The filters ([pair_filter.h] and its implementation)

    One module per class; the record [t] holds the private members, [make]
    is the default-constructed object, [filter] and [configure] are the
    member functions.  A provider member ([std::function], possibly unset) is
    carried as the value it returns during the run, or [None] when unset. *)

Abbreviation tickers_map := (gmap string TickerInfo.t).

Module StaticPairListFilter.

Record t : Type := { whitelist_ : list string }.
Definition make : t := {| whitelist_ := [] |}.
Definition getName : string := "StaticPairList".

Definition filter (self : t) (pairs : list string) (tickers : tickers_map)
  : outcome (list string) :=
  match whitelist_ self with
  | [] => Ok pairs
  | _ =>
      let whitelist_set : gset string := list_to_set (whitelist_ self) in
      Ok (filter (fun pair => pair ∈ whitelist_set) pairs)
  end.

Definition configure (self : t) (config : Json.json) : outcome t :=
  if Json.contains config "whitelist" && Json.is_array (Json.at_key config "whitelist")
  then w ← Json.get_string_vector (Json.at_key config "whitelist");
       Ok {| whitelist_ := w |}
  else Ok self.

End StaticPairListFilter.

Module VolumePairListFilter.

Record t : Type := {
  number_assets_ : Z;
  sort_key_ : SortKey;
  min_value_ : float;
  refresh_period_ : Z
}.
Definition make : t :=
  {| number_assets_ := 20; sort_key_ := QuoteVolume;
     min_value_ := 0%float; refresh_period_ := 1800 |}.
Definition getName : string := "VolumePairList".

Record PairWithValue : Type := { pair : string; value : float }.

(** The [switch (sort_key_)] of the loop body. *)
Definition metric (key : SortKey) (ticker : TickerInfo.t) : float :=
  match key with
  | QuoteVolume => TickerInfo.quote_volume_24h ticker
  | Volume => TickerInfo.volume_24h ticker
  | PriceChange => PrimFloat.abs (TickerInfo.price_change_percent_24h ticker)
  | Volatility => TickerInfo.getVolatility ticker
  end.

(** One iteration of the first loop: what is pushed for [pair], if
    anything. *)
Definition candidate (self : t) (tickers : tickers_map) (p : string)
  : option PairWithValue :=
  match tickers !! p with
  | None => None
  | Some ticker =>
      let v := metric (sort_key_ self) ticker in
      if Double.lt v (min_value_ self) then None
      else Some {| pair := p; value := v |}
  end.

(** The comparator handed to [std::sort]. *)
Definition by_value_desc (a b : PairWithValue) : bool :=
  Double.gt (value a) (value b).

Definition filter `{StdAlgorithms} (self : t) (pairs : list string)
    (tickers : tickers_map) : outcome (list string) :=
  let pairs_with_value : list PairWithValue :=
    omap (candidate self tickers) pairs in
  let pairs_with_value := std_sort by_value_desc pairs_with_value in
  let count := Z.min (number_assets_ self) (size_as_int pairs_with_value) in
  top ← push_back_range pairs_with_value 0 count;
  Ok (pair <$> (top : list PairWithValue)).

Definition parse_sort_key (key : string) (current : SortKey) : SortKey :=
  if String.eqb key "quoteVolume" then QuoteVolume
  else if String.eqb key "volume" then Volume
  else if String.eqb key "priceChange" then PriceChange
  else if String.eqb key "volatility" then Volatility
  else current.

Definition configure (self : t) (config : Json.json) : outcome t :=
  n ← (if Json.contains config "number_assets"
       then Json.get_int (Json.at_key config "number_assets")
       else Ok (number_assets_ self));
  m ← (if Json.contains config "min_value"
       then Json.get_double (Json.at_key config "min_value")
       else Ok (min_value_ self));
  r ← (if Json.contains config "refresh_period"
       then Json.get_int (Json.at_key config "refresh_period")
       else Ok (refresh_period_ self));
  k ← (if Json.contains config "sort_key"
       then key ← Json.get_string (Json.at_key config "sort_key");
            Ok (parse_sort_key key (sort_key_ self))
       else Ok (sort_key_ self));
  Ok {| number_assets_ := n; sort_key_ := k; min_value_ := m; refresh_period_ := r |}.

End VolumePairListFilter.

Module SpreadFilter.

Record t : Type := { max_spread_ratio_ : float }.
Definition make : t := {| max_spread_ratio_ := 0x1.47ae147ae147bp-8%float |} (* 0.005 *).
Definition getName : string := "SpreadFilter".

Definition keeps (self : t) (tickers : tickers_map) (p : string) : bool :=
  match tickers !! p with
  | None => false
  | Some ticker => Double.le (TickerInfo.getSpreadRatio ticker) (max_spread_ratio_ self)
  end.

Definition filter (self : t) (pairs : list string) (tickers : tickers_map)
  : outcome (list string) :=
  Ok (filter (fun pair => keeps self tickers pair = true) pairs).

Definition configure (self : t) (config : Json.json) : outcome t :=
  if Json.contains config "max_spread_ratio"
  then r ← Json.get_double (Json.at_key config "max_spread_ratio");
       Ok {| max_spread_ratio_ := r |}
  else Ok self.

End SpreadFilter.

Module BlacklistFilter.

Record t : Type := { blacklist_ : list string }.
Definition make : t := {| blacklist_ := [] |}.
Definition getName : string := "BlacklistFilter".

Definition filter (self : t) (pairs : list string) (tickers : tickers_map)
  : outcome (list string) :=
  match blacklist_ self with
  | [] => Ok pairs
  | _ =>
      let blacklist_set : gset string := list_to_set (blacklist_ self) in
      Ok (filter (fun pair => pair ∉ blacklist_set) pairs)
  end.

Definition configure (self : t) (config : Json.json) : outcome t :=
  if Json.contains config "blacklist" && Json.is_array (Json.at_key config "blacklist")
  then b ← Json.get_string_vector (Json.at_key config "blacklist");
       Ok {| blacklist_ := b |}
  else Ok self.

End BlacklistFilter.

Module PriceFilter.

Record t : Type := { min_price_ : float; max_price_ : float }.
Definition make : t := {| min_price_ := 0%float; max_price_ := Double.max |}.
Definition getName : string := "PriceFilter".

Definition keeps (self : t) (tickers : tickers_map) (p : string) : bool :=
  match tickers !! p with
  | None => false
  | Some ticker =>
      let price := TickerInfo.last_price ticker in
      Double.ge price (min_price_ self) && Double.le price (max_price_ self)
  end.

Definition filter (self : t) (pairs : list string) (tickers : tickers_map)
  : outcome (list string) :=
  Ok (filter (fun pair => keeps self tickers pair = true) pairs).

Definition configure (self : t) (config : Json.json) : outcome t :=
  lo ← (if Json.contains config "min_price"
        then Json.get_double (Json.at_key config "min_price")
        else Ok (min_price_ self));
  hi ← (if Json.contains config "max_price"
        then Json.get_double (Json.at_key config "max_price")
        else Ok (max_price_ self));
  Ok {| min_price_ := lo; max_price_ := hi |}.

End PriceFilter.

Module VolatilityFilter.

Record t : Type := { min_volatility_ : float; max_volatility_ : float }.
Definition make : t := {| min_volatility_ := 0%float; max_volatility_ := Double.max |}.
Definition getName : string := "VolatilityFilter".

Definition keeps (self : t) (tickers : tickers_map) (p : string) : bool :=
  match tickers !! p with
  | None => false
  | Some ticker =>
      let volatility := TickerInfo.getVolatility ticker in
      Double.ge volatility (min_volatility_ self)
      && Double.le volatility (max_volatility_ self)
  end.

Definition filter (self : t) (pairs : list string) (tickers : tickers_map)
  : outcome (list string) :=
  Ok (filter (fun pair => keeps self tickers pair = true) pairs).

Definition configure (self : t) (config : Json.json) : outcome t :=
  lo ← (if Json.contains config "min_volatility"
        then Json.get_double (Json.at_key config "min_volatility")
        else Ok (min_volatility_ self));
  hi ← (if Json.contains config "max_volatility"
        then Json.get_double (Json.at_key config "max_volatility")
        else Ok (max_volatility_ self));
  Ok {| min_volatility_ := lo; max_volatility_ := hi |}.

End VolatilityFilter.

(** [market_map[market.symbol] = market] for every market of the provider's
    list (a later entry for the same symbol replaces the earlier one). *)
Definition market_map_of (markets : list MarketInfo.t) : gmap string MarketInfo.t :=
  foldl (fun m market => <[MarketInfo.symbol market := market]> m) ∅ markets.

Module AgeFilter.

Record t : Type := {
  min_days_listed_ : Z;
  market_provider_ : option (list MarketInfo.t)
}.
Definition make : t := {| min_days_listed_ := 10; market_provider_ := None |}.
Definition getName : string := "AgeFilter".

(** [duration_cast<hours>(now - listed_date).count() / 24]: the difference
    is a 64-bit count of ticks; both divisions round toward zero. *)
Definition days_listed (now : time_point) (market : MarketInfo.t) : Z :=
  Z.quot (Z.quot (wrap_ticks (now - MarketInfo.listed_date market)) ticks_per_hour) 24.

Definition keeps (self : t) (market_map : gmap string MarketInfo.t)
    (now : time_point) (p : string) : bool :=
  match market_map !! p with
  | None => false
  | Some market => min_days_listed_ self <=? days_listed now market
  end.

Definition filter (self : t) (amb : Ambient) (pairs : list string)
    (tickers : tickers_map) : outcome (list string) :=
  match market_provider_ self with
  | None => Ok pairs
  | Some markets =>
      let market_map := market_map_of markets in
      let now := system_clock_now amb in
      Ok (filter (fun pair => keeps self market_map now pair = true) pairs)
  end.

Definition configure (self : t) (config : Json.json) : outcome t :=
  if Json.contains config "min_days_listed"
  then d ← Json.get_int (Json.at_key config "min_days_listed");
       Ok {| min_days_listed_ := d; market_provider_ := market_provider_ self |}
  else Ok self.

End AgeFilter.

Module OffsetFilter.

Record t : Type := { offset_ : Z; number_assets_ : Z }.
Definition make : t := {| offset_ := 0; number_assets_ := 0 |}.
Definition getName : string := "OffsetFilter".

Definition start_of (self : t) (pairs : list string) : Z :=
  Z.min (offset_ self) (size_as_int pairs).

Definition end_of (self : t) (pairs : list string) : Z :=
  if 0 <? number_assets_ self
  then Z.min (int_add (start_of self pairs) (number_assets_ self)) (size_as_int pairs)
  else size_as_int pairs.

Definition filter (self : t) (pairs : list string) (tickers : tickers_map)
  : outcome (list string) :=
  let start := start_of self pairs in
  let end_ := end_of self pairs in
  push_back_range pairs start end_.

Definition configure (self : t) (config : Json.json) : outcome t :=
  o ← (if Json.contains config "offset"
       then Json.get_int (Json.at_key config "offset")
       else Ok (offset_ self));
  n ← (if Json.contains config "number_assets"
       then Json.get_int (Json.at_key config "number_assets")
       else Ok (number_assets_ self));
  Ok {| offset_ := o; number_assets_ := n |}.

End OffsetFilter.

Module ShuffleFilter.

Record t : Type := { seed_ : Z }.
Definition make : t := {| seed_ := 0 |}.
Definition getName : string := "ShuffleFilter".

Definition filter `{StdAlgorithms} (self : t) (amb : Ambient)
    (pairs : list string) (tickers : tickers_map) : outcome (list string) :=
  if seed_ self =? 0
  then Ok (std_shuffle (random_device amb) pairs)
  else Ok (std_shuffle (seed_ self) pairs).

Definition configure (self : t) (config : Json.json) : outcome t :=
  if Json.contains config "seed"
  then s ← Json.get_unsigned (Json.at_key config "seed");
       Ok {| seed_ := s |}
  else Ok self.

End ShuffleFilter.

Module PerformanceFilter.

Record t : Type := {
  min_profit_ : float;
  performance_provider_ : option (gmap string float)
}.
Definition make : t := {| min_profit_ := 0%float; performance_provider_ := None |}.
Definition getName : string := "PerformanceFilter".

Definition keeps (self : t) (performance_map : gmap string float) (p : string) : bool :=
  match performance_map !! p with
  | None => true
  | Some profit => Double.ge profit (min_profit_ self)
  end.

Definition filter (self : t) (pairs : list string) (tickers : tickers_map)
  : outcome (list string) :=
  match performance_provider_ self with
  | None => Ok pairs
  | Some performance_map => Ok (filter (fun pair => keeps self performance_map pair = true) pairs)
  end.

Definition configure (self : t) (config : Json.json) : outcome t :=
  if Json.contains config "min_profit"
  then m ← Json.get_double (Json.at_key config "min_profit");
       Ok {| min_profit_ := m; performance_provider_ := performance_provider_ self |}
  else Ok self.

End PerformanceFilter.

Module ProducerPairList.

Record t : Type := {
  remote_provider_ : option (list string);
  producer_name_ : string
}.
Definition make : t := {| remote_provider_ := None; producer_name_ := "" |}.
Definition getName : string := "ProducerPairList".

Definition filter (self : t) (pairs : list string) (tickers : tickers_map)
  : outcome (list string) :=
  match remote_provider_ self with
  | None => Ok []
  | Some result => Ok result
  end.

Definition configure (self : t) (config : Json.json) : outcome t :=
  if Json.contains config "producer_name"
  then n ← Json.get_string (Json.at_key config "producer_name");
       Ok {| remote_provider_ := remote_provider_ self; producer_name_ := n |}
  else Ok self.

End ProducerPairList.

Module MarketCapPairList.

Record t : Type := {
  number_assets_ : Z;
  max_rank_ : Z;
  market_provider_ : option (list MarketInfo.t)
}.
Definition make : t :=
  {| number_assets_ := 20; max_rank_ := 100; market_provider_ := None |}.
Definition getName : string := "MarketCapPairList".

Record PairWithMarketCap : Type := { pair : string; market_cap : float; rank : Z }.

Definition candidate (self : t) (market_map : gmap string MarketInfo.t) (p : string)
  : option PairWithMarketCap :=
  match market_map !! p with
  | None => None
  | Some market =>
      if (0 <? MarketInfo.market_cap_rank market)
         && (MarketInfo.market_cap_rank market <=? max_rank_ self)
      then Some {| pair := p;
                   market_cap := MarketInfo.market_cap market;
                   rank := MarketInfo.market_cap_rank market |}
      else None
  end.

Definition by_cap_desc (a b : PairWithMarketCap) : bool :=
  Double.gt (market_cap a) (market_cap b).

Definition filter `{StdAlgorithms} (self : t) (pairs : list string)
    (tickers : tickers_map) : outcome (list string) :=
  match market_provider_ self with
  | None => Ok pairs
  | Some markets =>
      let market_map := market_map_of markets in
      let pairs_with_cap : list PairWithMarketCap :=
        omap (candidate self market_map) pairs in
      let pairs_with_cap := std_sort by_cap_desc pairs_with_cap in
      let count := Z.min (number_assets_ self) (size_as_int pairs_with_cap) in
      top ← push_back_range pairs_with_cap 0 count;
      Ok (pair <$> (top : list PairWithMarketCap))
  end.

Definition configure (self : t) (config : Json.json) : outcome t :=
  n ← (if Json.contains config "number_assets"
       then Json.get_int (Json.at_key config "number_assets")
       else Ok (number_assets_ self));
  r ← (if Json.contains config "max_rank"
       then Json.get_int (Json.at_key config "max_rank")
       else Ok (max_rank_ self));
  Ok {| number_assets_ := n; max_rank_ := r;
        market_provider_ := market_provider_ self |}.

End MarketCapPairList.

(** ** The interface [PairFilter] and its twelve implementations *)

Inductive PairFilter : Type :=
| StaticPairList_ (f : StaticPairListFilter.t)
| VolumePairList_ (f : VolumePairListFilter.t)
| SpreadFilter_ (f : SpreadFilter.t)
| BlacklistFilter_ (f : BlacklistFilter.t)
| PriceFilter_ (f : PriceFilter.t)
| VolatilityFilter_ (f : VolatilityFilter.t)
| AgeFilter_ (f : AgeFilter.t)
| OffsetFilter_ (f : OffsetFilter.t)
| ShuffleFilter_ (f : ShuffleFilter.t)
| PerformanceFilter_ (f : PerformanceFilter.t)
| ProducerPairList_ (f : ProducerPairList.t)
| MarketCapPairList_ (f : MarketCapPairList.t).

Module PairFilterOps.

(** Virtual dispatch of [filter]. *)
Definition filter `{StdAlgorithms} (self : PairFilter) (amb : Ambient)
    (pairs : list string) (tickers : tickers_map) : outcome (list string) :=
  match self with
  | StaticPairList_ f => StaticPairListFilter.filter f pairs tickers
  | VolumePairList_ f => VolumePairListFilter.filter f pairs tickers
  | SpreadFilter_ f => SpreadFilter.filter f pairs tickers
  | BlacklistFilter_ f => BlacklistFilter.filter f pairs tickers
  | PriceFilter_ f => PriceFilter.filter f pairs tickers
  | VolatilityFilter_ f => VolatilityFilter.filter f pairs tickers
  | AgeFilter_ f => AgeFilter.filter f amb pairs tickers
  | OffsetFilter_ f => OffsetFilter.filter f pairs tickers
  | ShuffleFilter_ f => ShuffleFilter.filter f amb pairs tickers
  | PerformanceFilter_ f => PerformanceFilter.filter f pairs tickers
  | ProducerPairList_ f => ProducerPairList.filter f pairs tickers
  | MarketCapPairList_ f => MarketCapPairList.filter f pairs tickers
  end.

Definition getName (self : PairFilter) : string :=
  match self with
  | StaticPairList_ _ => StaticPairListFilter.getName
  | VolumePairList_ _ => VolumePairListFilter.getName
  | SpreadFilter_ _ => SpreadFilter.getName
  | BlacklistFilter_ _ => BlacklistFilter.getName
  | PriceFilter_ _ => PriceFilter.getName
  | VolatilityFilter_ _ => VolatilityFilter.getName
  | AgeFilter_ _ => AgeFilter.getName
  | OffsetFilter_ _ => OffsetFilter.getName
  | ShuffleFilter_ _ => ShuffleFilter.getName
  | PerformanceFilter_ _ => PerformanceFilter.getName
  | ProducerPairList_ _ => ProducerPairList.getName
  | MarketCapPairList_ _ => MarketCapPairList.getName
  end.

Definition configure (self : PairFilter) (config : Json.json) : outcome PairFilter :=
  match self with
  | StaticPairList_ f => StaticPairList_ <$> StaticPairListFilter.configure f config
  | VolumePairList_ f => VolumePairList_ <$> VolumePairListFilter.configure f config
  | SpreadFilter_ f => SpreadFilter_ <$> SpreadFilter.configure f config
  | BlacklistFilter_ f => BlacklistFilter_ <$> BlacklistFilter.configure f config
  | PriceFilter_ f => PriceFilter_ <$> PriceFilter.configure f config
  | VolatilityFilter_ f => VolatilityFilter_ <$> VolatilityFilter.configure f config
  | AgeFilter_ f => AgeFilter_ <$> AgeFilter.configure f config
  | OffsetFilter_ f => OffsetFilter_ <$> OffsetFilter.configure f config
  | ShuffleFilter_ f => ShuffleFilter_ <$> ShuffleFilter.configure f config
  | PerformanceFilter_ f => PerformanceFilter_ <$> PerformanceFilter.configure f config
  | ProducerPairList_ f => ProducerPairList_ <$> ProducerPairList.configure f config
  | MarketCapPairList_ f => MarketCapPairList_ <$> MarketCapPairList.configure f config
  end.

End PairFilterOps.

(** ** The factory *)

Module PairFilterFactory.

(** [create(method)]: a default-constructed filter, or [nullptr] ([None])
    for a name that is none of the twelve. *)
Definition create (method : string) : option PairFilter :=
  if String.eqb method "StaticPairList" then Some (StaticPairList_ StaticPairListFilter.make)
  else if String.eqb method "VolumePairList" then Some (VolumePairList_ VolumePairListFilter.make)
  else if String.eqb method "SpreadFilter" then Some (SpreadFilter_ SpreadFilter.make)
  else if String.eqb method "BlacklistFilter" then Some (BlacklistFilter_ BlacklistFilter.make)
  else if String.eqb method "PriceFilter" then Some (PriceFilter_ PriceFilter.make)
  else if String.eqb method "VolatilityFilter" then Some (VolatilityFilter_ VolatilityFilter.make)
  else if String.eqb method "AgeFilter" then Some (AgeFilter_ AgeFilter.make)
  else if String.eqb method "OffsetFilter" then Some (OffsetFilter_ OffsetFilter.make)
  else if String.eqb method "ShuffleFilter" then Some (ShuffleFilter_ ShuffleFilter.make)
  else if String.eqb method "PerformanceFilter" then Some (PerformanceFilter_ PerformanceFilter.make)
  else if String.eqb method "ProducerPairList" then Some (ProducerPairList_ ProducerPairList.make)
  else if String.eqb method "MarketCapPairList" then Some (MarketCapPairList_ MarketCapPairList.make)
  else None.

Definition createFromConfig (config : Json.json) : outcome (option PairFilter) :=
  if negb (Json.contains config "method") then Ok None
  else
    method ← Json.get_string (Json.at_key config "method");
    match create method with
    | Some filter =>
        configured ← PairFilterOps.configure filter config;
        Ok (Some configured)
    | None => Ok None
    end.

End PairFilterFactory.

(** ** The manager ([PairListManager])

    The class is declared in [trading/pair_list_manager.h], its member
    functions are in the implementation file.  The two providers are carried,
    like the filters' own, as the value they return during the run ([None]
    when unset).  The mutex and the auto-refresh thread are left out: every
    property below is about one call running alone.  The [k]-th filter of the
    chain observes [amb k]; the clock read at the time of publication is
    [amb] at the chain's length. *)

Module PairListManager.

(** The members of [PairListManager] as the class declares them, without
    the mutex and the two members of the auto-refresh thread.
    [refresh_interval_] is an [int]; the two counters are
    [std::atomic<int>], whose increment wraps around at [INT_MAX]. *)
Record t : Type := {
  pairs_ : list string;
  filters_ : list PairFilter;
  market_provider_ : option (list MarketInfo.t);
  ticker_provider_ : option tickers_map;
  refresh_interval_ : Z;
  refresh_count_ : Z;
  filter_count_ : Z;
  last_refresh_time_ : time_point
}.

Definition set_filters (self : t) (fs : list PairFilter) : t :=
  {| pairs_ := pairs_ self; filters_ := fs;
     market_provider_ := market_provider_ self;
     ticker_provider_ := ticker_provider_ self;
     refresh_interval_ := refresh_interval_ self;
     refresh_count_ := refresh_count_ self;
     filter_count_ := filter_count_ self;
     last_refresh_time_ := last_refresh_time_ self |}.

Definition set_refresh_interval (self : t) (seconds : Z) : t :=
  {| pairs_ := pairs_ self; filters_ := filters_ self;
     market_provider_ := market_provider_ self;
     ticker_provider_ := ticker_provider_ self;
     refresh_interval_ := seconds;
     refresh_count_ := refresh_count_ self;
     filter_count_ := filter_count_ self;
     last_refresh_time_ := last_refresh_time_ self |}.

Definition clearFilters (self : t) : t := set_filters self [].

Definition addFilter (self : t) (filter : PairFilter) : t :=
  set_filters self (filters_ self ++ [filter]).

(** The loop of [loadFromConfig] over the entries of [pairlist_filters]:
    the chain as it stands when the loop ends or is left by an exception. *)
Fixpoint load_filters (entries : list Json.json) (chain : list PairFilter)
  : list PairFilter * outcome unit :=
  match entries with
  | [] => (chain, Ok tt)
  | filter_config :: rest =>
      match PairFilterFactory.createFromConfig filter_config with
      | Ok (Some filter) => load_filters rest (chain ++ [filter])
      | Ok None => load_filters rest chain
      | Throws e => (chain, Throws e)
      | Undefined u => (chain, Undefined u)
      end
  end.

(** [loadFromConfig(config)]: the manager as the call leaves it, and how
    the call ended. *)
Definition loadFromConfig (self : t) (config : Json.json) : t * outcome unit :=
  let self := clearFilters self in
  let '(self, loaded) :=
    if Json.contains config "pairlist_filters"
       && Json.is_array (Json.at_key config "pairlist_filters")
    then match Json.at_key config "pairlist_filters" with
         | Json.array entries =>
             let '(chain, r) := load_filters entries (filters_ self) in
             (set_filters self chain, r)
         | _ => (self, Ok tt)
         end
    else (self, Ok tt) in
  match loaded with
  | Ok _ =>
      if Json.contains config "refresh_period"
      then match Json.get_int (Json.at_key config "refresh_period") with
           | Ok seconds => (set_refresh_interval self seconds, Ok tt)
           | Throws e => (self, Throws e)
           | Undefined u => (self, Undefined u)
           end
      else (self, Ok tt)
  | _ => (self, loaded)
  end.

(** The symbols of the active markets, in the provider's order. *)
Definition active_pairs (markets : list MarketInfo.t) : list string :=
  MarketInfo.symbol <$> filter (fun market => MarketInfo.active market = true) markets.

(** The loop over [filters_]: the working set and the execution counter
    when the loop ends.  [k] is the position of the next filter. *)
Fixpoint apply_filters `{StdAlgorithms} (filters : list PairFilter)
    (amb : nat -> Ambient) (k : nat) (tickers : tickers_map)
    (filtered_pairs : list string) (filter_count : Z)
  : outcome (list string * Z) :=
  match filters with
  | [] => Ok (filtered_pairs, filter_count)
  | filter :: rest =>
      match filtered_pairs with
      | [] => Ok (filtered_pairs, filter_count)
      | _ =>
          out ← PairFilterOps.filter filter (amb k) filtered_pairs tickers;
          apply_filters rest amb (S k) tickers out (int_add filter_count 1)
      end
  end.

Definition refresh `{StdAlgorithms} (self : t) (amb : nat -> Ambient) : outcome t :=
  let all_pairs :=
    match market_provider_ self with
    | Some markets => active_pairs markets
    | None => []
    end in
  match all_pairs with
  | [] => Ok self
  | _ =>
      let tickers : tickers_map :=
        match ticker_provider_ self with
        | Some tickers => tickers
        | None => ∅
        end in
      '(filtered_pairs, filter_count) ←
        apply_filters (filters_ self) amb 0 tickers all_pairs (filter_count_ self);
      Ok {| pairs_ := filtered_pairs;
            filters_ := filters_ self;
            market_provider_ := market_provider_ self;
            ticker_provider_ := ticker_provider_ self;
            refresh_interval_ := refresh_interval_ self;
            refresh_count_ := int_add (refresh_count_ self) 1;
            filter_count_ := filter_count;
            last_refresh_time_ :=
              system_clock_now (amb (length (filters_ self))) |}
  end.

Definition getPairs (self : t) : list string := pairs_ self.

Definition getPairCount (self : t) : nat := length (pairs_ self).

Definition hasPair (self : t) (p : string) : bool :=
  bool_decide (p ∈ pairs_ self).

End PairListManager.

(** * Properties *)

(** ** The copying loop *)

Lemma read_from_in_bounds {A} (v : list A) (n i : nat) :
  (i + n <= length v)%nat ->
  read_from v (Z.of_nat i) n = Ok (take n (drop i v)).
Proof.
  revert i. induction n as [|n IH]; intros i Hle; simpl.
  - by rewrite take_0.
  - assert (Hlt : (i < length v)%nat) by lia.
    destruct (lookup_lt_is_Some_2 v i Hlt) as [x Hx].
    rewrite (vector_at_in_bounds v i x Hx). simpl.
    replace (Z.of_nat i + 1) with (Z.of_nat (S i)) by lia.
    rewrite IH by lia. simpl.
    by rewrite (drop_S v x i Hx).
Qed.

Lemma push_back_range_prefix {A} (v : list A) (count : Z) :
  count <= Z.of_nat (length v) ->
  push_back_range v 0 count = Ok (take (Z.to_nat count) v).
Proof.
  intros Hle. unfold push_back_range. rewrite Z.sub_0_r.
  change 0 with (Z.of_nat 0).
  rewrite read_from_in_bounds by lia. by rewrite drop_0.
Qed.

Lemma push_back_range_slice {A} (v : list A) (first last : Z) :
  0 <= first -> last <= Z.of_nat (length v) ->
  push_back_range v first last
  = Ok (take (Z.to_nat (last - first)) (drop (Z.to_nat first) v)).
Proof.
  intros H0 Hle. unfold push_back_range.
  destruct (Z.le_gt_cases last first) as [Hempty|Hlt].
  - replace (Z.to_nat (last - first)) with 0%nat by lia.
    simpl. by rewrite take_0.
  - rewrite <- (Z2Nat.id first) at 1 by lia.
    rewrite read_from_in_bounds by lia. reflexivity.
Qed.

Lemma push_back_range_negative {A} (v : list A) (first last : Z) :
  first < 0 -> first < last ->
  push_back_range v first last = Undefined (out_of_bounds_read first (length v)).
Proof.
  intros Hneg Hlt. unfold push_back_range.
  destruct (Z.to_nat (last - first)) as [|n] eqn:E; [lia|].
  simpl. by rewrite vector_at_negative.
Qed.

(** ** Sorted ranges *)

Lemma sorted_wrt_lookup {A} (comp : A -> A -> bool) (l : list A) i j a b :
  sorted_wrt comp l -> (i < j)%nat -> l !! i = Some a -> l !! j = Some b ->
  comp b a = false.
Proof.
  intros Hs. revert i j. induction Hs as [|x l Hs IH Hall]; intros i j Hij Hi Hj.
  - by rewrite lookup_nil in Hi.
  - destruct j as [|j]; [lia|]. simpl in Hj.
    destruct i as [|i]; simpl in Hi.
    + inversion Hi; subst. rewrite Forall_forall in Hall.
      apply Hall. eapply list_elem_of_lookup_2; eauto.
    + apply (IH i j); auto. lia.
Qed.

(** When no two distinct elements are equivalent for [comp], the sorted
    permutation is unique: every conforming [std::sort] returns it. *)
Lemma sorted_wrt_unique {A} (comp : A -> A -> bool) (l l' : list A) :
  (forall a b, a ∈ l -> b ∈ l -> comp a b = false -> comp b a = false -> a = b) ->
  sorted_wrt comp l -> sorted_wrt comp l' -> l ≡ₚ l' -> l = l'.
Proof.
  intros Hdist Hs. revert l' Hdist.
  induction Hs as [|x l Hs IH Hall]; intros l' Hdist Hs' Hp.
  - symmetry. by apply Permutation_nil.
  - destruct Hs' as [|y l' Hs' Hall'].
    { symmetry in Hp. by apply Permutation_nil_cons in Hp. }
    rewrite Forall_forall in Hall, Hall'.
    assert (Hy : y ∈ x :: l) by (rewrite Hp; by left).
    assert (Hx : x ∈ y :: l') by (rewrite <- Hp; by left).
    assert (Hxy : x = y).
    { apply elem_of_cons in Hy as [->|Hy]; [reflexivity|].
      apply elem_of_cons in Hx as [->|Hx]; [reflexivity|].
      apply Hdist; [by left|by right|by apply Hall'|by apply Hall]. }
    subst y. f_equal. apply IH.
    + intros a b Ha Hb. apply Hdist; by right.
    + assumption.
    + by apply Permutation_cons_inv in Hp.
Qed.

(** ** The Volume filter *)

(** The ranking metric of a pair under the filter's [sort_key_], when the
    pair has a ticker. *)
Definition volume_metric (self : VolumePairListFilter.t) (tickers : tickers_map)
    (p : string) : option float :=
  VolumePairListFilter.metric (VolumePairListFilter.sort_key_ self) <$> tickers !! p.

(** No pair of the input has a NaN metric. *)
Definition volume_metrics_are_numbers (self : VolumePairListFilter.t)
    (pairs : list string) (tickers : tickers_map) : Prop :=
  forall p v, p ∈ pairs -> volume_metric self tickers p = Some v ->
    Double.is_nan v = false.

(** [out] is in descending order of [metric]: each pair of positions [i < j]
    holds values [vi >= vj]. *)
Definition descending_by (metric : string -> option float) (out : list string) : Prop :=
  forall i j p q, (i < j)%nat -> out !! i = Some p -> out !! j = Some q ->
    exists vp vq, metric p = Some vp /\ metric q = Some vq /\ Double.ge vp vq = true.

(** Equal metric values keep their input order: whenever [p] precedes [q] in
    the output and both have the same metric value, some occurrence of [p]
    precedes some occurrence of [q] in the input. *)
Definition ties_keep_input_order (metric : string -> option float)
    (input out : list string) : Prop :=
  forall i j p q v, (i < j)%nat -> out !! i = Some p -> out !! j = Some q ->
    metric p = Some v -> metric q = Some v ->
    exists i' j', (i' < j')%nat /\ input !! i' = Some p /\ input !! j' = Some q.

(** *** Ranking: sort the candidates by a key, descending, keep the first n

    Both ranking filters run the same three steps on their own candidate
    record: collect the candidates of the input, [std::sort] them with the
    comparator [a.key > b.key], copy the names of the first [count]. *)

Section Ranking.

Context {S : StdAlgorithms} {conforming : Conforming S} {C : Type}.
Variables (key : C -> float) (name : C -> string).
Variables (candidate : string -> option C) (pairs : list string) (n : Z).

Let comp (a b : C) : bool := Double.gt (key a) (key b).
Let candidates : list C := omap candidate pairs.
Let sorted : list C := std_sort comp candidates.
Let count : Z := Z.min n (size_as_int sorted).

Lemma ranking_copy :
  (top ← push_back_range sorted 0 count; Ok (name <$> (top : list C)))
  = Ok (name <$> take (Z.to_nat count) sorted).
Proof.
  rewrite push_back_range_prefix; [reflexivity|].
  pose proof (size_as_int_le sorted). unfold count. lia.
Qed.

Lemma ranking_length : Z.of_nat (length (name <$> take (Z.to_nat count) sorted)) <= Z.max 0 n.
Proof. rewrite length_fmap, length_take. unfold count. lia. Qed.

Hypothesis keys_are_numbers : forall c, c ∈ candidates -> Double.is_nan (key c) = false.

Lemma ranking_swo : strict_weak_ordering_on comp candidates.
Proof.
  unfold comp. split; [|split].
  - intros a _. apply gt_irrefl.
  - intros a b c _ _ _. apply gt_trans.
  - intros a b c Ha Hb Hc Hab Hba Hbc Hcb. split.
    + destruct (Double.gt (key a) (key c)) eqn:E; [|reflexivity].
      destruct (gt_negtrans _ (key b) _ (keys_are_numbers b Hb) E); congruence.
    + destruct (Double.gt (key c) (key a)) eqn:E; [|reflexivity].
      destruct (gt_negtrans _ (key b) _ (keys_are_numbers b Hb) E); congruence.
Qed.

Lemma ranking_perm : candidates ≡ₚ sorted.
Proof. apply std_sort_permutation, ranking_swo. Qed.

Lemma ranking_sorted : sorted_wrt comp sorted.
Proof. apply std_sort_sorted, ranking_swo. Qed.

Lemma ranking_lookup i p :
  (name <$> take (Z.to_nat count) sorted) !! i = Some p ->
  exists c, sorted !! i = Some c /\ c ∈ candidates /\ name c = p.
Proof.
  rewrite list_lookup_fmap_Some. intros (c & -> & Hc).
  apply lookup_take_Some in Hc as [Hc _].
  exists c. split; [assumption|]. split; [|reflexivity].
  rewrite ranking_perm. eapply list_elem_of_lookup_2; eauto.
Qed.

Lemma ranking_order i j ci cj :
  (i < j)%nat -> sorted !! i = Some ci -> sorted !! j = Some cj ->
  Double.ge (key ci) (key cj) = true.
Proof.
  intros Hij Hi Hj. apply ge_of_not_gt.
  - apply keys_are_numbers. rewrite ranking_perm. eapply list_elem_of_lookup_2; eauto.
  - apply keys_are_numbers. rewrite ranking_perm. eapply list_elem_of_lookup_2; eauto.
  - exact (sorted_wrt_lookup comp sorted i j ci cj ranking_sorted Hij Hi Hj).
Qed.

End Ranking.

Section VolumeFilter.

Context {S : StdAlgorithms} {conforming : Conforming S}.
Variables (self : VolumePairListFilter.t) (pairs : list string)
          (tickers : tickers_map).

Let candidates : list VolumePairListFilter.PairWithValue :=
  omap (VolumePairListFilter.candidate self tickers) pairs.
Let sorted := std_sort VolumePairListFilter.by_value_desc candidates.
Let count := Z.min (VolumePairListFilter.number_assets_ self) (size_as_int sorted).

Lemma volume_filter_eq :
  VolumePairListFilter.filter self pairs tickers
  = Ok (VolumePairListFilter.pair <$> take (Z.to_nat count) sorted).
Proof. apply ranking_copy. Qed.

Lemma volume_candidate_inv p c :
  VolumePairListFilter.candidate self tickers p = Some c ->
  VolumePairListFilter.pair c = p /\
  volume_metric self tickers p = Some (VolumePairListFilter.value c) /\
  Double.lt (VolumePairListFilter.value c) (VolumePairListFilter.min_value_ self) = false.
Proof.
  unfold VolumePairListFilter.candidate, volume_metric.
  destruct (tickers !! p) as [t|]; [|discriminate].
  destruct (Double.lt _ _) eqn:E; [discriminate|].
  intros [= <-]. simpl. auto.
Qed.

Lemma volume_candidates_inv c :
  c ∈ candidates ->
  VolumePairListFilter.pair c ∈ pairs /\
  volume_metric self tickers (VolumePairListFilter.pair c)
    = Some (VolumePairListFilter.value c) /\
  Double.lt (VolumePairListFilter.value c) (VolumePairListFilter.min_value_ self) = false.
Proof.
  unfold candidates. rewrite list_elem_of_omap. intros (p & Hp & Hc).
  destruct (volume_candidate_inv p c Hc) as (<- & Hm & Hmin). auto.
Qed.

Lemma volume_length_le :
  forall out, VolumePairListFilter.filter self pairs tickers = Ok out ->
  Z.of_nat (length out) <= Z.max 0 (VolumePairListFilter.number_assets_ self).
Proof.
  intros out. rewrite volume_filter_eq. intros [= <-]. apply ranking_length.
Qed.

Hypothesis numbers : volume_metrics_are_numbers self pairs tickers.

Lemma volume_values_are_numbers c :
  c ∈ candidates -> Double.is_nan (VolumePairListFilter.value c) = false.
Proof.
  intros Hc. destruct (volume_candidates_inv c Hc) as (Hp & Hm & _).
  apply (numbers (VolumePairListFilter.pair c)); assumption.
Qed.

Lemma volume_sorted_perm : candidates ≡ₚ sorted.
Proof. apply ranking_perm, volume_values_are_numbers. Qed.

Lemma volume_sorted_sorted : sorted_wrt VolumePairListFilter.by_value_desc sorted.
Proof.
  apply (ranking_sorted VolumePairListFilter.value), volume_values_are_numbers.
Qed.

Lemma volume_out_lookup out i p :
  VolumePairListFilter.filter self pairs tickers = Ok out ->
  out !! i = Some p ->
  exists c, sorted !! i = Some c /\ c ∈ candidates /\ VolumePairListFilter.pair c = p.
Proof.
  rewrite volume_filter_eq. intros [= <-].
  apply ranking_lookup, volume_values_are_numbers.
Qed.

Lemma volume_descending out :
  VolumePairListFilter.filter self pairs tickers = Ok out ->
  descending_by (volume_metric self tickers) out.
Proof.
  intros Hout i j p q Hij Hi Hj.
  destruct (volume_out_lookup out i p Hout Hi) as (ci & Hci & Hini & <-).
  destruct (volume_out_lookup out j q Hout Hj) as (cj & Hcj & Hinj & <-).
  destruct (volume_candidates_inv ci Hini) as (Hpi & Hmi & _).
  destruct (volume_candidates_inv cj Hinj) as (Hpj & Hmj & _).
  exists (VolumePairListFilter.value ci), (VolumePairListFilter.value cj).
  split; [assumption|]. split; [assumption|].
  exact (ranking_order VolumePairListFilter.value _ pairs volume_values_are_numbers
           i j ci cj Hij Hci Hcj).
Qed.

Lemma volume_members out p :
  VolumePairListFilter.filter self pairs tickers = Ok out -> p ∈ out ->
  p ∈ pairs /\
  exists v, volume_metric self tickers p = Some v /\
            Double.lt v (VolumePairListFilter.min_value_ self) = false.
Proof.
  intros Hout Hp. apply list_elem_of_lookup_1 in Hp as [i Hi].
  destruct (volume_out_lookup out i p Hout Hi) as (c & _ & Hin & <-).
  destruct (volume_candidates_inv c Hin) as (H1 & H2 & H3). eauto.
Qed.

End VolumeFilter.

(** *** The scenario of the specification: quote volumes A=500, B=50, C=300,
    no ticker for D, [{number_assets: 2, sort_key: "quoteVolume",
    min_value: 0}]. *)

Definition ticker_with_quote_volume (s : string) (quote_volume : float) : TickerInfo.t :=
  {| TickerInfo.symbol := s;
     TickerInfo.last_price := 1; TickerInfo.bid := 1; TickerInfo.ask := 1;
     TickerInfo.high_24h := 1; TickerInfo.low_24h := 1;
     TickerInfo.volume_24h := 1;
     TickerInfo.quote_volume_24h := quote_volume;
     TickerInfo.price_change_percent_24h := 0;
     TickerInfo.timestamp := 0 |}.

Definition scenario_tickers : tickers_map :=
  <["A" := ticker_with_quote_volume "A" 500]>
    (<["B" := ticker_with_quote_volume "B" 50]>
       (<["C" := ticker_with_quote_volume "C" 300]> ∅)).

Definition scenario_config : Json.json :=
  Json.object [("method", Json.string_ "VolumePairList");
               ("number_assets", Json.number_integer 2);
               ("sort_key", Json.string_ "quoteVolume");
               ("min_value", Json.number_integer 0)].

Definition scenario_filter : VolumePairListFilter.t :=
  {| VolumePairListFilter.number_assets_ := 2;
     VolumePairListFilter.sort_key_ := QuoteVolume;
     VolumePairListFilter.min_value_ := 0;
     VolumePairListFilter.refresh_period_ := 1800 |}.

Lemma scenario_filter_from_config :
  PairFilterFactory.createFromConfig scenario_config
  = Ok (Some (VolumePairList_ scenario_filter)).
Proof. vm_compute. reflexivity. Qed.

Lemma scenario_metrics_are_numbers :
  volume_metrics_are_numbers scenario_filter ["A"; "B"; "C"; "D"] scenario_tickers.
Proof.
  intros p v Hp. repeat (apply elem_of_cons in Hp as [->|Hp]).
  5: by apply elem_of_nil in Hp.
  all: vm_compute; intros [= <-]; reflexivity.
Qed.

Lemma scenario_output (S : StdAlgorithms) `{!Conforming S} :
  VolumePairListFilter.filter scenario_filter ["A"; "B"; "C"; "D"] scenario_tickers
  = Ok ["A"; "C"].
Proof.
  rewrite volume_filter_eq.
  pose proof (volume_sorted_sorted _ _ _ scenario_metrics_are_numbers) as Hs.
  pose proof (volume_sorted_perm _ _ _ scenario_metrics_are_numbers) as Hp.
  set (a := {| VolumePairListFilter.pair := "A"; VolumePairListFilter.value := 500 |}).
  set (b := {| VolumePairListFilter.pair := "B"; VolumePairListFilter.value := 50 |}).
  set (c := {| VolumePairListFilter.pair := "C"; VolumePairListFilter.value := 300 |}).
  replace (omap (VolumePairListFilter.candidate scenario_filter scenario_tickers)
             ["A"; "B"; "C"; "D"]) with [a; b; c] in * by (vm_compute; reflexivity).
  assert (Hsorted : std_sort VolumePairListFilter.by_value_desc [a; b; c] = [a; c; b]).
  { symmetry. apply (sorted_wrt_unique VolumePairListFilter.by_value_desc).
    - intros x y Hx Hy.
      repeat (apply elem_of_cons in Hx as [->|Hx]); [| | |by apply elem_of_nil in Hx].
      all: repeat (apply elem_of_cons in Hy as [->|Hy]); try (by apply elem_of_nil in Hy).
      all: try reflexivity.
      all: vm_compute; congruence.
    - repeat constructor.
    - exact Hs.
    - rewrite <- Hp. apply perm_skip, perm_swap. }
  rewrite Hsorted. vm_compute. reflexivity.
Qed.

(** A ticker whose fields are all zero (an instrument that has not traded):
    its volatility is [0 / 0], a NaN. *)
Definition idle_ticker (s : string) : TickerInfo.t :=
  {| TickerInfo.symbol := s;
     TickerInfo.last_price := 0; TickerInfo.bid := 0; TickerInfo.ask := 0;
     TickerInfo.high_24h := 0; TickerInfo.low_24h := 0;
     TickerInfo.volume_24h := 0;
     TickerInfo.quote_volume_24h := 0;
     TickerInfo.price_change_percent_24h := 0;
     TickerInfo.timestamp := 0 |}.

Definition by_volatility_top2 : VolumePairListFilter.t :=
  {| VolumePairListFilter.number_assets_ := 2;
     VolumePairListFilter.sort_key_ := Volatility;
     VolumePairListFilter.min_value_ := 0;
     VolumePairListFilter.refresh_period_ := 1800 |}.

Lemma idle_ticker_is_returned :
  VolumePairListFilter.filter (H := insertion_std) by_volatility_top2 ["A"]
    {["A" := idle_ticker "A"]} = Ok ["A"]
  /\ volume_metric by_volatility_top2 {["A" := idle_ticker "A"]} "A" = Some nan
  /\ Double.ge nan (VolumePairListFilter.min_value_ by_volatility_top2) = false.
Proof. repeat split; vm_compute; reflexivity. Qed.

(** C3, as stated, fails: with [sort_key = volatility] and [min_value = 0]
    the filter returns a pair whose ticker is all zero, and the metric of
    that pair, NaN, is not at least [min_value]. *)
Lemma volume_filter_returns_nan_metric :
  ~ (forall (S : StdAlgorithms) (self : VolumePairListFilter.t)
            (pairs : list string) (tickers : tickers_map) (out : list string),
       Conforming S ->
       VolumePairListFilter.filter self pairs tickers = Ok out ->
       Z.of_nat (length out) <= Z.max 0 (VolumePairListFilter.number_assets_ self)
       /\ descending_by (volume_metric self tickers) out
       /\ (forall p, p ∈ out ->
             p ∈ pairs /\
             exists v, volume_metric self tickers p = Some v /\
                       Double.ge v (VolumePairListFilter.min_value_ self) = true)).
Proof.
  intros claim.
  destruct idle_ticker_is_returned as (Hout & Hmetric & Hge).
  destruct (claim insertion_std _ _ _ _ _ Hout) as (_ & _ & Hmembers).
  destruct (Hmembers "A" ltac:(by left)) as (_ & v & Hv & Hmin).
  rewrite Hmetric in Hv. inversion Hv; subst v.
  rewrite Hge in Hmin. discriminate.
Qed.

(** C3, amended: when no metric of the input is NaN (and [min_value] is a
    number), the Volume filter returns, under every conforming [std::sort],
    at most [number_assets] pairs (none when it is not positive), in
    descending order of the metric, each of them a pair of the input that has
    a ticker and a metric at least [min_value]; and the scenario of the
    specification yields exactly [A; C]. *)
Theorem volume_filter_top_n (S : StdAlgorithms) (conforming : Conforming S) :
  (forall (self : VolumePairListFilter.t) (pairs : list string) (tickers : tickers_map),
     volume_metrics_are_numbers self pairs tickers ->
     Double.is_nan (VolumePairListFilter.min_value_ self) = false ->
     exists out,
       VolumePairListFilter.filter self pairs tickers = Ok out
       /\ Z.of_nat (length out) <= Z.max 0 (VolumePairListFilter.number_assets_ self)
       /\ descending_by (volume_metric self tickers) out
       /\ (forall p, p ∈ out ->
             p ∈ pairs /\
             exists v, volume_metric self tickers p = Some v /\
                       Double.ge v (VolumePairListFilter.min_value_ self) = true))
  /\ PairFilterFactory.createFromConfig scenario_config
     = Ok (Some (VolumePairList_ scenario_filter))
  /\ VolumePairListFilter.filter scenario_filter ["A"; "B"; "C"; "D"] scenario_tickers
     = Ok ["A"; "C"].
Proof.
  split; [|split; [apply scenario_filter_from_config | by apply scenario_output]].
  intros self pairs tickers Hnum Hmin.
  eexists. split; [apply volume_filter_eq|].
  pose proof (volume_filter_eq self pairs tickers) as Hout.
  split; [by apply (volume_length_le self pairs tickers)|].
  split; [by apply (volume_descending self pairs tickers Hnum)|].
  intros p Hp.
  destruct (volume_members self pairs tickers Hnum _ p Hout Hp) as (Hin & v & Hv & Hlt).
  split; [assumption|]. exists v. split; [assumption|].
  apply ge_of_not_gt; [by apply (Hnum p)|assumption|exact Hlt].
Qed.

Lemma volume_filter_top_n_witness :
  volume_metrics_are_numbers scenario_filter ["A"; "B"; "C"; "D"] scenario_tickers
  /\ Double.is_nan (VolumePairListFilter.min_value_ scenario_filter) = false
  /\ exists out,
       VolumePairListFilter.filter (H := insertion_std) scenario_filter
         ["A"; "B"; "C"; "D"] scenario_tickers = Ok out
       /\ Z.of_nat (length out) <= 2
       /\ descending_by (volume_metric scenario_filter scenario_tickers) out.
Proof.
  split; [exact scenario_metrics_are_numbers|]. split; [reflexivity|].
  destruct (volume_filter_top_n insertion_std _) as [general _].
  destruct (general scenario_filter ["A"; "B"; "C"; "D"] scenario_tickers
              scenario_metrics_are_numbers eq_refl)
    as (out & Hout & Hlen & Hdesc & _).
  exists out. repeat split; assumption.
Defined.

(** ** The MarketCapRank filter *)

(** The ranking metric of a pair: the market capitalisation of its entry in
    the filter's market map, when it has one. *)
Definition marketcap_metric (markets : list MarketInfo.t) (p : string) : option float :=
  MarketInfo.market_cap <$> market_map_of markets !! p.

Definition marketcap_metrics_are_numbers (markets : list MarketInfo.t)
    (pairs : list string) : Prop :=
  forall p v, p ∈ pairs -> marketcap_metric markets p = Some v ->
    Double.is_nan v = false.

Section MarketCapFilter.

Context {S : StdAlgorithms} {conforming : Conforming S}.
Variables (self : MarketCapPairList.t) (pairs : list string)
          (tickers : tickers_map) (markets : list MarketInfo.t).
Hypothesis provider : MarketCapPairList.market_provider_ self = Some markets.

Let candidates : list MarketCapPairList.PairWithMarketCap :=
  omap (MarketCapPairList.candidate self (market_map_of markets)) pairs.
Let sorted := std_sort MarketCapPairList.by_cap_desc candidates.
Let count := Z.min (MarketCapPairList.number_assets_ self) (size_as_int sorted).

Lemma marketcap_filter_eq :
  MarketCapPairList.filter self pairs tickers
  = Ok (MarketCapPairList.pair <$> take (Z.to_nat count) sorted).
Proof.
  unfold MarketCapPairList.filter. rewrite provider. apply ranking_copy.
Qed.

Lemma marketcap_candidate_inv p c :
  MarketCapPairList.candidate self (market_map_of markets) p = Some c ->
  MarketCapPairList.pair c = p /\
  marketcap_metric markets p = Some (MarketCapPairList.market_cap c) /\
  0 < MarketCapPairList.rank c <= MarketCapPairList.max_rank_ self /\
  exists market, market_map_of markets !! p = Some market /\
                 MarketInfo.market_cap_rank market = MarketCapPairList.rank c.
Proof.
  unfold MarketCapPairList.candidate, marketcap_metric.
  destruct (market_map_of markets !! p) as [m|]; [|discriminate].
  destruct (_ && _) eqn:E; [|discriminate].
  apply andb_true_iff in E as [E1 E2].
  apply Z.ltb_lt in E1. apply Z.leb_le in E2.
  intros [= <-]. simpl. eauto 10.
Qed.

Lemma marketcap_candidates_inv c :
  c ∈ candidates ->
  MarketCapPairList.pair c ∈ pairs /\
  marketcap_metric markets (MarketCapPairList.pair c)
    = Some (MarketCapPairList.market_cap c) /\
  0 < MarketCapPairList.rank c <= MarketCapPairList.max_rank_ self.
Proof.
  unfold candidates. rewrite list_elem_of_omap. intros (p & Hp & Hc).
  destruct (marketcap_candidate_inv p c Hc) as (<- & Hm & Hr & _). auto.
Qed.

Hypothesis numbers : marketcap_metrics_are_numbers markets pairs.

Lemma marketcap_values_are_numbers c :
  c ∈ candidates -> Double.is_nan (MarketCapPairList.market_cap c) = false.
Proof.
  intros Hc. destruct (marketcap_candidates_inv c Hc) as (Hp & Hm & _).
  apply (numbers (MarketCapPairList.pair c)); assumption.
Qed.

Lemma marketcap_sorted_perm : candidates ≡ₚ sorted.
Proof. apply ranking_perm, marketcap_values_are_numbers. Qed.

Lemma marketcap_out_lookup out i p :
  MarketCapPairList.filter self pairs tickers = Ok out ->
  out !! i = Some p ->
  exists c, sorted !! i = Some c /\ c ∈ candidates /\ MarketCapPairList.pair c = p.
Proof.
  rewrite marketcap_filter_eq. intros [= <-].
  apply ranking_lookup, marketcap_values_are_numbers.
Qed.

Lemma marketcap_descending out :
  MarketCapPairList.filter self pairs tickers = Ok out ->
  descending_by (marketcap_metric markets) out.
Proof.
  intros Hout i j p q Hij Hi Hj.
  destruct (marketcap_out_lookup out i p Hout Hi) as (ci & Hci & Hini & <-).
  destruct (marketcap_out_lookup out j q Hout Hj) as (cj & Hcj & Hinj & <-).
  destruct (marketcap_candidates_inv ci Hini) as (Hpi & Hmi & _).
  destruct (marketcap_candidates_inv cj Hinj) as (Hpj & Hmj & _).
  exists (MarketCapPairList.market_cap ci), (MarketCapPairList.market_cap cj).
  split; [assumption|]. split; [assumption|].
  exact (ranking_order MarketCapPairList.market_cap _ pairs
           marketcap_values_are_numbers i j ci cj Hij Hci Hcj).
Qed.

End MarketCapFilter.

(** *** Ties: two pairs with the same metric value *)

Definition tied_tickers : tickers_map :=
  <["A" := ticker_with_quote_volume "A" 100]>
    (<["B" := ticker_with_quote_volume "B" 100]> ∅).

Definition market_with_cap (s : string) (cap : float) (cap_rank : Z) : MarketInfo.t :=
  {| MarketInfo.symbol := s; MarketInfo.base := s; MarketInfo.quote := "USDT";
     MarketInfo.type := Spot; MarketInfo.active := true;
     MarketInfo.min_amount := 0; MarketInfo.max_amount := 0;
     MarketInfo.min_price := 0; MarketInfo.max_price := 0;
     MarketInfo.min_cost := 0;
     MarketInfo.amount_precision := 8; MarketInfo.price_precision := 8;
     MarketInfo.maker_fee := 0; MarketInfo.taker_fee := 0;
     MarketInfo.listed_date := 0;
     MarketInfo.market_cap := cap; MarketInfo.market_cap_rank := cap_rank |}.

Definition tied_markets : list MarketInfo.t :=
  [market_with_cap "A" 100 1; market_with_cap "B" 100 2].

Definition top20_by_cap (markets : list MarketInfo.t) : MarketCapPairList.t :=
  {| MarketCapPairList.number_assets_ := 20;
     MarketCapPairList.max_rank_ := 100;
     MarketCapPairList.market_provider_ := Some markets |}.

Lemma tied_pairs_reversed :
  VolumePairListFilter.filter (H := reversing_std) VolumePairListFilter.make
    ["A"; "B"] tied_tickers = Ok ["B"; "A"]
  /\ MarketCapPairList.filter (H := reversing_std) (top20_by_cap tied_markets)
       ["A"; "B"] ∅ = Ok ["B"; "A"].
Proof. split; vm_compute; reflexivity. Qed.

Lemma tied_pairs_kept_by_insertion :
  VolumePairListFilter.filter (H := insertion_std) VolumePairListFilter.make
    ["A"; "B"] tied_tickers = Ok ["A"; "B"]
  /\ MarketCapPairList.filter (H := insertion_std) (top20_by_cap tied_markets)
       ["A"; "B"] ∅ = Ok ["A"; "B"].
Proof. split; vm_compute; reflexivity. Qed.

(** Seventeen pairs with the same quote volume, under the [std::sort] of
    libstdc++: the range is longer than 16, so it is partitioned, and the
    pairs come out in another order than they went in. *)
Definition seventeen_pairs : list string :=
  ["P00"; "P01"; "P02"; "P03"; "P04"; "P05"; "P06"; "P07"; "P08";
   "P09"; "P10"; "P11"; "P12"; "P13"; "P14"; "P15"; "P16"].

Definition seventeen_tied_tickers : tickers_map :=
  list_to_map ((fun s => (s, ticker_with_quote_volume s 100)) <$> seventeen_pairs).

Lemma libstdcxx_reorders_tied_pairs :
  VolumePairListFilter.filter (H := libstdcxx_std) VolumePairListFilter.make
    seventeen_pairs seventeen_tied_tickers
  = Ok ["P08"; "P16"; "P15"; "P14"; "P13"; "P12"; "P11"; "P10"; "P09";
        "P00"; "P07"; "P06"; "P05"; "P04"; "P03"; "P02"; "P01"].
Proof. vm_compute. reflexivity. Qed.

Lemma libstdcxx_breaks_input_order out :
  VolumePairListFilter.filter (H := libstdcxx_std) VolumePairListFilter.make
    seventeen_pairs seventeen_tied_tickers = Ok out ->
  ~ ties_keep_input_order
      (volume_metric VolumePairListFilter.make seventeen_tied_tickers)
      seventeen_pairs out.
Proof.
  rewrite libstdcxx_reorders_tied_pairs. intros [= <-] Hstable.
  destruct (Hstable 0%nat 9%nat "P08" "P00" 100%float ltac:(lia) eq_refl eq_refl)
    as (i' & j' & Hlt & Hi & Hj); [vm_compute; reflexivity..|].
  assert (Hnd : NoDup seventeen_pairs)
    by (apply (bool_decide_unpack _); vm_compute; exact I).
  assert (j' = 0%nat) by (eapply (NoDup_lookup _ _ _ _ Hnd); [exact Hj|reflexivity]).
  lia.
Qed.

Lemma not_ties_keep_input_order_swapped metric v :
  metric "A" = Some v -> metric "B" = Some v ->
  ~ ties_keep_input_order metric ["A"; "B"] ["B"; "A"].
Proof.
  intros HA HB Hstable.
  destruct (Hstable 0%nat 1%nat "B" "A" v ltac:(lia) eq_refl eq_refl HB HA)
    as (i' & j' & Hlt & Hi & Hj).
  destruct i' as [|[|i']]; simpl in Hi; try discriminate.
  destruct j' as [|[|j']]; simpl in Hj; try discriminate; lia.
Qed.

(** C1, as stated, fails: the program sorts with [std::sort], whose contract
    leaves the order of equivalent elements open.  Under a conforming
    implementation (here: insertion sort of the reversed range) two pairs
    with the same quote volume, and two pairs with the same market
    capitalisation, come out in the opposite of their input order; and under
    the introsort of libstdc++ seventeen pairs with the same quote volume
    come out with [P08] ahead of [P00]. *)
Lemma ranking_ties_not_stable :
  ~ (forall (S : StdAlgorithms) self pairs tickers out,
       Conforming S ->
       VolumePairListFilter.filter self pairs tickers = Ok out ->
       ties_keep_input_order (volume_metric self tickers) pairs out)
  /\ ~ (forall (S : StdAlgorithms) self pairs tickers markets out,
          Conforming S ->
          MarketCapPairList.market_provider_ self = Some markets ->
          MarketCapPairList.filter self pairs tickers = Ok out ->
          ties_keep_input_order (marketcap_metric markets) pairs out)
  /\ (exists out,
        VolumePairListFilter.filter (H := libstdcxx_std) VolumePairListFilter.make
          seventeen_pairs seventeen_tied_tickers = Ok out
        /\ ~ ties_keep_input_order
              (volume_metric VolumePairListFilter.make seventeen_tied_tickers)
              seventeen_pairs out).
Proof.
  destruct tied_pairs_reversed as [Hvol Hcap].
  split; [|split]; [intros claim|intros claim|].
  3: { eexists. split; [apply libstdcxx_reorders_tied_pairs|].
       apply libstdcxx_breaks_input_order, libstdcxx_reorders_tied_pairs. }
  - apply (not_ties_keep_input_order_swapped
             (volume_metric VolumePairListFilter.make tied_tickers) 100%float);
      [vm_compute; reflexivity..|].
    exact (claim reversing_std _ _ _ _ _ Hvol).
  - apply (not_ties_keep_input_order_swapped (marketcap_metric tied_markets) 100%float);
      [vm_compute; reflexivity..|].
    exact (claim reversing_std (top20_by_cap tied_markets) _ _ tied_markets _ _ eq_refl Hcap).
Qed.

(** C1, amended: under every conforming [std::sort], and when no metric of
    the input is NaN, each ranking filter returns its pairs in descending
    order of the ranking metric: of two returned pairs the one with the
    strictly larger metric comes first, whatever their input order.  The
    relative order of pairs with exactly equal metrics is not fixed. *)
Theorem ranking_filters_descending (S : StdAlgorithms) (conforming : Conforming S) :
  (forall (self : VolumePairListFilter.t) (pairs : list string) (tickers : tickers_map),
     volume_metrics_are_numbers self pairs tickers ->
     exists out,
       VolumePairListFilter.filter self pairs tickers = Ok out
       /\ descending_by (volume_metric self tickers) out)
  /\ (forall (self : MarketCapPairList.t) (pairs : list string) (tickers : tickers_map)
             (markets : list MarketInfo.t),
        MarketCapPairList.market_provider_ self = Some markets ->
        marketcap_metrics_are_numbers markets pairs ->
        exists out,
          MarketCapPairList.filter self pairs tickers = Ok out
          /\ descending_by (marketcap_metric markets) out).
Proof.
  split.
  - intros self pairs tickers Hnum. eexists. split; [apply volume_filter_eq|].
    apply (volume_descending self pairs tickers Hnum), volume_filter_eq.
  - intros self pairs tickers markets Hprov Hnum.
    eexists. split; [by apply marketcap_filter_eq|].
    apply (marketcap_descending self pairs tickers markets Hprov Hnum).
    by apply marketcap_filter_eq.
Qed.

(** The MarketCapRank scenario of the specification: ranks A:5, B:15,
    C:-1 (unranked), D:3 with [max_rank = 10]. *)
Definition ranked_markets : list MarketInfo.t :=
  [market_with_cap "A" 50 5; market_with_cap "B" 70 15;
   market_with_cap "C" 90 (-1); market_with_cap "D" 80 3].

Definition top20_max_rank_10 : MarketCapPairList.t :=
  {| MarketCapPairList.number_assets_ := 20;
     MarketCapPairList.max_rank_ := 10;
     MarketCapPairList.market_provider_ := Some ranked_markets |}.

Lemma ranked_markets_are_numbers :
  marketcap_metrics_are_numbers ranked_markets ["A"; "B"; "C"; "D"].
Proof.
  intros p v Hp. repeat (apply elem_of_cons in Hp as [->|Hp]).
  5: by apply elem_of_nil in Hp.
  all: vm_compute; intros [= <-]; reflexivity.
Qed.

Lemma ranking_filters_descending_witness :
  volume_metrics_are_numbers scenario_filter ["A"; "B"; "C"; "D"] scenario_tickers
  /\ marketcap_metrics_are_numbers ranked_markets ["A"; "B"; "C"; "D"]
  /\ (exists out,
        VolumePairListFilter.filter (H := insertion_std) scenario_filter
          ["A"; "B"; "C"; "D"] scenario_tickers = Ok out
        /\ descending_by (volume_metric scenario_filter scenario_tickers) out)
  /\ (exists out,
        MarketCapPairList.filter (H := insertion_std) top20_max_rank_10
          ["A"; "B"; "C"; "D"] ∅ = Ok out
        /\ descending_by (marketcap_metric ranked_markets) out).
Proof.
  split; [exact scenario_metrics_are_numbers|].
  split; [exact ranked_markets_are_numbers|].
  destruct (ranking_filters_descending insertion_std _) as [volume marketcap].
  split.
  - exact (volume scenario_filter _ scenario_tickers scenario_metrics_are_numbers).
  - exact (marketcap top20_max_rank_10 _ ∅ ranked_markets eq_refl
             ranked_markets_are_numbers).
Defined.

Example ranked_markets_output :
  MarketCapPairList.filter (H := insertion_std) top20_max_rank_10
    ["A"; "B"; "C"; "D"] ∅ = Ok ["D"; "A"].
Proof. vm_compute. reflexivity. Qed.

(** ** Volatility at a zero last price *)

Lemma SF64div_by_zero (d z : spec_float) :
  Double.SF_is_zero z = true ->
  (Double.SF_is_nan d || Double.SF_is_zero d = true ->
   SF64div d z = S754_nan)
  /\ (Double.SF_is_nan d || Double.SF_is_zero d = false ->
      Double.SF_is_infinity (SF64div d z) = true).
Proof.
  unfold SF64div, SFdiv.
  destruct z, d; simpl; intros Hz; try discriminate; split; intros H;
    try discriminate; reflexivity.
Qed.

Lemma SF64div_by_positive_zero (d : spec_float) :
  (SFltb (S754_zero false) d = true -> SF64div d (S754_zero false) = S754_infinity false)
  /\ (SFltb d (S754_zero false) = true -> SF64div d (S754_zero false) = S754_infinity true).
Proof.
  unfold SF64div, SFdiv, SFltb.
  destruct d as [s|s| |s m e]; try destruct s; simpl; split; intros H;
    try discriminate; reflexivity.
Qed.

Definition ticker_with_range (high low last : float) : TickerInfo.t :=
  {| TickerInfo.symbol := "A";
     TickerInfo.last_price := last; TickerInfo.bid := 0; TickerInfo.ask := 0;
     TickerInfo.high_24h := high; TickerInfo.low_24h := low;
     TickerInfo.volume_24h := 0;
     TickerInfo.quote_volume_24h := 0;
     TickerInfo.price_change_percent_24h := 0;
     TickerInfo.timestamp := 0 |}.

Lemma volatility_at_zero_examples :
  TickerInfo.getVolatility (ticker_with_range 2 1 0) = infinity
  /\ TickerInfo.getVolatility (ticker_with_range 1 2 0) = neg_infinity
  /\ TickerInfo.getVolatility (ticker_with_range 1 1 0) = nan
  /\ TickerInfo.getVolatility (ticker_with_range 2 1 (-0)) = neg_infinity.
Proof. repeat split; reflexivity. Qed.

(** C6, as stated, fails: there is no single value that [getVolatility]
    returns for every ticker whose last price is zero. *)
Lemma volatility_has_no_sentinel :
  ~ (exists sentinel : float,
       forall t : TickerInfo.t,
         TickerInfo.last_price t = 0%float ->
         TickerInfo.getVolatility t = sentinel).
Proof.
  intros [sentinel H].
  pose proof (H (ticker_with_range 2 1 0) eq_refl) as H1.
  pose proof (H (ticker_with_range 1 1 0) eq_refl) as H2.
  destruct volatility_at_zero_examples as (E1 & _ & E2 & _).
  rewrite E1 in H1. rewrite E2 in H2. subst sentinel.
  apply (f_equal Prim2SF) in H2. vm_compute in H2. discriminate.
Qed.

(** C6, amended: in IEEE-754 arithmetic the division does not trap, and
    [getVolatility] has a value for every ticker; with a last price of zero
    that value is an infinity when [high_24h - low_24h] is a non-zero number
    (plus infinity for a positive difference over [+0], minus infinity for a
    negative one) and NaN when the difference is zero or NaN.  The function
    has no guard and no single sentinel. *)
Theorem volatility_at_zero_last_price (t : TickerInfo.t) :
  Double.is_zero (TickerInfo.last_price t) = true ->
  let range := (TickerInfo.high_24h t - TickerInfo.low_24h t)%float in
  (Double.is_nan range || Double.is_zero range = true ->
   TickerInfo.getVolatility t = nan)
  /\ (Double.is_nan range || Double.is_zero range = false ->
      Double.is_infinity (TickerInfo.getVolatility t) = true)
  /\ (TickerInfo.last_price t = 0%float -> Double.lt 0 range = true ->
      TickerInfo.getVolatility t = infinity)
  /\ (TickerInfo.last_price t = 0%float -> Double.lt range 0 = true ->
      TickerInfo.getVolatility t = neg_infinity).
Proof.
  intros Hzero range.
  unfold TickerInfo.getVolatility, Double.is_nan, Double.is_zero,
    Double.is_infinity, Double.lt in *.
  fold range.
  destruct (SF64div_by_zero (Prim2SF range) _ Hzero) as [Hnan Hinf].
  split; [|split; [|split]].
  - intros H. apply Prim2SF_inj. rewrite div_spec, (Hnan H). reflexivity.
  - intros H. rewrite div_spec. exact (Hinf H).
  - intros Hlp Hpos. apply Prim2SF_inj. rewrite div_spec, Hlp.
    rewrite ltb_spec in Hpos.
    exact (proj1 (SF64div_by_positive_zero (Prim2SF range)) Hpos).
  - intros Hlp Hneg. apply Prim2SF_inj. rewrite div_spec, Hlp.
    rewrite ltb_spec in Hneg.
    exact (proj2 (SF64div_by_positive_zero (Prim2SF range)) Hneg).
Qed.

Lemma volatility_at_zero_last_price_witness :
  Double.is_zero (TickerInfo.last_price (ticker_with_range 2 1 0)) = true
  /\ TickerInfo.getVolatility (ticker_with_range 2 1 0) = infinity.
Proof.
  split; [reflexivity|].
  destruct (volatility_at_zero_last_price (ticker_with_range 2 1 0) eq_refl)
    as (_ & _ & Hpos & _).
  apply Hpos; reflexivity.
Defined.

(** The two filters that read the volatility treat a zero last price
    differently: the Volatility filter, with its default band, drops the pair
    whatever the range; the Volume filter ranking by volatility keeps it
    unless the range is negative. *)
Example zero_last_price_in_the_filters :
  VolatilityFilter.filter VolatilityFilter.make ["A"]
    {["A" := ticker_with_range 2 1 0]} = Ok []
  /\ VolatilityFilter.filter VolatilityFilter.make ["A"]
       {["A" := ticker_with_range 1 1 0]} = Ok []
  /\ VolumePairListFilter.filter (H := insertion_std) by_volatility_top2 ["A"]
       {["A" := ticker_with_range 2 1 0]} = Ok ["A"]
  /\ VolumePairListFilter.filter (H := insertion_std) by_volatility_top2 ["A"]
       {["A" := ticker_with_range 1 1 0]} = Ok ["A"]
  /\ VolumePairListFilter.filter (H := insertion_std) by_volatility_top2 ["A"]
       {["A" := ticker_with_range 1 2 0]} = Ok [].
Proof. repeat split; vm_compute; reflexivity. Qed.

(** ** The Offset filter *)

(** The window the specification describes: skip the first [k], keep the next
    [n], or the rest when [n = 0]. *)
Definition window {A} (k n : nat) (l : list A) : list A :=
  match n with
  | O => drop k l
  | _ => take n (drop k l)
  end.

Section OffsetFilter.

Variables (self : OffsetFilter.t) (pairs : list string) (tickers : tickers_map).
Hypothesis size_fits : Z.of_nat (length pairs) <= INT_MAX.

Lemma offset_start_eq :
  OffsetFilter.start_of self pairs
  = Z.min (OffsetFilter.offset_ self) (Z.of_nat (length pairs)).
Proof. unfold OffsetFilter.start_of. by rewrite size_as_int_exact. Qed.

(** Without overflow in [start + number_assets_], the filter returns the
    window. *)
Lemma offset_filter_window :
  0 <= OffsetFilter.offset_ self ->
  0 <= OffsetFilter.number_assets_ self ->
  OffsetFilter.start_of self pairs + OffsetFilter.number_assets_ self <= INT_MAX ->
  OffsetFilter.filter self pairs tickers
  = Ok (window (Z.to_nat (OffsetFilter.offset_ self))
               (Z.to_nat (OffsetFilter.number_assets_ self)) pairs).
Proof.
  intros Hk Hn Hsum. unfold OffsetFilter.filter, OffsetFilter.end_of.
  pose proof offset_start_eq as Hstart.
  set (start := OffsetFilter.start_of self pairs) in *.
  rewrite (size_as_int_exact pairs size_fits).
  assert (Hdrop : drop (Z.to_nat start) pairs
                  = drop (Z.to_nat (OffsetFilter.offset_ self)) pairs).
  { destruct (Z.le_gt_cases (OffsetFilter.offset_ self) (Z.of_nat (length pairs))).
    - by replace start with (OffsetFilter.offset_ self) by lia.
    - rewrite !drop_ge by lia. reflexivity. }
  destruct (0 <? OffsetFilter.number_assets_ self) eqn:Hpos.
  - apply Z.ltb_lt in Hpos.
    unfold int_add. rewrite wrap_int_id by (unfold in_int, INT_MIN, INT_MAX in *; lia).
    rewrite push_back_range_slice by lia. f_equal.
    rewrite Hdrop. unfold window.
    destruct (Z.to_nat (OffsetFilter.number_assets_ self)) as [|n] eqn:En; [lia|].
    rewrite <- En.
    set (rest := drop _ pairs).
    assert (Hlen : (length rest = length pairs - Z.to_nat start)%nat).
    { unfold rest. rewrite <- Hdrop. apply length_drop. }
    destruct (Z.le_gt_cases (start + OffsetFilter.number_assets_ self)
                (Z.of_nat (length pairs))).
    + f_equal. lia.
    + rewrite !take_ge by lia. reflexivity.
  - apply Z.ltb_ge in Hpos.
    rewrite push_back_range_slice by lia. f_equal.
    rewrite Hdrop. replace (OffsetFilter.number_assets_ self) with 0 by lia.
    simpl. apply take_ge. rewrite <- Hdrop, length_drop. lia.
Qed.

(** A negative offset makes the loop start at a negative index: the first
    read is out of bounds, whatever the list and [number_assets_]. *)
Lemma offset_filter_negative_offset :
  INT_MIN <= OffsetFilter.offset_ self < 0 ->
  in_int (OffsetFilter.number_assets_ self) ->
  OffsetFilter.filter self pairs tickers
  = Undefined (out_of_bounds_read (OffsetFilter.offset_ self) (length pairs)).
Proof.
  intros Hk Hn. unfold OffsetFilter.filter, OffsetFilter.end_of.
  pose proof offset_start_eq as Hstart.
  set (start := OffsetFilter.start_of self pairs) in *.
  rewrite (size_as_int_exact pairs size_fits).
  assert (Hs : start = OffsetFilter.offset_ self) by lia.
  unfold in_int, INT_MIN, INT_MAX in *.
  destruct (0 <? OffsetFilter.number_assets_ self) eqn:Hpos.
  - apply Z.ltb_lt in Hpos.
    unfold int_add. rewrite wrap_int_id by (unfold in_int, INT_MIN, INT_MAX; lia).
    rewrite push_back_range_negative by lia. by rewrite Hs.
  - rewrite push_back_range_negative by lia. by rewrite Hs.
Qed.

End OffsetFilter.

Example offset_2_count_3_of_8 :
  OffsetFilter.filter {| OffsetFilter.offset_ := 2; OffsetFilter.number_assets_ := 3 |}
    ["p0"; "p1"; "p2"; "p3"; "p4"; "p5"; "p6"; "p7"] ∅
  = Ok ["p2"; "p3"; "p4"].
Proof. vm_compute. reflexivity. Qed.

Example offset_2_rest_of_8 :
  OffsetFilter.filter {| OffsetFilter.offset_ := 2; OffsetFilter.number_assets_ := 0 |}
    ["p0"; "p1"; "p2"; "p3"; "p4"; "p5"; "p6"; "p7"] ∅
  = Ok ["p2"; "p3"; "p4"; "p5"; "p6"; "p7"].
Proof. vm_compute. reflexivity. Qed.

Definition skip_one_keep_all : Json.json :=
  Json.object [("method", Json.string_ "OffsetFilter");
               ("offset", Json.number_integer 1);
               ("number_assets", Json.number_integer 2147483647)].

Definition skip_minus_one : Json.json :=
  Json.object [("method", Json.string_ "OffsetFilter");
               ("offset", Json.number_integer (-1))].

(** C7 at [offset = 1, number_assets = INT_MAX]: the configuration is
    accepted; [start + number_assets_] leaves the range of [int], the sum
    wraps to a negative [end], the loop does not run and the result is empty,
    where the window of the specification is [B]. *)
Theorem offset_filter_overflow :
  OffsetFilter.configure OffsetFilter.make skip_one_keep_all
  = Ok {| OffsetFilter.offset_ := 1; OffsetFilter.number_assets_ := INT_MAX |}
  /\ OffsetFilter.filter
       {| OffsetFilter.offset_ := 1; OffsetFilter.number_assets_ := INT_MAX |}
       ["A"; "B"] ∅ = Ok []
  /\ window 1 (Z.to_nat INT_MAX) ["A"; "B"] = ["B"].
Proof.
  split; [vm_compute; reflexivity|]. split; [vm_compute; reflexivity|].
  unfold window, INT_MAX.
  destruct (Z.to_nat 2147483647) as [|n] eqn:E; [lia|].
  rewrite take_ge; [reflexivity|]. simpl. lia.
Qed.

(** C9 at [offset = -1]: the configuration is accepted, and on the list [A]
    the loop starts at index [-1]: the first read is outside the vector. *)
Theorem offset_filter_negative_offset_reads_out_of_bounds :
  OffsetFilter.configure OffsetFilter.make skip_minus_one
  = Ok {| OffsetFilter.offset_ := -1; OffsetFilter.number_assets_ := 0 |}
  /\ OffsetFilter.filter
       {| OffsetFilter.offset_ := -1; OffsetFilter.number_assets_ := 0 |}
       ["A"] ∅ = Undefined (out_of_bounds_read (-1) 1).
Proof. split; vm_compute; reflexivity. Qed.

(** ** The manager: [refresh] *)

Section Refresh.

Context {S : StdAlgorithms}.

Lemma apply_filters_nil_pairs filters amb k tickers n :
  PairListManager.apply_filters filters amb k tickers [] n = Ok ([], n).
Proof. destruct filters; reflexivity. Qed.

Lemma apply_filters_cons filter rest amb k tickers p ws n :
  PairListManager.apply_filters (filter :: rest) amb k tickers (p :: ws) n
  = (out ← PairFilterOps.filter filter (amb k) (p :: ws) tickers;
     PairListManager.apply_filters rest amb (Datatypes.S k) tickers out (int_add n 1)).
Proof. reflexivity. Qed.

(** Running a chain is running its first part, then the rest on what the
    first part leaves. *)
Lemma apply_filters_app before after amb k tickers pairs n :
  PairListManager.apply_filters (before ++ after) amb k tickers pairs n
  = ('(ws, n') ← PairListManager.apply_filters before amb k tickers pairs n;
     PairListManager.apply_filters after amb (k + length before) tickers ws n').
Proof.
  revert k pairs n. induction before as [|f before IH]; intros k pairs n.
  - simpl. by rewrite Nat.add_0_r.
  - destruct pairs as [|p pairs].
    + simpl. by rewrite apply_filters_nil_pairs.
    + rewrite <- app_comm_cons, !apply_filters_cons.
      destruct (PairFilterOps.filter f (amb k) (p :: pairs) tickers) as [out| |];
        simpl; [|reflexivity..].
      rewrite IH. by replace (Datatypes.S k + length before)%nat
                        with (k + Datatypes.S (length before))%nat by lia.
Qed.

Lemma wrap_int_wrap_add a b : wrap_int (wrap_int a + b) = wrap_int (a + b).
Proof.
  unfold wrap_int. f_equal.
  replace ((a + 2147483648) mod 4294967296 - 2147483648 + b + 2147483648)
    with ((a + 2147483648) mod 4294967296 + b) by lia.
  rewrite Zplus_mod_idemp_l. f_equal. lia.
Qed.

(** A chain that ends with a non-empty working set has run every filter:
    the counter has advanced, on [int], by the length of the chain. *)
Lemma apply_filters_all_ran filters amb k tickers pairs n ws n' :
  PairListManager.apply_filters filters amb k tickers pairs n = Ok (ws, n') ->
  ws <> [] -> wrap_int n' = wrap_int (n + Z.of_nat (length filters)).
Proof.
  revert k pairs n. induction filters as [|f filters IH]; intros k pairs n.
  - simpl. intros [= <- <-] _. f_equal. lia.
  - destruct pairs as [|p pairs]; [simpl; by intros [= <- <-]|].
    rewrite apply_filters_cons.
    destruct (PairFilterOps.filter f (amb k) (p :: pairs) tickers) as [out| |];
      simpl; [|discriminate..].
    intros H Hne. rewrite (IH _ _ _ H Hne). unfold int_add.
    rewrite wrap_int_wrap_add. f_equal. simpl length. lia.
Qed.

(** The seed of a run: the active symbols of the market provider's list. *)
Definition seed_pairs (self : PairListManager.t) : list string :=
  match PairListManager.market_provider_ self with
  | Some markets => PairListManager.active_pairs markets
  | None => []
  end.

Definition run_tickers (self : PairListManager.t) : tickers_map :=
  match PairListManager.ticker_provider_ self with
  | Some tickers => tickers
  | None => ∅
  end.

Lemma refresh_no_pairs self amb :
  seed_pairs self = [] -> PairListManager.refresh self amb = Ok self.
Proof.
  unfold PairListManager.refresh, seed_pairs. intros H. by rewrite H.
Qed.

Lemma refresh_with_pairs self amb :
  seed_pairs self <> [] ->
  PairListManager.refresh self amb
  = ('(filtered_pairs, filter_count) ←
       PairListManager.apply_filters (PairListManager.filters_ self) amb 0
         (run_tickers self) (seed_pairs self) (PairListManager.filter_count_ self);
     Ok {| PairListManager.pairs_ := filtered_pairs;
           PairListManager.filters_ := PairListManager.filters_ self;
           PairListManager.market_provider_ := PairListManager.market_provider_ self;
           PairListManager.ticker_provider_ := PairListManager.ticker_provider_ self;
           PairListManager.refresh_interval_ := PairListManager.refresh_interval_ self;
           PairListManager.refresh_count_ :=
             int_add (PairListManager.refresh_count_ self) 1;
           PairListManager.filter_count_ := filter_count;
           PairListManager.last_refresh_time_ :=
             system_clock_now (amb (length (PairListManager.filters_ self))) |}).
Proof.
  unfold PairListManager.refresh, seed_pairs, run_tickers. intros H.
  destruct (match PairListManager.market_provider_ self with
            | Some markets => PairListManager.active_pairs markets
            | None => []
            end); [congruence|reflexivity].
Qed.

Lemma active_pairs_none markets :
  (forall market, market ∈ markets -> MarketInfo.active market = false) ->
  PairListManager.active_pairs markets = [].
Proof.
  intros H. unfold PairListManager.active_pairs.
  induction markets as [|m markets IH]; [reflexivity|].
  rewrite filter_cons. destruct (decide _) as [Hact|_].
  - rewrite (H m) in Hact by (by left). discriminate.
  - apply IH. intros market Hm. apply H. by right.
Qed.

End Refresh.

(** C2: when the manager has no market provider, or the provider's list is
    empty or holds no active market, [refresh] returns and leaves the manager
    as it was; in particular [getPairs] afterwards is [getPairs] before. *)
Theorem refresh_without_pairs_keeps_published_list
    (S : StdAlgorithms) (self : PairListManager.t) (amb : nat -> Ambient) :
  (PairListManager.market_provider_ self = None
   \/ exists markets,
        PairListManager.market_provider_ self = Some markets
        /\ forall market, market ∈ markets -> MarketInfo.active market = false) ->
  exists self',
    PairListManager.refresh self amb = Ok self'
    /\ PairListManager.getPairs self' = PairListManager.getPairs self
    /\ self' = self.
Proof.
  intros H. exists self. split; [|auto].
  apply refresh_no_pairs. unfold seed_pairs.
  destruct H as [->|(markets & -> & Hnone)]; [reflexivity|].
  by apply active_pairs_none.
Qed.

Definition inactive (market : MarketInfo.t) : MarketInfo.t :=
  {| MarketInfo.symbol := MarketInfo.symbol market;
     MarketInfo.base := MarketInfo.base market;
     MarketInfo.quote := MarketInfo.quote market;
     MarketInfo.type := MarketInfo.type market;
     MarketInfo.active := false;
     MarketInfo.min_amount := MarketInfo.min_amount market;
     MarketInfo.max_amount := MarketInfo.max_amount market;
     MarketInfo.min_price := MarketInfo.min_price market;
     MarketInfo.max_price := MarketInfo.max_price market;
     MarketInfo.min_cost := MarketInfo.min_cost market;
     MarketInfo.amount_precision := MarketInfo.amount_precision market;
     MarketInfo.price_precision := MarketInfo.price_precision market;
     MarketInfo.maker_fee := MarketInfo.maker_fee market;
     MarketInfo.taker_fee := MarketInfo.taker_fee market;
     MarketInfo.listed_date := MarketInfo.listed_date market;
     MarketInfo.market_cap := MarketInfo.market_cap market;
     MarketInfo.market_cap_rank := MarketInfo.market_cap_rank market |}.

(** A manager that has published [published], with the given chain and
    providers. *)
Definition manager_with (published : list string) (chain : list PairFilter)
    (markets : option (list MarketInfo.t)) (tickers : option tickers_map)
  : PairListManager.t :=
  {| PairListManager.pairs_ := published;
     PairListManager.filters_ := chain;
     PairListManager.market_provider_ := markets;
     PairListManager.ticker_provider_ := tickers;
     PairListManager.refresh_interval_ := 1800;
     PairListManager.refresh_count_ := 1;
     PairListManager.filter_count_ := 0;
     PairListManager.last_refresh_time_ := 0 |}.

Definition still_ambient (k : nat) : Ambient :=
  {| system_clock_now := 0; random_device := 0 |}.

Lemma refresh_without_pairs_keeps_published_list_witness :
  exists self',
    PairListManager.refresh (H := insertion_std)
      (manager_with ["X"; "Y"] [VolumePairList_ VolumePairListFilter.make]
         (Some [inactive (market_with_cap "A" 100 1)]) None)
      still_ambient = Ok self'
    /\ PairListManager.getPairs self' = ["X"; "Y"].
Proof.
  destruct (refresh_without_pairs_keeps_published_list insertion_std
              (manager_with ["X"; "Y"] [VolumePairList_ VolumePairListFilter.make]
                 (Some [inactive (market_with_cap "A" 100 1)]) None)
              still_ambient) as (self' & Hrun & Hpairs & _).
  - right. eexists. split; [reflexivity|].
    intros market Hm. apply list_elem_of_singleton in Hm. by subst market.
  - exists self'. split; assumption.
Defined.

(** C10: once a filter of the chain returns the empty list, [refresh]
    publishes the empty list and the execution counter (an [int] whose
    increment wraps around) has advanced by the filters run so far only:
    whatever follows in the chain, a [ProducerPairList] included, is not
    invoked. *)
Theorem refresh_stops_at_empty_working_set
    (S : StdAlgorithms) (self : PairListManager.t) (amb : nat -> Ambient)
    (before after : list PairFilter) (f : PairFilter)
    (ws : list string) (n : Z) :
  PairListManager.filters_ self = before ++ f :: after ->
  PairListManager.apply_filters before amb 0 (run_tickers self) (seed_pairs self)
    (PairListManager.filter_count_ self) = Ok (ws, n) ->
  ws <> [] ->
  PairFilterOps.filter f (amb (length before)) ws (run_tickers self) = Ok [] ->
  exists self',
    PairListManager.refresh self amb = Ok self'
    /\ PairListManager.getPairs self' = []
    /\ PairListManager.filter_count_ self'
       = wrap_int (PairListManager.filter_count_ self + Z.of_nat (length before) + 1).
Proof.
  intros Hchain Hbefore Hne Hempty.
  assert (Hseed : seed_pairs self <> []).
  { intros Hnil. rewrite Hnil, apply_filters_nil_pairs in Hbefore.
    inversion Hbefore; subst. congruence. }
  pose proof (apply_filters_all_ran _ _ _ _ _ _ _ _ Hbefore Hne) as Hn.
  rewrite (refresh_with_pairs self amb Hseed), Hchain, apply_filters_app, Hbefore.
  destruct ws as [|p ws]; [congruence|].
  rewrite bind_Ok. cbv beta iota. rewrite Nat.add_0_l.
  rewrite apply_filters_cons, Hempty, bind_Ok, apply_filters_nil_pairs, bind_Ok.
  eexists. split; [reflexivity|]. split; [reflexivity|]. simpl.
  unfold int_add. by rewrite <- wrap_int_wrap_add, Hn, wrap_int_wrap_add.
Qed.

Definition producer_of (remote : list string) : PairFilter :=
  ProducerPairList_ {| ProducerPairList.remote_provider_ := Some remote;
                       ProducerPairList.producer_name_ := "primary" |}.

Definition blacklist_of (symbols : list string) : PairFilter :=
  BlacklistFilter_ {| BlacklistFilter.blacklist_ := symbols |}.

Lemma refresh_stops_at_empty_working_set_witness :
  exists self',
    PairListManager.refresh (H := insertion_std)
      (manager_with ["OLD"] [blacklist_of ["A"]; producer_of ["X"; "Y"]]
         (Some [market_with_cap "A" 100 1]) None)
      still_ambient = Ok self'
    /\ PairListManager.getPairs self' = []
    /\ PairListManager.filter_count_ self' = 1.
Proof.
  exact (refresh_stops_at_empty_working_set insertion_std
           (manager_with ["OLD"] [blacklist_of ["A"]; producer_of ["X"; "Y"]]
              (Some [market_with_cap "A" 100 1]) None)
           still_ambient [] [producer_of ["X"; "Y"]] (blacklist_of ["A"])
           ["A"] 0 eq_refl eq_refl ltac:(discriminate) eq_refl).
Defined.

(** A filter that is not reached cannot fail either: an Offset filter with
    a negative offset reads out of bounds when it runs, and is harmless
    behind a filter that empties the working set. *)
Example unreached_filter_is_not_run :
  PairListManager.getPairs <$>
    PairListManager.refresh (H := insertion_std)
      (manager_with ["OLD"]
         [blacklist_of ["A"];
          OffsetFilter_ {| OffsetFilter.offset_ := -1; OffsetFilter.number_assets_ := 0 |}]
         (Some [market_with_cap "A" 100 1]) None)
      still_ambient
  = Ok []
  /\ PairListManager.refresh (H := insertion_std)
       (manager_with ["OLD"]
          [OffsetFilter_ {| OffsetFilter.offset_ := -1; OffsetFilter.number_assets_ := 0 |}]
          (Some [market_with_cap "A" 100 1]) None)
       still_ambient
     = Undefined (out_of_bounds_read (-1) 1).
Proof. split; vm_compute; reflexivity. Qed.

(** The same chain in the other order substitutes the remote list. *)
Example producer_first_substitutes :
  PairListManager.getPairs <$>
    PairListManager.refresh (H := insertion_std)
      (manager_with ["OLD"] [producer_of ["X"; "Y"]; blacklist_of ["A"]]
         (Some [market_with_cap "A" 100 1]) None)
      still_ambient
  = Ok ["X"; "Y"].
Proof. vm_compute. reflexivity. Qed.

(** ** The manager: [loadFromConfig] *)

Lemma createFromConfig_missing_method config :
  Json.contains config "method" = false ->
  PairFilterFactory.createFromConfig config = Ok None.
Proof. intros H. unfold PairFilterFactory.createFromConfig. by rewrite H. Qed.

Lemma createFromConfig_unknown_method config method :
  Json.contains config "method" = true ->
  Json.at_key config "method" = Json.string_ method ->
  PairFilterFactory.create method = None ->
  PairFilterFactory.createFromConfig config = Ok None.
Proof.
  intros Hc Hm Hnone. unfold PairFilterFactory.createFromConfig.
  rewrite Hc, Hm. simpl. by rewrite Hnone.
Qed.

(** An entry the factory answers with [nullptr] is passed over. *)
Lemma load_filters_skip entry rest chain :
  PairFilterFactory.createFromConfig entry = Ok None ->
  PairListManager.load_filters (entry :: rest) chain
  = PairListManager.load_filters rest chain.
Proof. intros H. simpl. by rewrite H. Qed.

(** An entry on which the factory throws ends the loop: the entries after it
    are not read. *)
Lemma load_filters_throw entry rest chain e :
  PairFilterFactory.createFromConfig entry = Throws e ->
  PairListManager.load_filters (entry :: rest) chain = (chain, Throws e).
Proof. intros H. simpl. by rewrite H. Qed.

Definition entry_unknown_method : Json.json :=
  Json.object [("method", Json.string_ "NoSuchFilter"); ("number_assets", Json.number_integer 5)].

Definition entry_without_method : Json.json :=
  Json.object [("number_assets", Json.number_integer 5)].

Definition entry_spread : Json.json :=
  Json.object [("method", Json.string_ "SpreadFilter")].

Definition entry_offset_2_3 : Json.json :=
  Json.object [("method", Json.string_ "OffsetFilter");
               ("offset", Json.number_integer 2);
               ("number_assets", Json.number_integer 3)].

Definition entry_malformed_option : Json.json :=
  Json.object [("method", Json.string_ "VolumePairList");
               ("number_assets", Json.string_ "ten")].

Definition entry_malformed_method : Json.json :=
  Json.object [("method", Json.number_integer 7)].

Definition config_of (entries : list Json.json) : Json.json :=
  Json.object [("pairlist_filters", Json.array entries)].

Definition fresh_manager : PairListManager.t :=
  manager_with [] [producer_of ["X"]] None None.

(** Unknown and missing method names are passed over and the load goes on. *)
Example loadFromConfig_skips_unknown_and_missing :
  PairListManager.loadFromConfig fresh_manager
    (Json.object
       [("pairlist_filters",
         Json.array [entry_unknown_method; entry_without_method;
                     Json.string_ "not an object"; entry_spread; entry_offset_2_3]);
        ("refresh_period", Json.number_integer 60)])
  = (PairListManager.set_refresh_interval
       (PairListManager.set_filters fresh_manager
          [SpreadFilter_ SpreadFilter.make;
           OffsetFilter_ {| OffsetFilter.offset_ := 2; OffsetFilter.number_assets_ := 3 |}])
       60,
     Ok tt).
Proof. vm_compute. reflexivity. Qed.

(** C5 at a wrong-typed option value: [number_assets] holds a string.
    [get<int>()] throws [type_error]; nothing catches it, so [loadFromConfig]
    ends by that exception, after it has cleared the chain, and the
    well-formed entry that follows is not loaded.  The same happens for a
    [method] that is not a string and for a [refresh_period] that is not a
    number. *)
Theorem loadFromConfig_malformed_option_throws :
  PairListManager.loadFromConfig fresh_manager
    (config_of [entry_malformed_option; entry_spread])
  = (PairListManager.set_filters fresh_manager [],
     Throws (json_type_error
                "[json.exception.type_error.302] type must be number, but is string"))
  /\ PairListManager.loadFromConfig fresh_manager
       (config_of [entry_malformed_method; entry_spread])
     = (PairListManager.set_filters fresh_manager [],
        Throws (json_type_error
                "[json.exception.type_error.302] type must be string, but is number"))
  /\ PairListManager.loadFromConfig fresh_manager
       (Json.object [("pairlist_filters", Json.array [entry_spread]);
                     ("refresh_period", Json.string_ "soon")])
     = (PairListManager.set_filters fresh_manager [SpreadFilter_ SpreadFilter.make],
        Throws (json_type_error
                "[json.exception.type_error.302] type must be number, but is string")).
Proof. repeat split; vm_compute; reflexivity. Qed.

(** ** Duplicate-free working sets *)

Lemma omap_names_sublist {C} (name : C -> string) (candidate : string -> option C)
    (pairs : list string) :
  (forall p c, candidate p = Some c -> name c = p) ->
  (name <$> omap candidate pairs) `sublist_of` pairs.
Proof.
  intros Hname. induction pairs as [|p pairs IH]; simpl; [constructor|].
  destruct (candidate p) as [c|] eqn:E; simpl.
  - rewrite (Hname p c E). by constructor.
  - by constructor.
Qed.

Section RankingNoDup.

Context {S : StdAlgorithms} {conforming : Conforming S} {C : Type}.
Variables (key : C -> float) (name : C -> string).
Variables (candidate : string -> option C) (pairs : list string) (n : nat).
Hypothesis names : forall p c, candidate p = Some c -> name c = p.
Hypothesis keys_are_numbers :
  forall c, c ∈ omap candidate pairs -> Double.is_nan (key c) = false.

Let sorted : list C :=
  std_sort (fun a b => Double.gt (key a) (key b)) (omap candidate pairs).

Lemma ranking_names_perm : name <$> omap candidate pairs ≡ₚ name <$> sorted.
Proof. apply fmap_Permutation, (ranking_perm key), keys_are_numbers. Qed.

Lemma ranking_nodup : NoDup pairs -> NoDup (name <$> take n sorted).
Proof.
  intros Hnd. rewrite fmap_take.
  apply (sublist_NoDup _ (name <$> sorted)); [|apply sublist_take].
  rewrite <- ranking_names_perm.
  eapply sublist_NoDup; [eassumption|apply omap_names_sublist, names].
Qed.

Lemma ranking_length_le_input :
  (length (name <$> take n sorted) <= length pairs)%nat.
Proof.
  rewrite fmap_take, length_take, <- ranking_names_perm.
  pose proof (sublist_length _ _ (omap_names_sublist name candidate pairs names)).
  lia.
Qed.

End RankingNoDup.

(** What each filter needs for its output to be defined and duplicate-free:
    a remote list without duplicates, a non-negative offset, and metrics that
    are numbers ([std::sort] promises nothing otherwise). *)
Definition filter_ok (tickers : tickers_map) (f : PairFilter) : Prop :=
  match f with
  | ProducerPairList_ p =>
      forall remote, ProducerPairList.remote_provider_ p = Some remote ->
        NoDup remote /\ Z.of_nat (length remote) <= INT_MAX
  | OffsetFilter_ o => 0 <= OffsetFilter.offset_ o
  | VolumePairList_ v =>
      forall p x, volume_metric v tickers p = Some x -> Double.is_nan x = false
  | MarketCapPairList_ m =>
      forall markets, MarketCapPairList.market_provider_ m = Some markets ->
        forall p x, marketcap_metric markets p = Some x -> Double.is_nan x = false
  | _ => True
  end.

Definition duplicate_free (ws : list string) : Prop :=
  NoDup ws /\ Z.of_nat (length ws) <= INT_MAX.

Lemma duplicate_free_sublist ws ws' :
  ws' `sublist_of` ws -> duplicate_free ws -> duplicate_free ws'.
Proof.
  intros Hsub [Hnd Hlen]. split; [by apply (sublist_NoDup _ ws)|].
  apply sublist_length in Hsub. lia.
Qed.

Lemma duplicate_free_filter (P : string -> Prop) `{!forall p, Decision (P p)} ws :
  duplicate_free ws -> duplicate_free (filter P ws).
Proof. apply duplicate_free_sublist, sublist_filter. Qed.

Section FilterKeepsNoDup.

Context {S : StdAlgorithms} {conforming : Conforming S}.
Variables (tickers : tickers_map) (amb : Ambient) (ws : list string).
Hypothesis ws_ok : duplicate_free ws.

Lemma static_keeps_nodup f :
  exists out, StaticPairListFilter.filter f ws tickers = Ok out /\ duplicate_free out.
Proof.
  unfold StaticPairListFilter.filter.
  destruct (StaticPairListFilter.whitelist_ f); eexists; (split; [reflexivity|]);
    [assumption|by apply duplicate_free_filter].
Qed.

Lemma blacklist_keeps_nodup f :
  exists out, BlacklistFilter.filter f ws tickers = Ok out /\ duplicate_free out.
Proof.
  unfold BlacklistFilter.filter.
  destruct (BlacklistFilter.blacklist_ f); eexists; (split; [reflexivity|]);
    [assumption|by apply duplicate_free_filter].
Qed.

Lemma volume_keeps_nodup f :
  filter_ok tickers (VolumePairList_ f) ->
  exists out, VolumePairListFilter.filter f ws tickers = Ok out /\ duplicate_free out.
Proof.
  intros Hok. simpl in Hok. destruct ws_ok as [Hnd Hlen].
  eexists. split; [apply volume_filter_eq|].
  assert (Hnames : forall p c, VolumePairListFilter.candidate f tickers p = Some c ->
                     VolumePairListFilter.pair c = p).
  { intros p c Hc. by destruct (volume_candidate_inv f tickers p c Hc). }
  assert (Hnum : forall c, c ∈ omap (VolumePairListFilter.candidate f tickers) ws ->
                   Double.is_nan (VolumePairListFilter.value c) = false).
  { intros c Hc. destruct (volume_candidates_inv f ws tickers c Hc) as (_ & Hm & _).
    by apply (Hok _ _ Hm). }
  split.
  - by apply (ranking_nodup VolumePairListFilter.value).
  - pose proof (ranking_length_le_input VolumePairListFilter.value
                  VolumePairListFilter.pair _ ws
                  (Z.to_nat (Z.min (VolumePairListFilter.number_assets_ f)
                     (size_as_int (std_sort VolumePairListFilter.by_value_desc
                        (omap (VolumePairListFilter.candidate f tickers) ws)))))
                  Hnames Hnum) as Hle.
    unfold VolumePairListFilter.by_value_desc in *. lia.
Qed.

Lemma marketcap_keeps_nodup f :
  filter_ok tickers (MarketCapPairList_ f) ->
  exists out, MarketCapPairList.filter f ws tickers = Ok out /\ duplicate_free out.
Proof.
  intros Hok. simpl in Hok. destruct ws_ok as [Hnd Hlen].
  destruct (MarketCapPairList.market_provider_ f) as [markets|] eqn:Hprov.
  2: { exists ws. unfold MarketCapPairList.filter. rewrite Hprov. by split. }
  specialize (Hok markets eq_refl).
  eexists. split; [by apply marketcap_filter_eq|].
  assert (Hnames : forall p c,
             MarketCapPairList.candidate f (market_map_of markets) p = Some c ->
             MarketCapPairList.pair c = p).
  { intros p c Hc. by destruct (marketcap_candidate_inv f markets p c Hc). }
  assert (Hnum : forall c,
             c ∈ omap (MarketCapPairList.candidate f (market_map_of markets)) ws ->
             Double.is_nan (MarketCapPairList.market_cap c) = false).
  { intros c Hc.
    destruct (marketcap_candidates_inv f ws markets c Hc) as (_ & Hm & _).
    by apply (Hok _ _ Hm). }
  split.
  - by apply (ranking_nodup MarketCapPairList.market_cap).
  - pose proof (ranking_length_le_input MarketCapPairList.market_cap
                  MarketCapPairList.pair _ ws
                  (Z.to_nat (Z.min (MarketCapPairList.number_assets_ f)
                     (size_as_int (std_sort MarketCapPairList.by_cap_desc
                        (omap (MarketCapPairList.candidate f (market_map_of markets)) ws)))))
                  Hnames Hnum) as Hle.
    unfold MarketCapPairList.by_cap_desc in *. lia.
Qed.

Lemma offset_keeps_nodup f :
  filter_ok tickers (OffsetFilter_ f) ->
  exists out, OffsetFilter.filter f ws tickers = Ok out /\ duplicate_free out.
Proof.
  intros Hok. simpl in Hok. destruct ws_ok as [Hnd Hlen].
  unfold OffsetFilter.filter.
  assert (Hstart : 0 <= OffsetFilter.start_of f ws).
  { rewrite (offset_start_eq f ws Hlen). lia. }
  assert (Hend : OffsetFilter.end_of f ws <= Z.of_nat (length ws)).
  { unfold OffsetFilter.end_of. rewrite (size_as_int_exact ws Hlen).
    destruct (0 <? _); lia. }
  rewrite push_back_range_slice by assumption.
  eexists. split; [reflexivity|].
  apply (duplicate_free_sublist ws); [|by split].
  etrans; [apply sublist_take|apply sublist_drop].
Qed.

Lemma shuffle_keeps_nodup f :
  exists out, ShuffleFilter.filter f amb ws tickers = Ok out /\ duplicate_free out.
Proof.
  destruct ws_ok as [Hnd Hlen]. unfold ShuffleFilter.filter.
  destruct (_ =? 0); eexists; (split; [reflexivity|]); split.
  all: by rewrite <- std_shuffle_permutation.
Qed.

Lemma producer_keeps_nodup f :
  filter_ok tickers (ProducerPairList_ f) ->
  exists out, ProducerPairList.filter f ws tickers = Ok out /\ duplicate_free out.
Proof.
  intros Hok. simpl in Hok. unfold ProducerPairList.filter.
  destruct (ProducerPairList.remote_provider_ f) as [remote|].
  - exists remote. split; [reflexivity|]. by apply Hok.
  - exists []. split; [reflexivity|]. split; [constructor|]. simpl. unfold INT_MAX. lia.
Qed.

(** Every filter, on a duplicate-free working set, returns a duplicate-free
    working set. *)
Lemma filter_keeps_nodup f :
  filter_ok tickers f ->
  exists out, PairFilterOps.filter f amb ws tickers = Ok out /\ duplicate_free out.
Proof.
  intros Hok. destruct f as [f|f|f|f|f|f|f|f|f|f|f|f]; simpl.
  - apply static_keeps_nodup.
  - by apply volume_keeps_nodup.
  - eexists. split; [reflexivity|]. by apply duplicate_free_filter.
  - apply blacklist_keeps_nodup.
  - eexists. split; [reflexivity|]. by apply duplicate_free_filter.
  - eexists. split; [reflexivity|]. by apply duplicate_free_filter.
  - unfold AgeFilter.filter. destruct (AgeFilter.market_provider_ f);
      eexists; (split; [reflexivity|]); [by apply duplicate_free_filter|assumption].
  - by apply offset_keeps_nodup.
  - apply shuffle_keeps_nodup.
  - unfold PerformanceFilter.filter. destruct (PerformanceFilter.performance_provider_ f);
      eexists; (split; [reflexivity|]); [by apply duplicate_free_filter|assumption].
  - by apply producer_keeps_nodup.
  - by apply marketcap_keeps_nodup.
Qed.

End FilterKeepsNoDup.

Section ChainKeepsNoDup.

Context {S : StdAlgorithms} {conforming : Conforming S}.
Variables (tickers : tickers_map) (amb : nat -> Ambient).

Lemma apply_filters_keeps_nodup filters k ws n :
  (forall f, f ∈ filters -> filter_ok tickers f) ->
  duplicate_free ws ->
  exists out n',
    PairListManager.apply_filters filters amb k tickers ws n = Ok (out, n')
    /\ duplicate_free out.
Proof.
  revert k ws n. induction filters as [|f filters IH]; intros k ws n Hok Hws.
  - exists ws, n. by split.
  - destruct ws as [|p ws]; [exists [], n; by split|].
    destruct (filter_keeps_nodup tickers (amb k) (p :: ws) Hws f
                (Hok f ltac:(by left))) as (out & Hout & Hnd).
    rewrite apply_filters_cons, Hout, bind_Ok.
    apply IH; [|assumption]. intros g Hg. apply Hok. by right.
Qed.

End ChainKeepsNoDup.

(** The same market with another instrument class. *)
Definition as_futures (market : MarketInfo.t) : MarketInfo.t :=
  {| MarketInfo.symbol := MarketInfo.symbol market;
     MarketInfo.base := MarketInfo.base market;
     MarketInfo.quote := MarketInfo.quote market;
     MarketInfo.type := Futures;
     MarketInfo.active := MarketInfo.active market;
     MarketInfo.min_amount := MarketInfo.min_amount market;
     MarketInfo.max_amount := MarketInfo.max_amount market;
     MarketInfo.min_price := MarketInfo.min_price market;
     MarketInfo.max_price := MarketInfo.max_price market;
     MarketInfo.min_cost := MarketInfo.min_cost market;
     MarketInfo.amount_precision := MarketInfo.amount_precision market;
     MarketInfo.price_precision := MarketInfo.price_precision market;
     MarketInfo.maker_fee := MarketInfo.maker_fee market;
     MarketInfo.taker_fee := MarketInfo.taker_fee market;
     MarketInfo.listed_date := MarketInfo.listed_date market;
     MarketInfo.market_cap := MarketInfo.market_cap market;
     MarketInfo.market_cap_rank := MarketInfo.market_cap_rank market |}.

(** A symbol listed twice, as a spot and as a futures market. *)
Definition duplicated_listing : list MarketInfo.t :=
  [market_with_cap "A" 100 1; as_futures (market_with_cap "A" 100 1)].

Lemma duplicated_listing_is_published :
  PairListManager.getPairs <$>
    PairListManager.refresh (H := insertion_std)
      (manager_with [] [] (Some duplicated_listing) None) still_ambient
  = Ok ["A"; "A"].
Proof. vm_compute. reflexivity. Qed.

Lemma duplicated_remote_list_is_published :
  seed_pairs (manager_with [] [producer_of ["X"; "X"]]
                (Some [market_with_cap "A" 100 1]) None) = ["A"]
  /\ PairListManager.getPairs <$>
       PairListManager.refresh (H := insertion_std)
         (manager_with [] [producer_of ["X"; "X"]]
            (Some [market_with_cap "A" 100 1]) None) still_ambient
     = Ok ["X"; "X"].
Proof. split; vm_compute; reflexivity. Qed.

(** C8, as stated, fails: nothing removes duplicates.  A market list that
    names a symbol twice seeds the working set with it twice, and a remote
    list with a repeated symbol is published as it is. *)
Lemma working_set_can_hold_duplicates :
  ~ (forall (S : StdAlgorithms) (self : PairListManager.t) (amb : nat -> Ambient)
            (self' : PairListManager.t),
       Conforming S ->
       PairListManager.refresh self amb = Ok self' ->
       NoDup (seed_pairs self) /\ NoDup (PairListManager.getPairs self'))
  /\ ~ (forall (S : StdAlgorithms) (self : PairListManager.t) (amb : nat -> Ambient)
               (self' : PairListManager.t),
          Conforming S ->
          NoDup (seed_pairs self) ->
          PairListManager.refresh self amb = Ok self' ->
          NoDup (PairListManager.getPairs self')).
Proof.
  assert (Hdup : forall x : string, ~ NoDup [x; x]).
  { intros x Hnd. apply NoDup_cons in Hnd as [Hnotin _]. apply Hnotin. by left. }
  split; intros claim.
  - pose proof duplicated_listing_is_published as Hrun.
    destruct (PairListManager.refresh _ _) as [self'| |] eqn:E; try discriminate.
    destruct (claim insertion_std _ _ _ _ E) as [_ Hnd].
    rewrite fmap_Ok in Hrun. injection Hrun as Hrun. rewrite Hrun in Hnd.
    exact (Hdup "A" Hnd).
  - destruct duplicated_remote_list_is_published as [Hseed Hrun].
    destruct (PairListManager.refresh _ _) as [self'| |] eqn:E; try discriminate.
    assert (Hnd : NoDup (PairListManager.getPairs self')).
    { apply (claim insertion_std _ _ _ _) in E; [assumption|].
      rewrite Hseed. apply NoDup_singleton. }
    rewrite fmap_Ok in Hrun. injection Hrun as Hrun. rewrite Hrun in Hnd.
    exact (Hdup "X" Hnd).
Qed.

(** C8, amended: when the active symbols of the market provider's list are
    pairwise distinct, every ProducerPairList of the chain has a remote list
    without duplicates, no Offset filter has a negative offset and the
    metrics of the ranking filters are numbers, then the working set is
    duplicate-free after every prefix of the chain, [refresh] returns, and
    the list it publishes has no symbol twice (the list published before, if
    it had none, when the run has no pairs). *)
Theorem working_set_stays_duplicate_free
    (S : StdAlgorithms) (conforming : Conforming S)
    (self : PairListManager.t) (amb : nat -> Ambient) :
  NoDup (seed_pairs self) ->
  Z.of_nat (length (seed_pairs self)) <= INT_MAX ->
  (forall f, f ∈ PairListManager.filters_ self -> filter_ok (run_tickers self) f) ->
  (forall before after,
     PairListManager.filters_ self = before ++ after ->
     exists ws n,
       PairListManager.apply_filters before amb 0 (run_tickers self)
         (seed_pairs self) (PairListManager.filter_count_ self) = Ok (ws, n)
       /\ NoDup ws)
  /\ (NoDup (PairListManager.getPairs self) ->
      exists self',
        PairListManager.refresh self amb = Ok self'
        /\ NoDup (PairListManager.getPairs self')).
Proof.
  intros Hnd Hlen Hok. split.
  - intros before after Hchain.
    destruct (apply_filters_keeps_nodup (run_tickers self) amb before 0
                (seed_pairs self) (PairListManager.filter_count_ self))
      as (ws & n & Hrun & Hws & _).
    + intros f Hf. apply Hok. rewrite Hchain. apply elem_of_app. by left.
    + by split.
    + by exists ws, n.
  - intros Hold. destruct (decide (seed_pairs self = [])) as [Hnil|Hseed].
    + exists self. split; [by apply refresh_no_pairs|assumption].
    + destruct (apply_filters_keeps_nodup (run_tickers self) amb
                  (PairListManager.filters_ self) 0 (seed_pairs self)
                  (PairListManager.filter_count_ self) Hok ltac:(by split))
        as (ws & n & Hrun & Hws & _).
      rewrite (refresh_with_pairs self amb Hseed), Hrun, bind_Ok.
      eexists. split; [reflexivity|]. exact Hws.
Qed.

Definition four_markets : list MarketInfo.t :=
  [market_with_cap "A" 50 5; market_with_cap "B" 70 15;
   market_with_cap "C" 90 2; market_with_cap "D" 80 3].

Definition sample_chain : list PairFilter :=
  [blacklist_of ["B"];
   VolumePairList_ scenario_filter;
   OffsetFilter_ {| OffsetFilter.offset_ := 0; OffsetFilter.number_assets_ := 5 |};
   ShuffleFilter_ {| ShuffleFilter.seed_ := 7 |};
   producer_of ["X"; "Y"]].

Definition sample_manager : PairListManager.t :=
  manager_with ["OLD"] sample_chain (Some four_markets) (Some scenario_tickers).

Lemma scenario_tickers_are_numbers p x :
  volume_metric scenario_filter scenario_tickers p = Some x ->
  Double.is_nan x = false.
Proof.
  unfold volume_metric, scenario_tickers. rewrite !lookup_insert.
  repeat case_decide; rewrite ?lookup_empty; simpl; intros [= <-]; reflexivity.
Qed.

Lemma sample_chain_ok f :
  f ∈ sample_chain -> filter_ok (run_tickers sample_manager) f.
Proof.
  unfold sample_chain. intros Hf.
  repeat (apply elem_of_cons in Hf as [->|Hf]); try (by apply elem_of_nil in Hf); simpl.
  - exact I.
  - apply scenario_tickers_are_numbers.
  - lia.
  - exact I.
  - intros remote [= <-]. split; [|simpl; unfold INT_MAX; lia].
    apply (bool_decide_unpack _). vm_compute. exact I.
Qed.

Lemma working_set_stays_duplicate_free_witness :
  NoDup (seed_pairs sample_manager)
  /\ exists self',
       PairListManager.refresh (H := insertion_std) sample_manager still_ambient = Ok self'
       /\ NoDup (PairListManager.getPairs self').
Proof.
  assert (Hseed : NoDup (seed_pairs sample_manager)).
  { apply (bool_decide_unpack _). vm_compute. exact I. }
  split; [exact Hseed|].
  destruct (working_set_stays_duplicate_free insertion_std _ sample_manager still_ambient
              Hseed ltac:(vm_compute; discriminate) sample_chain_ok) as [_ Hrun].
  apply Hrun. apply NoDup_singleton.
Defined.

Example sample_manager_publishes :
  PairListManager.getPairs <$>
    PairListManager.refresh (H := insertion_std) sample_manager still_ambient
  = Ok ["X"; "Y"].
Proof. vm_compute. reflexivity. Qed.

(** ** Two runs of [refresh] *)

(** The filter does not draw from the random device: it is not a Shuffle
    filter with seed 0. *)
Definition seeded (f : PairFilter) : bool :=
  match f with
  | ShuffleFilter_ s => negb (ShuffleFilter.seed_ s =? 0)
  | _ => true
  end.

(** Between the two clock readings no market of an Age filter's provider
    passes the filter's age threshold. *)
Definition age_verdicts_agree (f : PairFilter) (a1 a2 : Ambient) : Prop :=
  match f with
  | AgeFilter_ a =>
      forall markets, AgeFilter.market_provider_ a = Some markets ->
        forall p market, market_map_of markets !! p = Some market ->
          (AgeFilter.min_days_listed_ a <=? AgeFilter.days_listed (system_clock_now a1) market)
          = (AgeFilter.min_days_listed_ a <=? AgeFilter.days_listed (system_clock_now a2) market)
  | _ => True
  end.

Section TwoRuns.

Context {S : StdAlgorithms}.

Lemma filter_two_runs f a1 a2 ws tickers :
  seeded f = true -> age_verdicts_agree f a1 a2 ->
  PairFilterOps.filter f a1 ws tickers = PairFilterOps.filter f a2 ws tickers.
Proof.
  destruct f as [f|f|f|f|f|f|f|f|f|f|f|f]; simpl; try reflexivity.
  - intros _ Hagree. unfold AgeFilter.filter.
    destruct (AgeFilter.market_provider_ f) as [markets|]; [|reflexivity].
    f_equal. apply list_filter_iff. intros p. unfold AgeFilter.keeps.
    destruct (market_map_of markets !! p) as [market|] eqn:E; [|reflexivity].
    by rewrite (Hagree markets eq_refl p market E).
  - intros Hseed _. unfold ShuffleFilter.filter.
    apply negb_true_iff in Hseed. by rewrite Hseed.
Qed.

Lemma apply_filters_two_runs filters amb1 amb2 k tickers ws n :
  (forall f, f ∈ filters -> seeded f = true) ->
  (forall i f, filters !! i = Some f -> age_verdicts_agree f (amb1 (k + i)%nat) (amb2 (k + i)%nat)) ->
  PairListManager.apply_filters filters amb1 k tickers ws n
  = PairListManager.apply_filters filters amb2 k tickers ws n.
Proof.
  revert k ws n. induction filters as [|f filters IH]; intros k ws n Hseed Hagree.
  - reflexivity.
  - destruct ws as [|p ws]; [reflexivity|].
    rewrite !apply_filters_cons.
    rewrite (filter_two_runs f (amb1 k) (amb2 k)).
    + destruct (PairFilterOps.filter f (amb2 k) (p :: ws) tickers) as [out| |];
        [|reflexivity..].
      rewrite !bind_Ok. apply IH.
      * intros g Hg. apply Hseed. by right.
      * intros i g Hi. replace (Datatypes.S k + i)%nat with (k + Datatypes.S i)%nat by lia.
        by apply Hagree.
    + apply Hseed. by left.
    + specialize (Hagree 0%nat f eq_refl). by rewrite Nat.add_0_r in Hagree.
Qed.

(** The working set a chain leaves does not depend on the value of the
    execution counter. *)
Lemma apply_filters_counter filters amb k tickers ws n m :
  fst <$> PairListManager.apply_filters filters amb k tickers ws n
  = fst <$> PairListManager.apply_filters filters amb k tickers ws m.
Proof.
  revert k ws n m. induction filters as [|f filters IH]; intros k ws n m.
  - reflexivity.
  - destruct ws as [|p ws]; [reflexivity|].
    rewrite !apply_filters_cons.
    destruct (PairFilterOps.filter f (amb k) (p :: ws) tickers) as [out| |];
      [|reflexivity..].
    rewrite !bind_Ok. apply IH.
Qed.

Lemma refresh_published self amb :
  seed_pairs self <> [] ->
  PairListManager.getPairs <$> PairListManager.refresh self amb
  = fst <$> PairListManager.apply_filters (PairListManager.filters_ self) amb 0
              (run_tickers self) (seed_pairs self) (PairListManager.filter_count_ self).
Proof.
  intros Hseed. rewrite (refresh_with_pairs self amb Hseed).
  destruct (PairListManager.apply_filters _ _ _ _ _ _) as [[ws n]| |]; reflexivity.
Qed.

Lemma refresh_keeps_inputs self amb self' :
  PairListManager.refresh self amb = Ok self' ->
  PairListManager.filters_ self' = PairListManager.filters_ self
  /\ seed_pairs self' = seed_pairs self
  /\ run_tickers self' = run_tickers self.
Proof.
  destruct (decide (seed_pairs self = [])) as [Hnil|Hseed].
  - rewrite (refresh_no_pairs self amb Hnil). by intros [= <-].
  - rewrite (refresh_with_pairs self amb Hseed).
    destruct (PairListManager.apply_filters _ _ _ _ _ _) as [[ws n]| |];
      [|discriminate..].
    rewrite bind_Ok. by intros [= <-].
Qed.

End TwoRuns.

Definition ticks_per_day : Z := 24 * ticks_per_hour.

Definition listed_ten_days : PairFilter :=
  AgeFilter_ {| AgeFilter.min_days_listed_ := 10;
                AgeFilter.market_provider_ := Some [market_with_cap "A" 100 1] |}.

Definition age_manager : PairListManager.t :=
  manager_with [] [listed_ten_days] (Some [market_with_cap "A" 100 1]) None.

(** The clock reads [t] during the whole run. *)
Definition at_time (t : time_point) (k : nat) : Ambient :=
  {| system_clock_now := t; random_device := 0 |}.

Lemma age_filter_changes_between_runs :
  exists s1 s2,
    PairListManager.refresh (H := insertion_std) age_manager
      (at_time (10 * ticks_per_day - 1)) = Ok s1
    /\ PairListManager.refresh (H := insertion_std) s1
         (at_time (10 * ticks_per_day)) = Ok s2
    /\ PairListManager.getPairs s1 = []
    /\ PairListManager.getPairs s2 = ["A"].
Proof. do 2 eexists. repeat split; vm_compute; reflexivity. Qed.

(** C4, as stated, fails: the Age filter reads the system clock, which is
    not a provider output.  With unchanged providers and no Shuffle filter,
    a run just before a market's tenth day publishes the empty list and the
    next run, one tick later, publishes the market. *)
Lemma refresh_twice_can_differ :
  ~ (forall (S : StdAlgorithms) (self : PairListManager.t)
            (amb1 amb2 : nat -> Ambient) (s1 s2 : PairListManager.t),
       Conforming S ->
       (forall f, f ∈ PairListManager.filters_ self -> seeded f = true) ->
       PairListManager.refresh self amb1 = Ok s1 ->
       PairListManager.refresh s1 amb2 = Ok s2 ->
       PairListManager.getPairs s2 = PairListManager.getPairs s1).
Proof.
  intros claim.
  destruct age_filter_changes_between_runs as (s1 & s2 & H1 & H2 & E1 & E2).
  assert (Hseeded : forall f, f ∈ PairListManager.filters_ age_manager -> seeded f = true).
  { intros f Hf. apply list_elem_of_singleton in Hf. by subst f. }
  pose proof (claim insertion_std age_manager _ _ s1 s2 _ Hseeded H1 H2) as Heq.
  rewrite E1, E2 in Heq. discriminate.
Qed.

(** C4, amended: for every chain with no Shuffle filter of seed 0, two
    successive runs of [refresh] with the same provider outputs publish the
    same list, whatever the random device returns, provided that between the
    two runs no market of an Age filter's provider passes that filter's age
    threshold (in particular when the chain has no Age filter with a
    provider, or when both runs read the same clock). *)
Theorem refresh_twice_same_list
    (S : StdAlgorithms) (self : PairListManager.t)
    (amb1 amb2 : nat -> Ambient) (s1 : PairListManager.t) :
  (forall f, f ∈ PairListManager.filters_ self -> seeded f = true) ->
  (forall k f, PairListManager.filters_ self !! k = Some f ->
     age_verdicts_agree f (amb1 k) (amb2 k)) ->
  PairListManager.refresh self amb1 = Ok s1 ->
  exists s2,
    PairListManager.refresh s1 amb2 = Ok s2
    /\ PairListManager.getPairs s2 = PairListManager.getPairs s1.
Proof.
  intros Hseeded Hagree Hrun1.
  destruct (refresh_keeps_inputs self amb1 s1 Hrun1) as (Hchain & Hseed1 & Htick1).
  destruct (decide (seed_pairs self = [])) as [Hnil|Hseed].
  - exists s1. split; [|reflexivity]. apply refresh_no_pairs. congruence.
  - assert (Hpub1 := refresh_published self amb1 Hseed).
    assert (Hpub2 := refresh_published s1 amb2 ltac:(congruence)).
    rewrite Hchain, Hseed1, Htick1 in Hpub2.
    rewrite (apply_filters_counter _ _ _ _ _ _ (PairListManager.filter_count_ self)) in Hpub2.
    rewrite <- (apply_filters_two_runs _ amb1 amb2) in Hpub2; [|assumption..].
    rewrite <- Hpub1, Hrun1, fmap_Ok in Hpub2.
    destruct (PairListManager.refresh s1 amb2) as [s2| |]; [|discriminate..].
    exists s2. split; [reflexivity|]. rewrite fmap_Ok in Hpub2. congruence.
Qed.

Definition entropy (seed : Z) (k : nat) : Ambient :=
  {| system_clock_now := 10 * ticks_per_day + Z.of_nat k; random_device := seed |}.

Definition seeded_manager : PairListManager.t :=
  manager_with ["OLD"]
    [VolumePairList_ scenario_filter; ShuffleFilter_ {| ShuffleFilter.seed_ := 7 |};
     listed_ten_days]
    (Some four_markets) (Some scenario_tickers).

Lemma refresh_twice_same_list_witness :
  exists s1 s2,
    PairListManager.refresh (H := insertion_std) seeded_manager (entropy 11) = Ok s1
    /\ PairListManager.refresh (H := insertion_std) s1 (entropy 42) = Ok s2
    /\ PairListManager.getPairs s2 = PairListManager.getPairs s1.
Proof.
  destruct (PairListManager.refresh (H := insertion_std) seeded_manager (entropy 11))
    as [s1| |] eqn:Hrun1; [|vm_compute in Hrun1; discriminate..].
  destruct (refresh_twice_same_list insertion_std seeded_manager
              (entropy 11) (entropy 42) s1) as (s2 & Hrun2 & Hsame).
  - intros f Hf. unfold seeded_manager, manager_with in Hf. simpl in Hf.
    repeat (apply elem_of_cons in Hf as [->|Hf]); try (by apply elem_of_nil in Hf);
      reflexivity.
  - intros k f Hk. unfold seeded_manager, manager_with in Hk. simpl in Hk.
    destruct k as [|[|[|k]]]; simpl in Hk; try discriminate;
      injection Hk as <-; simpl; try exact I.
    intros markets [= <-] p market Hm. reflexivity.
  - exact Hrun1.
  - exists s1, s2. auto.
Defined.

(** * Further properties of the filters, the factory and the manager *)

(** ** The two name-list filters *)

Lemma filter_keeps_all {A} (P : A -> Prop) `{!forall x, Decision (P x)} (l : list A) :
  (forall x, x ∈ l -> P x) -> filter P l = l.
Proof.
  induction l as [|x l IH]; intros Hall; [reflexivity|].
  rewrite filter_cons_True by (apply Hall; by left).
  f_equal. apply IH. intros y Hy. apply Hall. by right.
Qed.

Lemma static_filter_eq (self : StaticPairListFilter.t) (pairs : list string)
    (tickers : tickers_map) :
  StaticPairListFilter.filter self pairs tickers
  = Ok (filter (fun p => StaticPairListFilter.whitelist_ self = []
                         \/ p ∈ StaticPairListFilter.whitelist_ self) pairs).
Proof.
  unfold StaticPairListFilter.filter.
  destruct (StaticPairListFilter.whitelist_ self) as [|w ws] eqn:E.
  - f_equal. symmetry. apply filter_keeps_all. intros p _. by left.
  - f_equal. apply list_filter_iff. intros p.
    rewrite elem_of_list_to_set. split; [by right|].
    intros [H|H]; [discriminate | exact H].
Qed.

Lemma blacklist_filter_eq (self : BlacklistFilter.t) (pairs : list string)
    (tickers : tickers_map) :
  BlacklistFilter.filter self pairs tickers
  = Ok (filter (fun p => p ∉ BlacklistFilter.blacklist_ self) pairs).
Proof.
  unfold BlacklistFilter.filter.
  destruct (BlacklistFilter.blacklist_ self) as [|b bs] eqn:E.
  - f_equal. symmetry. apply filter_keeps_all. intros p _. apply not_elem_of_nil.
  - f_equal. apply list_filter_iff. intros p.
    by rewrite not_elem_of_list_to_set.
Qed.

(** X1 (StaticPairListFilter::filter): the filter always returns; what it
    returns is a sub-sequence of the input (same order, nothing added), and a
    pair is in it exactly when it is in the input and either the whitelist is
    empty or the pair is whitelisted. *)
Theorem static_filter_selects_whitelisted (self : StaticPairListFilter.t)
    (pairs : list string) (tickers : tickers_map) :
  exists out,
    StaticPairListFilter.filter self pairs tickers = Ok out
    /\ out `sublist_of` pairs
    /\ (forall p, p ∈ out <->
          p ∈ pairs /\ (StaticPairListFilter.whitelist_ self = []
                        \/ p ∈ StaticPairListFilter.whitelist_ self)).
Proof.
  eexists. split; [apply static_filter_eq|]. split.
  - apply sublist_filter.
  - intros p. rewrite list_elem_of_filter. tauto.
Qed.

(** X2 (BlacklistFilter::filter): the filter always returns a sub-sequence of
    the input that holds exactly the input pairs that are not blacklisted,
    and running it again on its own output changes nothing. *)
Theorem blacklist_filter_removes_blacklisted (self : BlacklistFilter.t)
    (pairs : list string) (tickers : tickers_map) :
  exists out,
    BlacklistFilter.filter self pairs tickers = Ok out
    /\ out `sublist_of` pairs
    /\ (forall p, p ∈ out <-> p ∈ pairs /\ p ∉ BlacklistFilter.blacklist_ self)
    /\ BlacklistFilter.filter self out tickers = Ok out.
Proof.
  eexists. split; [apply blacklist_filter_eq|]. split; [apply sublist_filter|]. split.
  - intros p. rewrite list_elem_of_filter. tauto.
  - rewrite blacklist_filter_eq. f_equal.
    apply list_filter_filter_l. tauto.
Qed.

(** X3 (StaticPairListFilter::filter, BlacklistFilter::filter): the whitelist
    and the blacklist filter commute: chained in either order they return the
    same list. *)
Theorem whitelist_and_blacklist_commute (w : StaticPairListFilter.t)
    (b : BlacklistFilter.t) (pairs : list string) (tickers : tickers_map) :
  (StaticPairListFilter.filter w pairs tickers
     ≫= fun out => BlacklistFilter.filter b out tickers)
  = (BlacklistFilter.filter b pairs tickers
       ≫= fun out => StaticPairListFilter.filter w out tickers).
Proof.
  rewrite static_filter_eq, blacklist_filter_eq, !bind_Ok.
  rewrite static_filter_eq, blacklist_filter_eq. f_equal.
  rewrite !list_filter_filter. apply list_filter_iff. tauto.
Qed.

(** ** Pairs without data *)

(** X4 (SpreadFilter::filter, PriceFilter::filter, VolatilityFilter::filter,
    AgeFilter::filter, PerformanceFilter::filter): a pair that has no ticker
    is never returned by the spread, price and volatility filters, whatever
    their bounds; a pair the market list does not name is never returned by
    an age filter with a provider; but a pair without a performance record
    is always kept by the performance filter. *)
Theorem pairs_without_data (pairs : list string) (p : string) :
  (forall tickers : tickers_map, tickers !! p = None ->
     (forall f out, SpreadFilter.filter f pairs tickers = Ok out -> p ∉ out)
     /\ (forall f out, PriceFilter.filter f pairs tickers = Ok out -> p ∉ out)
     /\ (forall f out, VolatilityFilter.filter f pairs tickers = Ok out -> p ∉ out))
  /\ (forall f markets amb tickers out,
        AgeFilter.market_provider_ f = Some markets ->
        market_map_of markets !! p = None ->
        AgeFilter.filter f amb pairs tickers = Ok out -> p ∉ out)
  /\ (forall f performance tickers out,
        PerformanceFilter.performance_provider_ f = Some performance ->
        performance !! p = None ->
        PerformanceFilter.filter f pairs tickers = Ok out ->
        (p ∈ out <-> p ∈ pairs)).
Proof.
  split; [|split].
  - intros tickers Hnone. repeat split; intros f out [= <-];
      rewrite list_elem_of_filter; intros [H _]; revert H.
    + unfold SpreadFilter.keeps. by rewrite Hnone.
    + unfold PriceFilter.keeps. by rewrite Hnone.
    + unfold VolatilityFilter.keeps. by rewrite Hnone.
  - intros f markets amb tickers out Hprov Hnone. unfold AgeFilter.filter.
    rewrite Hprov. intros [= <-]. rewrite list_elem_of_filter. intros [H _].
    revert H. unfold AgeFilter.keeps. by rewrite Hnone.
  - intros f performance tickers out Hprov Hnone. unfold PerformanceFilter.filter.
    rewrite Hprov. intros [= <-]. rewrite list_elem_of_filter.
    unfold PerformanceFilter.keeps. rewrite Hnone. tauto.
Qed.

Definition scored_only_B : PerformanceFilter.t :=
  {| PerformanceFilter.min_profit_ := 0%float;
     PerformanceFilter.performance_provider_ := Some {["B" := (-1)%float]} |}.

Lemma pairs_without_data_witness :
  (∅ : tickers_map) !! "A" = None
  /\ ("A" ∉ @nil string)
  /\ ("A" ∈ ["A"] <-> "A" ∈ ["A"; "B"]).
Proof.
  destruct (pairs_without_data ["A"; "B"] "A") as (Hticker & _ & Hperf).
  split; [apply lookup_empty|]. split.
  - destruct (Hticker ∅ (lookup_empty _)) as (Hspread & _).
    apply (Hspread SpreadFilter.make). reflexivity.
  - apply (Hperf scored_only_B {["B" := (-1)%float]} ∅); reflexivity.
Defined.

(** ** The market map *)

(** X5 (AgeFilter::filter, MarketCapPairList::filter; the loop
    [market_map[market.symbol] = market]): the map built from the provider's
    list holds, for each symbol, the last market of the list that carries the
    symbol, and nothing for a symbol no market carries. *)
Theorem market_map_of_last_entry_wins (markets : list MarketInfo.t) (s : string) :
  market_map_of markets !! s
  = last (filter (fun market => MarketInfo.symbol market = s) markets).
Proof.
  unfold market_map_of.
  induction markets as [|market markets IH] using rev_ind; [reflexivity|].
  rewrite foldl_snoc, filter_app, last_app.
  destruct (decide (MarketInfo.symbol market = s)) as [E|E].
  - rewrite E, lookup_insert_eq. rewrite filter_cons_True by exact E. reflexivity.
  - rewrite lookup_insert_ne by exact E.
    rewrite filter_cons_False by exact E. simpl. exact IH.
Qed.

(** ** The age filter and the clock *)

Lemma filter_sublist_mono {A} (P Q : A -> Prop)
    `{!forall x, Decision (P x)} `{!forall x, Decision (Q x)} (l : list A) :
  (forall x, x ∈ l -> P x -> Q x) -> filter P l `sublist_of` filter Q l.
Proof.
  induction l as [|x l IH]; intros Himp; [constructor|].
  assert (IH' : filter P l `sublist_of` filter Q l)
    by (apply IH; intros y Hy; apply Himp; by right).
  destruct (decide (P x)) as [HP|HP].
  - rewrite (filter_cons_True P) by exact HP.
    rewrite (filter_cons_True Q) by (apply Himp; [by left | exact HP]).
    by constructor.
  - rewrite (filter_cons_False P) by exact HP.
    destruct (decide (Q x)) as [HQ|HQ].
    + rewrite (filter_cons_True Q) by exact HQ. by constructor.
    + rewrite (filter_cons_False Q) by exact HQ. exact IH'.
Qed.

Lemma wrap_ticks_id (z : Z) : in_ticks z -> wrap_ticks z = z.
Proof.
  unfold in_ticks, wrap_ticks. intros H. rewrite Z.mod_small by lia. lia.
Qed.

Lemma days_listed_mono (t1 t2 : time_point) (market : MarketInfo.t) :
  in_ticks (t1 - MarketInfo.listed_date market) ->
  in_ticks (t2 - MarketInfo.listed_date market) ->
  t1 <= t2 -> AgeFilter.days_listed t1 market <= AgeFilter.days_listed t2 market.
Proof.
  intros H1 H2 Hle. unfold AgeFilter.days_listed.
  rewrite !wrap_ticks_id by assumption.
  apply Z.quot_le_mono; [lia|].
  apply Z.quot_le_mono; [reflexivity | lia].
Qed.

Lemma market_map_of_elem (markets : list MarketInfo.t) (s : string)
    (market : MarketInfo.t) :
  market_map_of markets !! s = Some market -> market ∈ markets.
Proof.
  unfold market_map_of.
  induction markets as [|m markets IH] using rev_ind; [done|].
  rewrite foldl_snoc, elem_of_app, list_elem_of_singleton.
  destruct (decide (MarketInfo.symbol m = s)) as [E|E].
  - rewrite E, lookup_insert_eq. intros [= ->]. by right.
  - rewrite lookup_insert_ne by exact E. intros H. left. by apply IH.
Qed.

(** X6 (AgeFilter::filter): the age filter is monotone in the clock.  With
    the same filter, market list and input, a run at a later reading of
    [system_clock::now()] returns every pair an earlier run returned, in the
    same order, as long as at both readings the age [now - listed_date] of
    every listed market fits the 64-bit count of ticks: a pair that has
    passed the minimum listing age keeps passing. *)
Theorem age_filter_monotone_in_time (self : AgeFilter.t) (amb1 amb2 : Ambient)
    (pairs : list string) (tickers : tickers_map) :
  system_clock_now amb1 <= system_clock_now amb2 ->
  (forall markets market,
     AgeFilter.market_provider_ self = Some markets -> market ∈ markets ->
     in_ticks (system_clock_now amb1 - MarketInfo.listed_date market)
     /\ in_ticks (system_clock_now amb2 - MarketInfo.listed_date market)) ->
  exists out1 out2,
    AgeFilter.filter self amb1 pairs tickers = Ok out1
    /\ AgeFilter.filter self amb2 pairs tickers = Ok out2
    /\ out1 `sublist_of` out2.
Proof.
  intros Hle Hfit. unfold AgeFilter.filter.
  destruct (AgeFilter.market_provider_ self) as [markets|].
  - do 2 eexists. split; [reflexivity|]. split; [reflexivity|].
    apply filter_sublist_mono. intros p _. unfold AgeFilter.keeps.
    destruct (market_map_of markets !! p) as [market|] eqn:Hm; [|done].
    destruct (Hfit markets market eq_refl (market_map_of_elem _ _ _ Hm)) as [H1 H2].
    rewrite !Z.leb_le. pose proof (days_listed_mono _ _ market H1 H2 Hle). lia.
  - exists pairs, pairs. done.
Qed.

Lemma age_filter_monotone_in_time_witness :
  system_clock_now (at_time 0 0) <= system_clock_now (at_time (10 * ticks_per_day) 0)
  /\ exists out1 out2,
       AgeFilter.filter
         {| AgeFilter.min_days_listed_ := 10;
            AgeFilter.market_provider_ := Some [market_with_cap "A" 100 1] |}
         (at_time 0 0) ["A"] ∅ = Ok out1
       /\ AgeFilter.filter
            {| AgeFilter.min_days_listed_ := 10;
               AgeFilter.market_provider_ := Some [market_with_cap "A" 100 1] |}
            (at_time (10 * ticks_per_day) 0) ["A"] ∅ = Ok out2
       /\ out1 `sublist_of` out2.
Proof.
  assert (Hle : system_clock_now (at_time 0 0)
                <= system_clock_now (at_time (10 * ticks_per_day) 0))
    by (vm_compute; discriminate).
  split; [exact Hle|].
  apply (age_filter_monotone_in_time _ _ _ ["A"] ∅ Hle).
  intros markets market [= <-] Hin. apply list_elem_of_singleton in Hin. subst market.
  vm_compute. repeat split; discriminate.
Defined.

(** ** Paging with the offset filter *)

Lemma offset_filter_rest (k : Z) (pairs : list string) (tickers : tickers_map) :
  Z.of_nat (length pairs) <= INT_MAX -> 0 <= k ->
  OffsetFilter.filter {| OffsetFilter.offset_ := k; OffsetFilter.number_assets_ := 0 |}
    pairs tickers
  = Ok (drop (Z.to_nat k) pairs).
Proof.
  intros Hsize Hk.
  rewrite offset_filter_window; simpl; try assumption; try lia; [reflexivity|].
  rewrite offset_start_eq by assumption. simpl. lia.
Qed.

Lemma offset_filter_page (k n : Z) (pairs : list string) (tickers : tickers_map) :
  Z.of_nat (length pairs) <= INT_MAX -> 0 <= k -> 0 < n -> k + n <= INT_MAX ->
  OffsetFilter.filter {| OffsetFilter.offset_ := k; OffsetFilter.number_assets_ := n |}
    pairs tickers
  = Ok (take (Z.to_nat n) (drop (Z.to_nat k) pairs)).
Proof.
  intros Hsize Hk Hn Hsum.
  rewrite offset_filter_window; simpl; try assumption; try lia.
  - unfold window. destruct (Z.to_nat n) eqn:E; [lia | reflexivity].
  - rewrite offset_start_eq by assumption. simpl. lia.
Qed.

(** X7 (OffsetFilter::filter): pages tile the list.  For an offset [k >= 0]
    and a count [n > 0] with [k + n] within [int], on a list of at most
    [INT_MAX] pairs: the page [(k, n)] followed by what the filter returns for
    offset [k + n] without a count is what it returns for offset [k] without
    a count; consecutive pages lose and repeat nothing. *)
Theorem offset_pages_tile (k n : Z) (pairs : list string) (tickers : tickers_map) :
  Z.of_nat (length pairs) <= INT_MAX -> 0 <= k -> 0 < n -> k + n <= INT_MAX ->
  exists page rest,
    OffsetFilter.filter
      {| OffsetFilter.offset_ := k; OffsetFilter.number_assets_ := n |} pairs tickers
    = Ok page
    /\ OffsetFilter.filter
         {| OffsetFilter.offset_ := k + n; OffsetFilter.number_assets_ := 0 |} pairs tickers
       = Ok rest
    /\ OffsetFilter.filter
         {| OffsetFilter.offset_ := k; OffsetFilter.number_assets_ := 0 |} pairs tickers
       = Ok (page ++ rest).
Proof.
  intros Hsize Hk Hn Hsum.
  do 2 eexists. split; [by apply offset_filter_page|].
  split; [apply offset_filter_rest; [assumption | lia]|].
  rewrite offset_filter_rest by assumption. f_equal.
  rewrite Z2Nat.inj_add by lia.
  rewrite <- drop_drop. symmetry. apply take_drop.
Qed.

Lemma offset_pages_tile_witness :
  exists page rest,
    OffsetFilter.filter
      {| OffsetFilter.offset_ := 1; OffsetFilter.number_assets_ := 2 |}
      ["p0"; "p1"; "p2"; "p3"; "p4"] ∅ = Ok page
    /\ OffsetFilter.filter
         {| OffsetFilter.offset_ := 1 + 2; OffsetFilter.number_assets_ := 0 |}
         ["p0"; "p1"; "p2"; "p3"; "p4"] ∅ = Ok rest
    /\ OffsetFilter.filter
         {| OffsetFilter.offset_ := 1; OffsetFilter.number_assets_ := 0 |}
         ["p0"; "p1"; "p2"; "p3"; "p4"] ∅ = Ok (page ++ rest).
Proof.
  apply (offset_pages_tile 1 2 ["p0"; "p1"; "p2"; "p3"; "p4"] ∅);
    vm_compute; discriminate || reflexivity.
Defined.

(** X8 (OffsetFilter::filter): an offset at or past the end of the list
    gives the empty list, whatever the count is (zero, negative, or so large
    that [start + number_assets_] leaves [int]) and however long the list
    is. *)
Theorem offset_filter_past_the_end (self : OffsetFilter.t) (pairs : list string)
    (tickers : tickers_map) :
  Z.of_nat (length pairs) <= OffsetFilter.offset_ self ->
  OffsetFilter.filter self pairs tickers = Ok [].
Proof.
  intros Hpast. unfold OffsetFilter.filter, push_back_range.
  assert (Hstart : OffsetFilter.start_of self pairs = size_as_int pairs).
  { unfold OffsetFilter.start_of. pose proof (size_as_int_le pairs). lia. }
  assert (Hend : OffsetFilter.end_of self pairs <= size_as_int pairs).
  { unfold OffsetFilter.end_of.
    destruct (0 <? OffsetFilter.number_assets_ self); lia. }
  replace (Z.to_nat (OffsetFilter.end_of self pairs - OffsetFilter.start_of self pairs))
    with O by lia.
  reflexivity.
Qed.

Lemma offset_filter_past_the_end_witness :
  OffsetFilter.filter
    {| OffsetFilter.offset_ := 2; OffsetFilter.number_assets_ := INT_MAX |}
    ["A"; "B"] ∅ = Ok [].
Proof.
  apply offset_filter_past_the_end. vm_compute. discriminate.
Defined.

(** ** The count of the two ranking filters *)

Section RankingCount.

Context {S : StdAlgorithms}.

(** X9 (VolumePairListFilter::filter, MarketCapPairList::filter): a count
    [number_assets_] of zero or less gives the empty list for every input,
    with any [std::sort]; unlike the offset filter, where a count of zero or
    less means no limit. *)
Theorem ranking_filters_nonpositive_count (pairs : list string) (tickers : tickers_map) :
  (forall self : VolumePairListFilter.t,
     VolumePairListFilter.number_assets_ self <= 0 ->
     VolumePairListFilter.filter self pairs tickers = Ok [])
  /\ (forall (self : MarketCapPairList.t) (markets : list MarketInfo.t),
        MarketCapPairList.number_assets_ self <= 0 ->
        MarketCapPairList.market_provider_ self = Some markets ->
        MarketCapPairList.filter self pairs tickers = Ok [])
  /\ (forall self : OffsetFilter.t,
        OffsetFilter.number_assets_ self <= 0 ->
        OffsetFilter.offset_ self = 0 ->
        Z.of_nat (length pairs) <= INT_MAX ->
        OffsetFilter.filter self pairs tickers = Ok pairs).
Proof.
  split; [|split].
  - intros self Hn. rewrite volume_filter_eq.
    match goal with |- context [take ?n _] => replace n with O by lia end.
    reflexivity.
  - intros self markets Hn Hprov. rewrite (marketcap_filter_eq _ _ _ _ Hprov).
    match goal with |- context [take ?n _] => replace n with O by lia end.
    reflexivity.
  - intros self Hn Hoff Hsize. unfold OffsetFilter.filter.
    assert (Hstart : OffsetFilter.start_of self pairs = 0)
      by (rewrite offset_start_eq by assumption; lia).
    assert (Hend : OffsetFilter.end_of self pairs = Z.of_nat (length pairs)).
    { unfold OffsetFilter.end_of.
      replace (0 <? OffsetFilter.number_assets_ self) with false
        by (symmetry; apply Z.ltb_ge; lia).
      by apply size_as_int_exact. }
    rewrite Hstart, Hend, push_back_range_prefix by lia.
    by rewrite Nat2Z.id, firstn_all.
Qed.

(** X10 (VolumePairListFilter::filter): raising the count only appends.  Two
    volume filters with the same sort key and minimum value, run on the same
    input with the same [std::sort], return lists of which the one for the
    smaller count is a prefix of the one for the larger count. *)
Theorem volume_filter_prefix_in_count (self1 self2 : VolumePairListFilter.t)
    (pairs : list string) (tickers : tickers_map) :
  VolumePairListFilter.sort_key_ self1 = VolumePairListFilter.sort_key_ self2 ->
  VolumePairListFilter.min_value_ self1 = VolumePairListFilter.min_value_ self2 ->
  VolumePairListFilter.number_assets_ self1 <= VolumePairListFilter.number_assets_ self2 ->
  exists out1 out2,
    VolumePairListFilter.filter self1 pairs tickers = Ok out1
    /\ VolumePairListFilter.filter self2 pairs tickers = Ok out2
    /\ out1 `prefix_of` out2.
Proof.
  intros Hkey Hmin Hle.
  do 2 eexists. split; [apply volume_filter_eq|]. split; [apply volume_filter_eq|].
  assert (Hcand : omap (VolumePairListFilter.candidate self1 tickers) pairs
                  = omap (VolumePairListFilter.candidate self2 tickers) pairs).
  { f_equal. unfold VolumePairListFilter.candidate. by rewrite Hkey, Hmin. }
  rewrite Hcand.
  set (sorted := std_sort VolumePairListFilter.by_value_desc _).
  set (n1 := Z.to_nat _). set (n2 := Z.to_nat _).
  assert (Hn : (n1 <= n2)%nat) by (subst n1 n2; lia).
  replace (take n1 sorted) with (take n1 (take n2 sorted))
    by (rewrite take_take; f_equal; lia).
  rewrite fmap_take. apply prefix_take.
Qed.

End RankingCount.

Lemma volume_filter_prefix_in_count_witness :
  exists out1 out2,
    VolumePairListFilter.filter (H := insertion_std) scenario_filter
      ["A"; "B"; "C"] scenario_tickers
    = Ok out1
    /\ VolumePairListFilter.filter (H := insertion_std)
         {| VolumePairListFilter.number_assets_ := 3;
            VolumePairListFilter.sort_key_ := QuoteVolume;
            VolumePairListFilter.min_value_ := 0;
            VolumePairListFilter.refresh_period_ := 60 |}
         ["A"; "B"; "C"] scenario_tickers = Ok out2
    /\ out1 `prefix_of` out2.
Proof.
  apply volume_filter_prefix_in_count; vm_compute; reflexivity || discriminate.
Defined.

Lemma ranking_filters_nonpositive_count_witness :
  VolumePairListFilter.filter (H := insertion_std)
    {| VolumePairListFilter.number_assets_ := 0;
       VolumePairListFilter.sort_key_ := QuoteVolume;
       VolumePairListFilter.min_value_ := 0;
       VolumePairListFilter.refresh_period_ := 1800 |}
    ["A"; "B"; "C"] scenario_tickers = Ok []
  /\ OffsetFilter.filter OffsetFilter.make ["A"; "B"; "C"] scenario_tickers
     = Ok ["A"; "B"; "C"].
Proof.
  destruct (ranking_filters_nonpositive_count (S := insertion_std)
              ["A"; "B"; "C"] scenario_tickers) as (Hvolume & _ & Hoffset).
  split.
  - apply Hvolume. vm_compute. discriminate.
  - apply Hoffset; vm_compute; reflexivity || discriminate.
Defined.

(** ** The rank band of the market-capitalisation filter *)

(** X11 (MarketCapPairList::filter): with a market provider, market
    capitalisations that are numbers (not NaN) and a [std::sort] that meets
    its contract, the filter returns at most [number_assets_] pairs, each of
    them an input pair whose market, in the provider's list, has a rank in
    [1, max_rank_]; pairs with rank zero or below (no rank) are never
    returned. *)
Theorem marketcap_filter_rank_band (S : StdAlgorithms) (conforming : Conforming S)
    (self : MarketCapPairList.t) (pairs : list string) (tickers : tickers_map)
    (markets : list MarketInfo.t) :
  MarketCapPairList.market_provider_ self = Some markets ->
  marketcap_metrics_are_numbers markets pairs ->
  exists out,
    MarketCapPairList.filter self pairs tickers = Ok out
    /\ Z.of_nat (length out) <= Z.max 0 (MarketCapPairList.number_assets_ self)
    /\ (forall p, p ∈ out ->
          p ∈ pairs /\
          exists market,
            market_map_of markets !! p = Some market
            /\ 0 < MarketInfo.market_cap_rank market <= MarketCapPairList.max_rank_ self).
Proof.
  intros Hprov Hnum.
  eexists. split; [exact (marketcap_filter_eq _ _ _ _ Hprov)|]. split.
  - apply (ranking_length MarketCapPairList.market_cap MarketCapPairList.pair).
  - intros p Hp. apply list_elem_of_lookup in Hp as [i Hi].
    destruct (marketcap_out_lookup self pairs tickers markets Hprov Hnum _ i p
                (marketcap_filter_eq _ _ _ _ Hprov) Hi) as (c & _ & Hc & Hname).
    apply list_elem_of_omap in Hc as (p' & Hp' & Hcand).
    destruct (marketcap_candidate_inv _ _ _ _ Hcand) as (Hpair & _ & Hrank & market & Hm & Hr).
    assert (E : p' = p) by congruence. rewrite E in Hp', Hm.
    split; [assumption|]. exists market. split; [assumption | lia].
Qed.

Lemma marketcap_filter_rank_band_witness :
  exists out,
    MarketCapPairList.filter (H := insertion_std) top20_max_rank_10
      ["A"; "B"; "C"; "D"] ∅ = Ok out
    /\ Z.of_nat (length out) <= Z.max 0 20
    /\ (forall p, p ∈ out ->
          p ∈ ["A"; "B"; "C"; "D"] /\
          exists market,
            market_map_of ranked_markets !! p = Some market
            /\ 0 < MarketInfo.market_cap_rank market <= 10).
Proof.
  exact (marketcap_filter_rank_band insertion_std _ top20_max_rank_10
           ["A"; "B"; "C"; "D"] ∅ ranked_markets eq_refl ranked_markets_are_numbers).
Defined.

(** ** The factory and the filters' names *)

(** The twelve kinds, default-constructed, in the order of the factory. *)
Definition filter_kinds : list PairFilter :=
  [StaticPairList_ StaticPairListFilter.make;
   VolumePairList_ VolumePairListFilter.make;
   SpreadFilter_ SpreadFilter.make;
   BlacklistFilter_ BlacklistFilter.make;
   PriceFilter_ PriceFilter.make;
   VolatilityFilter_ VolatilityFilter.make;
   AgeFilter_ AgeFilter.make;
   OffsetFilter_ OffsetFilter.make;
   ShuffleFilter_ ShuffleFilter.make;
   PerformanceFilter_ PerformanceFilter.make;
   ProducerPairList_ ProducerPairList.make;
   MarketCapPairList_ MarketCapPairList.make].

(** What [getName()] returns over the twelve classes. *)
Definition method_names : list string := PairFilterOps.getName <$> filter_kinds.

Lemma getName_is_a_method_name (f : PairFilter) : PairFilterOps.getName f ∈ method_names.
Proof.
  destruct f; unfold method_names; simpl; rewrite ?elem_of_cons; auto 13.
Qed.

Lemma create_spec (method : string) :
  match PairFilterFactory.create method with
  | Some f => PairFilterOps.getName f = method /\ f ∈ filter_kinds
  | None => method ∉ method_names
  end.
Proof.
  unfold PairFilterFactory.create.
  repeat match goal with
  | |- context [String.eqb method ?name] =>
      destruct (String.eqb_spec method name) as [->|?];
      [split; [reflexivity | unfold filter_kinds; rewrite ?elem_of_cons; auto 13]|]
  end.
  unfold method_names. simpl. rewrite ?elem_of_cons, elem_of_nil. intuition congruence.
Qed.

Lemma create_name (method : string) (f : PairFilter) :
  PairFilterFactory.create method = Some f -> PairFilterOps.getName f = method.
Proof.
  intros E. pose proof (create_spec method) as H. rewrite E in H. tauto.
Qed.

(** X12 (PairFilterFactory::create and the twelve [getName()]): the factory
    and the names are inverse to each other.  For every string, [create]
    either returns a default-constructed filter whose [getName()] is that
    string, or returns [nullptr] and the string is the name of none of the
    twelve classes; and [create] of any filter's name returns a filter. *)
Theorem factory_create_round_trip :
  (forall method : string,
     match PairFilterFactory.create method with
     | Some f => PairFilterOps.getName f = method /\ f ∈ filter_kinds
     | None => method ∉ method_names
     end)
  /\ (forall f : PairFilter,
        exists g, PairFilterFactory.create (PairFilterOps.getName f) = Some g
                  /\ PairFilterOps.getName g = PairFilterOps.getName f).
Proof.
  split; [exact create_spec|].
  intros f. pose proof (create_spec (PairFilterOps.getName f)) as H.
  destruct (PairFilterFactory.create (PairFilterOps.getName f)) as [g|].
  - exists g. tauto.
  - destruct H. apply getName_is_a_method_name.
Qed.

(** ** Configuration of a filter *)

(** The keys each class's [configure] looks up. *)
Definition option_keys (f : PairFilter) : list string :=
  match f with
  | StaticPairList_ _ => ["whitelist"]
  | VolumePairList_ _ => ["number_assets"; "min_value"; "refresh_period"; "sort_key"]
  | SpreadFilter_ _ => ["max_spread_ratio"]
  | BlacklistFilter_ _ => ["blacklist"]
  | PriceFilter_ _ => ["min_price"; "max_price"]
  | VolatilityFilter_ _ => ["min_volatility"; "max_volatility"]
  | AgeFilter_ _ => ["min_days_listed"]
  | OffsetFilter_ _ => ["offset"; "number_assets"]
  | ShuffleFilter_ _ => ["seed"]
  | PerformanceFilter_ _ => ["min_profit"]
  | ProducerPairList_ _ => ["producer_name"]
  | MarketCapPairList_ _ => ["number_assets"; "max_rank"]
  end.

Ltac unfold_configure :=
  unfold PairFilterOps.configure,
    StaticPairListFilter.configure, VolumePairListFilter.configure,
    SpreadFilter.configure, BlacklistFilter.configure, PriceFilter.configure,
    VolatilityFilter.configure, AgeFilter.configure, OffsetFilter.configure,
    ShuffleFilter.configure, PerformanceFilter.configure,
    ProducerPairList.configure, MarketCapPairList.configure.

Lemma configure_foreign_config (f : PairFilter) (config : Json.json) :
  (forall key, key ∈ option_keys f -> Json.contains config key = false) ->
  PairFilterOps.configure f config = Ok f.
Proof.
  intros Hkeys. destruct f as [f|f|f|f|f|f|f|f|f|f|f|f]; destruct f;
    unfold_configure; simpl in *;
    repeat match goal with
    | |- context [Json.contains config ?key] =>
        rewrite (Hkeys key) by (rewrite ?elem_of_cons; auto 6)
    end; reflexivity.
Qed.

Lemma method_is_no_option_key (f : PairFilter) (method : string) (key : string) :
  key ∈ option_keys f ->
  Json.contains (Json.object [("method", Json.string_ method)]) key = false.
Proof.
  destruct f; simpl; rewrite ?elem_of_cons, elem_of_nil;
    intuition (subst; reflexivity).
Qed.

(** X13 (the twelve [configure], PairFilterFactory::createFromConfig): a
    configuration that holds none of the keys a filter looks up leaves the
    filter as it is and raises nothing, whatever else it holds (also when it
    is no JSON object at all); in particular an entry that names only the
    method gives the default-constructed filter of that name. *)
Theorem configure_ignores_foreign_keys :
  (forall (f : PairFilter) (config : Json.json),
     (forall key, key ∈ option_keys f -> Json.contains config key = false) ->
     PairFilterOps.configure f config = Ok f)
  /\ (forall method : string,
        PairFilterFactory.createFromConfig
          (Json.object [("method", Json.string_ method)])
        = Ok (PairFilterFactory.create method)).
Proof.
  split; [exact configure_foreign_config|].
  intros method. unfold PairFilterFactory.createFromConfig. simpl.
  destruct (PairFilterFactory.create method) as [f|]; [|reflexivity].
  rewrite configure_foreign_config; [reflexivity|].
  intros key. apply method_is_no_option_key.
Qed.

Lemma configure_ignores_foreign_keys_witness :
  PairFilterOps.configure (VolumePairList_ scenario_filter)
    (Json.object [("method", Json.string_ "VolumePairList");
                  ("offset", Json.number_integer 3);
                  ("whitelist", Json.string_ "none")])
  = Ok (VolumePairList_ scenario_filter).
Proof.
  apply configure_ignores_foreign_keys. simpl. intros key.
  rewrite ?elem_of_cons, elem_of_nil. intuition (subst; reflexivity).
Defined.

Lemma parse_sort_key_idempotent (key : string) (current : SortKey) :
  VolumePairListFilter.parse_sort_key key
    (VolumePairListFilter.parse_sort_key key current)
  = VolumePairListFilter.parse_sort_key key current.
Proof.
  unfold VolumePairListFilter.parse_sort_key.
  repeat match goal with
  | |- context [String.eqb key ?name] => destruct (String.eqb key name)
  end; reflexivity.
Qed.

Ltac outcome_steps_in H :=
  cbn [mbind outcome_bind Cxx.bind fmap outcome_fmap mret outcome_ret andb] in H.

(** One read of [configure] in the hypothesis [H]: the test
    [config.contains(key)], then the typed [get]; a read that fails ends the
    call. *)
Ltac configure_step_in config H :=
  match type of H with
  | context [Json.contains config ?key] => destruct (Json.contains config key) eqn:?
  | context [Json.is_array ?j] => destruct (Json.is_array j) eqn:?
  | context [Json.get_int ?j] => destruct (Json.get_int j) eqn:?
  | context [Json.get_unsigned ?j] => destruct (Json.get_unsigned j) eqn:?
  | context [Json.get_double ?j] => destruct (Json.get_double j) eqn:?
  | context [Json.get_string ?j] => destruct (Json.get_string j) eqn:?
  | context [Json.get_string_vector ?j] => destruct (Json.get_string_vector j) eqn:?
  end; outcome_steps_in H; try discriminate H.

Ltac unfold_configure_in H :=
  unfold PairFilterOps.configure,
    StaticPairListFilter.configure, VolumePairListFilter.configure,
    SpreadFilter.configure, BlacklistFilter.configure, PriceFilter.configure,
    VolatilityFilter.configure, AgeFilter.configure, OffsetFilter.configure,
    ShuffleFilter.configure, PerformanceFilter.configure,
    ProducerPairList.configure, MarketCapPairList.configure in H.

Ltac replay_reads :=
  repeat match goal with
  | E : ?read = _ |- context [?read] => rewrite E
  end.

Lemma configure_twice (f f' : PairFilter) (config : Json.json) :
  PairFilterOps.configure f config = Ok f' ->
  PairFilterOps.configure f' config = Ok f'.
Proof.
  intros E.
  destruct f as [f|f|f|f|f|f|f|f|f|f|f|f]; destruct f;
    unfold_configure_in E; outcome_steps_in E;
    repeat configure_step_in config E;
    injection E; intros <-;
    unfold_configure; simpl; replay_reads; simpl;
    rewrite ?parse_sort_key_idempotent; reflexivity.
Qed.

Lemma configure_name (f f' : PairFilter) (config : Json.json) :
  PairFilterOps.configure f config = Ok f' ->
  PairFilterOps.getName f' = PairFilterOps.getName f.
Proof.
  destruct f as [f|f|f|f|f|f|f|f|f|f|f|f];
    unfold PairFilterOps.configure;
    match goal with
    | |- _ <$> ?m = _ -> _ => destruct m
    end; simpl; intros [= <-]; reflexivity.
Qed.

(** X14 (the twelve [configure]): configuring is idempotent.  When
    [configure(config)] returns, calling it again with the same [config]
    returns too and leaves the filter as the first call left it. *)
Theorem configure_idempotent (f f' : PairFilter) (config : Json.json) :
  PairFilterOps.configure f config = Ok f' ->
  PairFilterOps.configure f' config = Ok f'
  /\ PairFilterOps.getName f' = PairFilterOps.getName f.
Proof.
  intros E. split; [exact (configure_twice _ _ _ E) | exact (configure_name _ _ _ E)].
Qed.

Lemma configure_idempotent_witness :
  PairFilterOps.configure (VolumePairList_ scenario_filter) scenario_config
  = Ok (VolumePairList_ scenario_filter)
  /\ PairFilterOps.getName (VolumePairList_ scenario_filter)
     = PairFilterOps.getName (VolumePairList_ VolumePairListFilter.make).
Proof.
  apply (configure_idempotent (VolumePairList_ VolumePairListFilter.make)).
  reflexivity.
Defined.

(** ** Loading the chain from a configuration *)

(** X15 (PairListManager::loadFromConfig, clearFilters): the chain a load
    leaves, and the way the call ends, depend on the configuration only, not
    on the chain the manager had before (the call clears it first); and the
    call, also when it ends with an exception, leaves the published list,
    the two counters, the two providers and the time of the last refresh as
    they were. *)
Theorem loadFromConfig_replaces_chain (self1 self2 : PairListManager.t)
    (config : Json.json) :
  PairListManager.filters_ (PairListManager.loadFromConfig self1 config).1
  = PairListManager.filters_ (PairListManager.loadFromConfig self2 config).1
  /\ (PairListManager.loadFromConfig self1 config).2
     = (PairListManager.loadFromConfig self2 config).2
  /\ PairListManager.getPairs (PairListManager.loadFromConfig self1 config).1
     = PairListManager.getPairs self1
  /\ PairListManager.refresh_count_ (PairListManager.loadFromConfig self1 config).1
     = PairListManager.refresh_count_ self1
  /\ PairListManager.filter_count_ (PairListManager.loadFromConfig self1 config).1
     = PairListManager.filter_count_ self1
  /\ PairListManager.market_provider_ (PairListManager.loadFromConfig self1 config).1
     = PairListManager.market_provider_ self1
  /\ PairListManager.ticker_provider_ (PairListManager.loadFromConfig self1 config).1
     = PairListManager.ticker_provider_ self1
  /\ PairListManager.last_refresh_time_ (PairListManager.loadFromConfig self1 config).1
     = PairListManager.last_refresh_time_ self1.
Proof.
  unfold PairListManager.loadFromConfig, PairListManager.clearFilters.
  cbn [PairListManager.filters_ PairListManager.set_filters].
  destruct (Json.contains config "pairlist_filters"
            && Json.is_array (Json.at_key config "pairlist_filters")).
  - destruct (Json.at_key config "pairlist_filters") as [| | | | |entries|].
    all: try destruct (PairListManager.load_filters entries []) as [chain [[]| |]].
    all: destruct (Json.contains config "refresh_period");
      try destruct (Json.get_int (Json.at_key config "refresh_period"));
      repeat split.
  - destruct (Json.contains config "refresh_period");
      try destruct (Json.get_int (Json.at_key config "refresh_period"));
      repeat split.
Qed.

(** The method an entry of [pairlist_filters] names, when the factory knows
    it. *)
Definition known_method (entry : Json.json) : option string :=
  if Json.contains entry "method"
  then match Json.at_key entry "method" with
       | Json.string_ method =>
           match PairFilterFactory.create method with
           | Some _ => Some method
           | None => None
           end
       | _ => None
       end
  else None.

(** The entries [loadFromConfig] iterates over. *)
Definition configured_entries (config : Json.json) : list Json.json :=
  if Json.contains config "pairlist_filters"
  then match Json.at_key config "pairlist_filters" with
       | Json.array entries => entries
       | _ => []
       end
  else [].

Lemma createFromConfig_name (entry : Json.json) (loaded : option PairFilter) :
  PairFilterFactory.createFromConfig entry = Ok loaded ->
  PairFilterOps.getName <$> loaded = known_method entry.
Proof.
  unfold PairFilterFactory.createFromConfig, known_method.
  destruct (Json.contains entry "method"); simpl; [|by intros [= <-]].
  destruct (Json.at_key entry "method") as [| | | |method| |]; simpl; try discriminate.
  destruct (PairFilterFactory.create method) as [f|] eqn:Hcreate; [|by intros [= <-]].
  destruct (PairFilterOps.configure f entry) as [f'| |] eqn:Hconf; simpl; try discriminate.
  intros [= <-]. simpl.
  by rewrite (configure_name _ _ _ Hconf), (create_name _ _ Hcreate).
Qed.

Lemma load_filters_names (entries : list Json.json) (chain chain' : list PairFilter) :
  PairListManager.load_filters entries chain = (chain', Ok tt) ->
  PairFilterOps.getName <$> chain'
  = (PairFilterOps.getName <$> chain) ++ omap known_method entries.
Proof.
  revert chain. induction entries as [|entry entries IH]; intros chain; simpl.
  - intros [= <-]. by rewrite app_nil_r.
  - destruct (PairFilterFactory.createFromConfig entry) as [[f|]| |] eqn:Hentry;
      try discriminate.
    + intros Hload. rewrite (IH _ Hload), fmap_app, <- app_assoc.
      by rewrite <- (createFromConfig_name _ _ Hentry).
    + intros Hload. rewrite (IH _ Hload).
      by rewrite <- (createFromConfig_name _ _ Hentry).
Qed.

(** X16 (PairListManager::loadFromConfig, PairFilterFactory::createFromConfig):
    when a load returns, the names of the filters of the chain are, in order,
    the [method] strings of the entries of [pairlist_filters] that name one
    of the twelve classes; entries without a [method] or with an unknown one
    leave no trace, and a configuration without a [pairlist_filters] array
    leaves the chain empty. *)
Theorem loadFromConfig_chain_names (self self' : PairListManager.t)
    (config : Json.json) :
  PairListManager.loadFromConfig self config = (self', Ok tt) ->
  PairFilterOps.getName <$> PairListManager.filters_ self'
  = omap known_method (configured_entries config).
Proof.
  unfold PairListManager.loadFromConfig, PairListManager.clearFilters, configured_entries.
  cbn [PairListManager.filters_ PairListManager.set_filters].
  destruct (Json.contains config "pairlist_filters"); simpl.
  - destruct (Json.at_key config "pairlist_filters") as [| | | | |entries|]; simpl.
    6: destruct (PairListManager.load_filters entries []) as [chain [[]| |]] eqn:Hload.
    all: destruct (Json.contains config "refresh_period");
      try destruct (Json.get_int (Json.at_key config "refresh_period"));
      intros [= <-]; try reflexivity.
    all: exact (load_filters_names _ _ _ Hload).
  - destruct (Json.contains config "refresh_period");
      try destruct (Json.get_int (Json.at_key config "refresh_period"));
      by intros [= <-].
Qed.

Lemma loadFromConfig_chain_names_witness :
  PairFilterOps.getName <$>
    [SpreadFilter_ SpreadFilter.make;
     OffsetFilter_ {| OffsetFilter.offset_ := 2; OffsetFilter.number_assets_ := 3 |}]
  = omap known_method
      (configured_entries
         (Json.object
            [("pairlist_filters",
              Json.array [entry_unknown_method; entry_without_method;
                          Json.string_ "not an object"; entry_spread; entry_offset_2_3]);
             ("refresh_period", Json.number_integer 60)])).
Proof.
  apply (loadFromConfig_chain_names fresh_manager
           (PairListManager.set_refresh_interval
              (PairListManager.set_filters fresh_manager
                 [SpreadFilter_ SpreadFilter.make;
                  OffsetFilter_ {| OffsetFilter.offset_ := 2;
                                   OffsetFilter.number_assets_ := 3 |}])
              60)).
  reflexivity.
Defined.

(** ** The counters of a refresh

    [refresh_count_] and [filter_count_] are [std::atomic<int>]: an
    increment at [INT_MAX] wraps around.  The statement below is about
    counts that stay within [int]. *)

Section RefreshCounters.

Context {S : StdAlgorithms}.

Lemma apply_filters_count_bounds filters amb k tickers ws n out n' :
  in_int n -> in_int (n + Z.of_nat (length filters)) ->
  PairListManager.apply_filters filters amb k tickers ws n = Ok (out, n') ->
  n <= n' <= n + Z.of_nat (length filters)
  /\ (out <> [] -> n' = n + Z.of_nat (length filters)).
Proof.
  revert k ws n. induction filters as [|f filters IH]; intros k ws n Hn Hend.
  - simpl. intros [= <- <-]. lia.
  - destruct ws as [|p ws]; [simpl; intros [= <- <-]; split; [lia | done]|].
    rewrite apply_filters_cons.
    destruct (PairFilterOps.filter f (amb k) (p :: ws) tickers) as [ws'| |];
      simpl; [|discriminate..].
    simpl length in *. unfold in_int, INT_MIN, INT_MAX in *.
    assert (Hstep : int_add n 1 = n + 1)
      by (apply wrap_int_id; unfold in_int, INT_MIN, INT_MAX; lia).
    rewrite Hstep. intros H.
    apply IH in H; [|lia..]. destruct H as [Hbounds Hall].
    split; [lia|]. intros Hne. rewrite (Hall Hne). lia.
Qed.

(** X17 (PairListManager::refresh): what a refresh that starts from at
    least one active pair and returns does to the counters.  [refresh_count_]
    goes up by one; [filter_count_] goes up by the number of filters run,
    which is at most the length of the chain and, when the published list is
    not empty, exactly the length of the chain; the chain itself is not
    changed.  (The counters are [std::atomic<int>]; the statement is about
    counts that stay within [int].) *)
Theorem refresh_counts (self self' : PairListManager.t) (amb : nat -> Ambient) :
  seed_pairs self <> [] ->
  in_int (PairListManager.refresh_count_ self + 1) ->
  in_int (PairListManager.filter_count_ self) ->
  in_int (PairListManager.filter_count_ self
          + Z.of_nat (length (PairListManager.filters_ self))) ->
  PairListManager.refresh self amb = Ok self' ->
  PairListManager.refresh_count_ self' = PairListManager.refresh_count_ self + 1
  /\ PairListManager.filter_count_ self
     <= PairListManager.filter_count_ self'
     <= PairListManager.filter_count_ self
        + Z.of_nat (length (PairListManager.filters_ self))
  /\ (PairListManager.getPairs self' <> [] ->
      PairListManager.filter_count_ self'
      = PairListManager.filter_count_ self
        + Z.of_nat (length (PairListManager.filters_ self)))
  /\ PairListManager.filters_ self' = PairListManager.filters_ self.
Proof.
  intros Hseed Hrefreshes Hcount Hend. rewrite (refresh_with_pairs self amb Hseed).
  destruct (PairListManager.apply_filters _ _ _ _ _ _) as [[ws n]| |] eqn:Hrun;
    [|discriminate..].
  rewrite bind_Ok. intros [= <-]. simpl.
  destruct (apply_filters_count_bounds _ _ _ _ _ _ _ _ Hcount Hend Hrun)
    as [Hbounds Hall].
  split; [by apply wrap_int_id|]. split; [exact Hbounds|].
  split; [exact Hall | reflexivity].
Qed.

End RefreshCounters.

Lemma refresh_counts_witness :
  exists self',
    PairListManager.refresh (H := insertion_std) sample_manager still_ambient = Ok self'
    /\ PairListManager.refresh_count_ self' = 1 + 1
    /\ 0 <= PairListManager.filter_count_ self' <= 0 + 5.
Proof.
  destruct (PairListManager.refresh (H := insertion_std) sample_manager still_ambient)
    as [self'| |] eqn:E; try discriminate E.
  exists self'. split; [reflexivity|].
  destruct (refresh_counts (S := insertion_std) sample_manager self' still_ambient)
    as (Hr & Hf & _); try exact E; try (vm_compute; intuition discriminate).
  split; [exact Hr | exact Hf].
Defined.

(** ** Chains that only select *)

(** The kinds whose [filter] returns some of its input pairs, in input
    order: every kind but the two ranking filters, the shuffle and the
    producer; the offset filter with an offset that is not negative. *)
Definition selecting (f : PairFilter) : bool :=
  match f with
  | StaticPairList_ _ | SpreadFilter_ _ | BlacklistFilter_ _ | PriceFilter_ _
  | VolatilityFilter_ _ | AgeFilter_ _ | PerformanceFilter_ _ => true
  | OffsetFilter_ o => 0 <=? OffsetFilter.offset_ o
  | VolumePairList_ _ | ShuffleFilter_ _ | ProducerPairList_ _
  | MarketCapPairList_ _ => false
  end.

Section Selecting.

Context {S : StdAlgorithms}.

Lemma offset_filter_sublist (f : OffsetFilter.t) (ws : list string) (tickers : tickers_map) :
  0 <= OffsetFilter.offset_ f -> Z.of_nat (length ws) <= INT_MAX ->
  exists out, OffsetFilter.filter f ws tickers = Ok out /\ out `sublist_of` ws.
Proof.
  intros Hoff Hlen. unfold OffsetFilter.filter.
  assert (Hstart : 0 <= OffsetFilter.start_of f ws).
  { rewrite (offset_start_eq f ws Hlen). lia. }
  assert (Hend : OffsetFilter.end_of f ws <= Z.of_nat (length ws)).
  { unfold OffsetFilter.end_of. rewrite (size_as_int_exact ws Hlen).
    destruct (0 <? _); lia. }
  rewrite push_back_range_slice by assumption.
  eexists. split; [reflexivity|].
  etrans; [apply sublist_take | apply sublist_drop].
Qed.

Lemma selecting_filter_sublist (f : PairFilter) (amb : Ambient) (ws : list string)
    (tickers : tickers_map) :
  selecting f = true -> Z.of_nat (length ws) <= INT_MAX ->
  exists out, PairFilterOps.filter f amb ws tickers = Ok out /\ out `sublist_of` ws.
Proof.
  intros Hsel Hlen. destruct f as [f|f|f|f|f|f|f|f|f|f|f|f]; simpl in Hsel;
    try discriminate Hsel; simpl.
  - rewrite static_filter_eq. eexists. split; [reflexivity | apply sublist_filter].
  - eexists. split; [reflexivity | apply sublist_filter].
  - rewrite blacklist_filter_eq. eexists. split; [reflexivity | apply sublist_filter].
  - eexists. split; [reflexivity | apply sublist_filter].
  - eexists. split; [reflexivity | apply sublist_filter].
  - unfold AgeFilter.filter. destruct (AgeFilter.market_provider_ f).
    + eexists. split; [reflexivity | apply sublist_filter].
    + by exists ws.
  - apply offset_filter_sublist; [by apply Z.leb_le | assumption].
  - unfold PerformanceFilter.filter. destruct (PerformanceFilter.performance_provider_ f).
    + eexists. split; [reflexivity | apply sublist_filter].
    + by exists ws.
Qed.

Lemma selecting_chain_sublist (filters : list PairFilter) (amb : nat -> Ambient)
    (k : nat) (tickers : tickers_map) (ws : list string) (n : Z) :
  (forall f, f ∈ filters -> selecting f = true) ->
  Z.of_nat (length ws) <= INT_MAX ->
  exists out n',
    PairListManager.apply_filters filters amb k tickers ws n = Ok (out, n')
    /\ out `sublist_of` ws.
Proof.
  revert k ws n. induction filters as [|f filters IH]; intros k ws n Hsel Hlen.
  - by exists ws, n.
  - destruct ws as [|p ws]; [by exists [], n|].
    destruct (selecting_filter_sublist f (amb k) (p :: ws) tickers
                (Hsel f ltac:(by left)) Hlen) as (out & Hout & Hsub).
    rewrite apply_filters_cons, Hout, bind_Ok.
    destruct (IH (Datatypes.S k) out (int_add n 1)) as (out' & n' & Hrun & Hsub').
    + intros g Hg. apply Hsel. by right.
    + apply sublist_length in Hsub. lia.
    + exists out', n'. split; [exact Hrun | by etrans].
Qed.

(** X18 (PairListManager::refresh with the selecting filters): a chain made
    of whitelist, blacklist, spread, price, volatility, age, performance and
    offset filters (offsets not negative), started from at least one and at
    most [INT_MAX] active pairs, always publishes; and the published list is
    a sub-sequence of the active symbols in the order the market provider
    lists them: nothing is added, reordered or repeated more often than the
    provider repeats it. *)
Theorem selecting_chain_publishes_subsequence (self : PairListManager.t)
    (amb : nat -> Ambient) :
  seed_pairs self <> [] ->
  Z.of_nat (length (seed_pairs self)) <= INT_MAX ->
  (forall f, f ∈ PairListManager.filters_ self -> selecting f = true) ->
  exists self',
    PairListManager.refresh self amb = Ok self'
    /\ PairListManager.getPairs self' `sublist_of` seed_pairs self.
Proof.
  intros Hseed Hlen Hsel. rewrite (refresh_with_pairs self amb Hseed).
  destruct (selecting_chain_sublist (PairListManager.filters_ self) amb 0
              (run_tickers self) (seed_pairs self)
              (PairListManager.filter_count_ self) Hsel Hlen)
    as (out & n' & Hrun & Hsub).
  rewrite Hrun, bind_Ok. eexists. split; [reflexivity | exact Hsub].
Qed.

(** X19 (PairListManager::addFilter, refresh): a filter added at the end of
    the chain post-processes what the shorter chain publishes.  If a refresh
    with the chain as it is publishes a non-empty list, the refresh after
    [addFilter(f)] publishes what [f] returns for that list (and ends as [f]
    ends); if it publishes the empty list, so does the refresh after
    [addFilter(f)], without running [f]. *)
Theorem addFilter_post_processes (self s1 : PairListManager.t) (f : PairFilter)
    (amb : nat -> Ambient) :
  seed_pairs self <> [] ->
  PairListManager.refresh self amb = Ok s1 ->
  PairListManager.getPairs <$>
    PairListManager.refresh (PairListManager.addFilter self f) amb
  = match PairListManager.getPairs s1 with
    | [] => Ok []
    | _ => PairFilterOps.filter f (amb (length (PairListManager.filters_ self)))
             (PairListManager.getPairs s1) (run_tickers self)
    end.
Proof.
  intros Hseed Hrefresh.
  rewrite (refresh_with_pairs self amb Hseed) in Hrefresh.
  destruct (PairListManager.apply_filters _ _ _ _ _ _) as [[ws n]| |] eqn:Hrun;
    try discriminate Hrefresh.
  rewrite bind_Ok in Hrefresh. injection Hrefresh; intros <-. simpl.
  rewrite refresh_published by exact Hseed.
  change (PairListManager.filters_ (PairListManager.addFilter self f))
    with (PairListManager.filters_ self ++ [f]).
  change (seed_pairs (PairListManager.addFilter self f)) with (seed_pairs self).
  change (run_tickers (PairListManager.addFilter self f)) with (run_tickers self).
  change (PairListManager.filter_count_ (PairListManager.addFilter self f))
    with (PairListManager.filter_count_ self).
  rewrite apply_filters_app, Hrun, bind_Ok. simpl.
  destruct ws as [|p ws]; [reflexivity|].
  destruct (PairFilterOps.filter f _ (p :: ws) (run_tickers self)); reflexivity.
Qed.

End Selecting.

Definition plain_chain : list PairFilter :=
  [blacklist_of ["B"];
   OffsetFilter_ {| OffsetFilter.offset_ := 1; OffsetFilter.number_assets_ := 2 |};
   SpreadFilter_ {| SpreadFilter.max_spread_ratio_ := 1 |}].

Lemma selecting_chain_publishes_subsequence_witness :
  exists self',
    PairListManager.refresh (H := insertion_std)
      (manager_with ["OLD"] plain_chain (Some four_markets) (Some scenario_tickers))
      still_ambient = Ok self'
    /\ PairListManager.getPairs self' `sublist_of` ["A"; "B"; "C"; "D"].
Proof.
  apply (selecting_chain_publishes_subsequence (S := insertion_std)
           (manager_with ["OLD"] plain_chain (Some four_markets) (Some scenario_tickers))).
  - discriminate.
  - vm_compute. discriminate.
  - intros f. unfold plain_chain. simpl. rewrite ?elem_of_cons, elem_of_nil.
    intros [->|[->|[->|[]]]]; reflexivity.
Defined.

Lemma addFilter_post_processes_witness :
  PairListManager.getPairs <$>
    PairListManager.refresh (H := insertion_std)
      (PairListManager.addFilter
         (manager_with ["OLD"] [blacklist_of ["B"]] (Some four_markets) None)
         (OffsetFilter_ {| OffsetFilter.offset_ := 1; OffsetFilter.number_assets_ := 0 |}))
      still_ambient
  = OffsetFilter.filter
      {| OffsetFilter.offset_ := 1; OffsetFilter.number_assets_ := 0 |}
      ["A"; "C"; "D"] ∅.
Proof.
  apply (addFilter_post_processes (S := insertion_std)
           (manager_with ["OLD"] [blacklist_of ["B"]] (Some four_markets) None)
           {| PairListManager.pairs_ := ["A"; "C"; "D"];
              PairListManager.filters_ := [blacklist_of ["B"]];
              PairListManager.market_provider_ := Some four_markets;
              PairListManager.ticker_provider_ := None;
              PairListManager.refresh_interval_ := 1800;
              PairListManager.refresh_count_ := 2;
              PairListManager.filter_count_ := 1;
              PairListManager.last_refresh_time_ := 0 |}).
  - discriminate.
  - reflexivity.
Defined.

(** ** Quotients by zero in the spread and volatility filters *)

Lemma SF64sub_from_positive_zero (d : spec_float) :
  SFltb (S754_zero false) d = true ->
  SFltb (SF64sub (S754_zero false) d) (S754_zero false) = true.
Proof.
  unfold SF64sub, SFsub, SFltb.
  destruct d as [s|s| |s m e]; try destruct s; simpl; intros H;
    try discriminate; reflexivity.
Qed.

Lemma SF64sub_of_zeros (a b : spec_float) :
  Double.SF_is_zero a = true -> Double.SF_is_zero b = true ->
  Double.SF_is_zero (SF64sub a b) = true.
Proof.
  unfold SF64sub, SFsub.
  destruct a as [sa|sa| |sa ma ea], b as [sb|sb| |sb mb eb]; simpl;
    intros Ha Hb; try discriminate.
  destruct sa, sb; reflexivity.
Qed.

Lemma SFleb_neg_infinity_l (x : spec_float) :
  Double.SF_is_nan x = false -> SFleb (S754_infinity true) x = true.
Proof. unfold SFleb. destruct x as [s|s| |s m e]; try destruct s; simpl; done. Qed.

Lemma SFleb_band_excludes (lo hi v : spec_float) :
  Double.SF_is_nan v || Double.SF_is_infinity v = true ->
  Double.SF_is_infinity lo = false -> Double.SF_is_infinity hi = false ->
  SFleb lo v && SFleb v hi = false.
Proof.
  unfold SFleb.
  destruct v as [sv|sv| |sv mv ev]; simpl; try discriminate; intros _.
  - destruct sv.
    + destruct lo as [s|s| |s m e]; try destruct s; simpl; try discriminate; reflexivity.
    + destruct hi as [s|s| |s m e]; try destruct s; simpl; try discriminate;
        intros; apply andb_false_r.
  - intros _ _. destruct lo; reflexivity.
Qed.

(** X20 (TickerInfo::getSpreadRatio, SpreadFilter::filter): tickers with an
    ask of zero.  When bid and ask are both zero the spread ratio is NaN and
    the spread filter drops the pair, whatever its ceiling; when the ask is
    [+0] and the bid is positive the ratio is minus infinity and the filter
    keeps the pair under every ceiling that is a number. *)
Theorem spread_filter_at_zero_ask (self : SpreadFilter.t) (pairs : list string)
    (tickers : tickers_map) (p : string) (t : TickerInfo.t) :
  tickers !! p = Some t -> p ∈ pairs ->
  exists out,
    SpreadFilter.filter self pairs tickers = Ok out
    /\ (Double.is_zero (TickerInfo.ask t) = true ->
        Double.is_zero (TickerInfo.bid t) = true ->
        TickerInfo.getSpreadRatio t = nan /\ p ∉ out)
    /\ (TickerInfo.ask t = 0%float -> Double.lt 0 (TickerInfo.bid t) = true ->
        TickerInfo.getSpreadRatio t = neg_infinity
        /\ (Double.is_nan (SpreadFilter.max_spread_ratio_ self) = false -> p ∈ out)).
Proof.
  intros Hticker Hin. eexists. split; [reflexivity|].
  assert (Hkeeps : SpreadFilter.keeps self tickers p
                   = SFleb (Prim2SF (TickerInfo.getSpreadRatio t))
                           (Prim2SF (SpreadFilter.max_spread_ratio_ self))).
  { unfold SpreadFilter.keeps, Double.le. by rewrite Hticker, leb_spec. }
  split.
  - intros Hask Hbid.
    assert (Hnan : TickerInfo.getSpreadRatio t = nan).
    { unfold TickerInfo.getSpreadRatio, Double.is_zero in *.
      apply Prim2SF_inj. rewrite div_spec, sub_spec.
      apply (SF64div_by_zero _ _ Hask).
      by rewrite (SF64sub_of_zeros _ _ Hask Hbid), orb_true_r. }
    split; [exact Hnan|].
    rewrite list_elem_of_filter, Hkeeps, Hnan. intros [H _]. discriminate H.
  - intros Hask Hbid.
    assert (Hinf : TickerInfo.getSpreadRatio t = neg_infinity).
    { unfold TickerInfo.getSpreadRatio, Double.lt in *.
      apply Prim2SF_inj. rewrite div_spec, sub_spec, Hask.
      rewrite ltb_spec in Hbid.
      apply (SF64div_by_positive_zero _), SF64sub_from_positive_zero, Hbid. }
    split; [exact Hinf|].
    intros Hmax. rewrite list_elem_of_filter, Hkeeps, Hinf. split; [|exact Hin].
    by apply SFleb_neg_infinity_l.
Qed.

Definition one_sided_ticker (s : string) (bid : float) : TickerInfo.t :=
  {| TickerInfo.symbol := s;
     TickerInfo.last_price := 1; TickerInfo.bid := bid; TickerInfo.ask := 0;
     TickerInfo.high_24h := 1; TickerInfo.low_24h := 1;
     TickerInfo.volume_24h := 1;
     TickerInfo.quote_volume_24h := 1;
     TickerInfo.price_change_percent_24h := 0;
     TickerInfo.timestamp := 0 |}.

Lemma spread_filter_at_zero_ask_witness :
  exists out,
    SpreadFilter.filter SpreadFilter.make ["A"] {["A" := one_sided_ticker "A" 100]}
    = Ok out
    /\ TickerInfo.getSpreadRatio (one_sided_ticker "A" 100) = neg_infinity
    /\ "A" ∈ out.
Proof.
  destruct (spread_filter_at_zero_ask SpreadFilter.make ["A"]
              {["A" := one_sided_ticker "A" 100]} "A" (one_sided_ticker "A" 100))
    as (out & Hout & _ & Hneg).
  - reflexivity.
  - by left.
  - exists out. split; [exact Hout|].
    destruct (Hneg eq_refl eq_refl) as [Hratio Hkept].
    split; [exact Hratio | exact (Hkept eq_refl)].
Defined.

(** X21 (VolatilityFilter::filter, TickerInfo::getVolatility): a volatility
    filter whose two bounds are not infinities (the default band
    [0, DBL_MAX] for one) never returns a pair whose ticker has a last price
    of zero: the volatility of such a ticker is NaN or an infinity, and
    neither lies in the band. *)
Theorem volatility_filter_drops_zero_last_price (self : VolatilityFilter.t)
    (pairs : list string) (tickers : tickers_map) (p : string) (t : TickerInfo.t)
    (out : list string) :
  tickers !! p = Some t ->
  Double.is_zero (TickerInfo.last_price t) = true ->
  Double.is_infinity (VolatilityFilter.min_volatility_ self) = false ->
  Double.is_infinity (VolatilityFilter.max_volatility_ self) = false ->
  VolatilityFilter.filter self pairs tickers = Ok out ->
  p ∉ out.
Proof.
  intros Hticker Hzero Hlo Hhi [= <-].
  rewrite list_elem_of_filter. intros [Hkeeps _]. revert Hkeeps.
  unfold VolatilityFilter.keeps. rewrite Hticker. cbv zeta.
  unfold Double.ge, Double.le. rewrite !leb_spec.
  rewrite SFleb_band_excludes; [discriminate| |assumption..].
  unfold TickerInfo.getVolatility, Double.is_zero in *. rewrite div_spec.
  destruct (SF64div_by_zero
              (Prim2SF (TickerInfo.high_24h t - TickerInfo.low_24h t)%float) _ Hzero)
    as [Hnan Hinf].
  destruct (Double.SF_is_nan _ || Double.SF_is_zero _) eqn:E.
  - by rewrite (Hnan eq_refl).
  - rewrite (Hinf eq_refl). apply orb_true_r.
Qed.

Lemma volatility_filter_drops_zero_last_price_witness :
  VolatilityFilter.filter VolatilityFilter.make ["A"]
    {["A" := ticker_with_range 2 1 0]} = Ok []
  /\ ("A" ∉ @nil string).
Proof.
  split; [reflexivity|].
  apply (volatility_filter_drops_zero_last_price VolatilityFilter.make ["A"]
           {["A" := ticker_with_range 2 1 0]} "A" (ticker_with_range 2 1 0));
    reflexivity.
Defined.

(** ** Inverted bands *)

Lemma SFleb_band_order (lo hi v : spec_float) :
  SFleb lo v = true -> SFleb v hi = true -> SFltb hi lo = false.
Proof. unfold SFltb, SFleb. sf_cases; intros; sf_order. Qed.

Lemma filter_drops_all {A} (P : A -> Prop) `{!forall x, Decision (P x)} (l : list A) :
  (forall x, x ∈ l -> ~ P x) -> filter P l = [].
Proof.
  induction l as [|x l IH]; intros Hnone; [reflexivity|].
  rewrite filter_cons_False by (apply Hnone; by left).
  apply IH. intros y Hy. apply Hnone. by right.
Qed.

Lemma band_inverted (lo hi v : float) :
  Double.lt hi lo = true -> Double.ge v lo && Double.le v hi = false.
Proof.
  unfold Double.lt, Double.ge, Double.le. rewrite ltb_spec, !leb_spec. intros Hinv.
  destruct (SFleb (Prim2SF lo) (Prim2SF v)) eqn:Hlo; [|reflexivity].
  destruct (SFleb (Prim2SF v) (Prim2SF hi)) eqn:Hhi; [|reflexivity].
  pose proof (SFleb_band_order _ _ _ Hlo Hhi). congruence.
Qed.

(** X22 (PriceFilter::filter, VolatilityFilter::filter): a band whose upper
    bound is below its lower bound lets nothing through: both filters return
    the empty list for every input and every ticker map. *)
Theorem inverted_band_returns_nothing (pairs : list string) (tickers : tickers_map) :
  (forall self : PriceFilter.t,
     Double.lt (PriceFilter.max_price_ self) (PriceFilter.min_price_ self) = true ->
     PriceFilter.filter self pairs tickers = Ok [])
  /\ (forall self : VolatilityFilter.t,
        Double.lt (VolatilityFilter.max_volatility_ self)
                  (VolatilityFilter.min_volatility_ self) = true ->
        VolatilityFilter.filter self pairs tickers = Ok []).
Proof.
  split; intros self Hinv.
  - unfold PriceFilter.filter. f_equal. apply filter_drops_all. intros p _.
    unfold PriceFilter.keeps. destruct (tickers !! p) as [t|]; [|discriminate].
    cbv zeta. by rewrite (band_inverted _ _ _ Hinv).
  - unfold VolatilityFilter.filter. f_equal. apply filter_drops_all. intros p _.
    unfold VolatilityFilter.keeps. destruct (tickers !! p) as [t|]; [|discriminate].
    cbv zeta. by rewrite (band_inverted _ _ _ Hinv).
Qed.

Lemma inverted_band_returns_nothing_witness :
  PriceFilter.filter {| PriceFilter.min_price_ := 2; PriceFilter.max_price_ := 1 |}
    ["A"; "B"; "C"] scenario_tickers = Ok [].
Proof.
  apply (inverted_band_returns_nothing ["A"; "B"; "C"] scenario_tickers).
  reflexivity.
Defined.

(** ** A producer at the head of the chain *)

(** X23 (PairListManager::refresh, ProducerPairList::filter): a chain that
    starts with a [ProducerPairList] publishes a list that does not depend
    on which markets the market provider lists, as long as it lists an
    active one: two managers with the same chain and the same tickers, each
    started from at least one active pair, end their refresh the same way
    and publish the same list. *)
Theorem producer_first_overrides_markets (S : StdAlgorithms)
    (self1 self2 : PairListManager.t) (amb : nat -> Ambient)
    (producer : ProducerPairList.t) (rest : list PairFilter) :
  PairListManager.filters_ self1 = ProducerPairList_ producer :: rest ->
  PairListManager.filters_ self2 = ProducerPairList_ producer :: rest ->
  run_tickers self1 = run_tickers self2 ->
  seed_pairs self1 <> [] -> seed_pairs self2 <> [] ->
  PairListManager.getPairs <$> PairListManager.refresh self1 amb
  = PairListManager.getPairs <$> PairListManager.refresh self2 amb.
Proof.
  intros Hchain1 Hchain2 Htickers Hseed1 Hseed2.
  rewrite !refresh_published by assumption.
  rewrite Hchain1, Hchain2, Htickers.
  destruct (seed_pairs self1) as [|p1 ws1]; [done|].
  destruct (seed_pairs self2) as [|p2 ws2]; [done|].
  rewrite !apply_filters_cons.
  change (PairFilterOps.filter (ProducerPairList_ producer) (amb 0%nat) (p1 :: ws1)
            (run_tickers self2))
    with (PairFilterOps.filter (ProducerPairList_ producer) (amb 0%nat) (p2 :: ws2)
            (run_tickers self2)).
  destruct (PairFilterOps.filter _ _ _ _) as [out| |]; [|reflexivity..].
  rewrite !bind_Ok. apply apply_filters_counter.
Qed.

Lemma producer_first_overrides_markets_witness :
  PairListManager.getPairs <$>
    PairListManager.refresh (H := insertion_std)
      (manager_with ["OLD"] [producer_of ["X"; "Y"]; blacklist_of ["Y"]]
         (Some four_markets) None)
      still_ambient
  = PairListManager.getPairs <$>
      PairListManager.refresh (H := insertion_std)
        (manager_with [] [producer_of ["X"; "Y"]; blacklist_of ["Y"]]
           (Some [market_with_cap "Z" 1 1]) None)
        still_ambient.
Proof.
  apply (producer_first_overrides_markets insertion_std _ _ still_ambient
           {| ProducerPairList.remote_provider_ := Some ["X"; "Y"];
              ProducerPairList.producer_name_ := "primary" |}
           [blacklist_of ["Y"]]);
    reflexivity || discriminate.
Defined.

(** * The utilities: timestamps, strings and the configuration store *)

(** ** Timestamps ([utils/time_utils.h])

    [TimePoint] is [std::chrono::system_clock::time_point]: a count of
    nanoseconds in a signed 64-bit integer.  [std::chrono::milliseconds] is a
    64-bit count too; its conversion to the clock's duration multiplies by
    [10^6], and [duration_cast] to milliseconds divides by [10^6], rounding
    toward zero. *)

Module TimeUtils.

Definition INT64_MAX : Z := 9223372036854775807.
Definition INT64_MIN : Z := -9223372036854775808.

Definition in_int64 (z : Z) : Prop := INT64_MIN <= z <= INT64_MAX.

(** Reduction to the range of [int64_t]. *)
Definition wrap_int64 (z : Z) : Z :=
  (z + 9223372036854775808) mod 18446744073709551616 - 9223372036854775808.

Definition ticks_per_ms : Z := 1000000.

(** [TimePoint(std::chrono::milliseconds(timestamp_ms))]. *)
Definition fromTimestampMs (timestamp_ms : Z) : time_point :=
  wrap_int64 (timestamp_ms * ticks_per_ms).

(** [duration_cast<milliseconds>(tp.time_since_epoch()).count()]. *)
Definition toTimestampMs (tp : time_point) : Z := Z.quot tp ticks_per_ms.

(** [duration_cast<milliseconds>(end - start).count()]. *)
Definition durationMs (start end_ : time_point) : Z :=
  Z.quot (wrap_int64 (end_ - start)) ticks_per_ms.

End TimeUtils.

Lemma wrap_int64_id (z : Z) : TimeUtils.in_int64 z -> TimeUtils.wrap_int64 z = z.
Proof.
  unfold TimeUtils.in_int64, TimeUtils.wrap_int64, TimeUtils.INT64_MIN,
    TimeUtils.INT64_MAX. intros H.
  rewrite Z.mod_small by lia. lia.
Qed.

Lemma quot_ticks_bounds (tp : Z) :
  Z.min 0 tp <= Z.quot tp TimeUtils.ticks_per_ms * TimeUtils.ticks_per_ms <= Z.max 0 tp
  /\ tp = Z.quot tp TimeUtils.ticks_per_ms * TimeUtils.ticks_per_ms
          + Z.rem tp TimeUtils.ticks_per_ms
  /\ Z.abs (Z.rem tp TimeUtils.ticks_per_ms) < TimeUtils.ticks_per_ms.
Proof.
  unfold TimeUtils.ticks_per_ms.
  pose proof (Z.quot_rem' tp 1000000) as Hdiv.
  pose proof (Z.rem_bound_abs tp 1000000 ltac:(lia)) as Hrem.
  destruct (Z.le_gt_cases 0 tp) as [Hpos|Hneg].
  - pose proof (Z.mul_quot_le tp 1000000 Hpos ltac:(lia)). lia.
  - pose proof (Z.mul_quot_ge tp 1000000 ltac:(lia) ltac:(lia)). lia.
Qed.

(** X24 (TimeUtils::fromTimestampMs, TimeUtils::toTimestampMs): the round
    trips between millisecond timestamps and time points.  A timestamp whose
    nanosecond count fits 64 bits (any date until the year 2262) comes back
    unchanged from [toTimestampMs(fromTimestampMs(ms))].  In the other
    direction a time point comes back with its sub-millisecond part cut off
    toward the epoch, hence unchanged exactly when it is a whole number of
    milliseconds. *)
Theorem timestamp_round_trips :
  (forall timestamp_ms : Z,
     TimeUtils.in_int64 (timestamp_ms * TimeUtils.ticks_per_ms) ->
     TimeUtils.toTimestampMs (TimeUtils.fromTimestampMs timestamp_ms) = timestamp_ms)
  /\ (forall tp : time_point,
        TimeUtils.in_int64 tp ->
        TimeUtils.fromTimestampMs (TimeUtils.toTimestampMs tp)
        = tp - Z.rem tp TimeUtils.ticks_per_ms
        /\ Z.abs (Z.rem tp TimeUtils.ticks_per_ms) < TimeUtils.ticks_per_ms
        /\ (TimeUtils.fromTimestampMs (TimeUtils.toTimestampMs tp) = tp
            <-> Z.rem tp TimeUtils.ticks_per_ms = 0)).
Proof.
  split.
  - intros ms Hfit. unfold TimeUtils.toTimestampMs, TimeUtils.fromTimestampMs.
    rewrite wrap_int64_id by exact Hfit.
    apply Z.quot_mul. unfold TimeUtils.ticks_per_ms. lia.
  - intros tp Hfit. unfold TimeUtils.toTimestampMs, TimeUtils.fromTimestampMs.
    destruct (quot_ticks_bounds tp) as (Habs & Hdiv & Hrem).
    rewrite wrap_int64_id
      by (unfold TimeUtils.in_int64, TimeUtils.INT64_MIN, TimeUtils.INT64_MAX in *; lia).
    repeat split; lia.
Qed.

Lemma timestamp_round_trips_witness :
  TimeUtils.in_int64 (1609459200000 * TimeUtils.ticks_per_ms)
  /\ TimeUtils.toTimestampMs (TimeUtils.fromTimestampMs 1609459200000) = 1609459200000
  /\ TimeUtils.fromTimestampMs (TimeUtils.toTimestampMs (-1500000))
     = -1500000 - Z.rem (-1500000) TimeUtils.ticks_per_ms.
Proof.
  assert (H1 : TimeUtils.in_int64 (1609459200000 * TimeUtils.ticks_per_ms))
    by (vm_compute; split; discriminate).
  assert (H2 : TimeUtils.in_int64 (-1500000)) by (vm_compute; split; discriminate).
  split; [exact H1|]. split.
  - exact (proj1 timestamp_round_trips _ H1).
  - exact (proj1 (proj2 timestamp_round_trips _ H2)).
Defined.

(** X25 (TimeUtils::durationMs): the duration between two time points whose
    difference fits 64 bits is the difference in whole milliseconds, rounded
    toward zero.  So it is antisymmetric in its two arguments, it is zero for
    two points less than a millisecond apart in either order, and between
    two points made by [fromTimestampMs] it is the difference of the two
    timestamps. *)
Theorem durationMs_truncates (start end_ : time_point) :
  TimeUtils.in_int64 (end_ - start) -> TimeUtils.in_int64 (start - end_) ->
  TimeUtils.durationMs start end_ = - TimeUtils.durationMs end_ start
  /\ (Z.abs (end_ - start) < TimeUtils.ticks_per_ms -> TimeUtils.durationMs start end_ = 0)
  /\ (forall a b : Z,
        start = TimeUtils.fromTimestampMs a -> end_ = TimeUtils.fromTimestampMs b ->
        TimeUtils.in_int64 (a * TimeUtils.ticks_per_ms) ->
        TimeUtils.in_int64 (b * TimeUtils.ticks_per_ms) ->
        TimeUtils.durationMs start end_ = b - a).
Proof.
  intros Hfit Hfit'. unfold TimeUtils.durationMs.
  rewrite !wrap_int64_id by assumption.
  split; [|split].
  - replace (start - end_) with (- (end_ - start)) by lia.
    rewrite Z.quot_opp_l by (unfold TimeUtils.ticks_per_ms; lia). lia.
  - intros Hshort. unfold TimeUtils.ticks_per_ms in *.
    destruct (Z.le_gt_cases 0 (end_ - start)) as [Hpos|Hneg].
    + apply Z.quot_small. lia.
    + replace (end_ - start) with (- (start - end_)) by lia.
      rewrite Z.quot_opp_l by lia. rewrite Z.quot_small by lia. reflexivity.
  - intros a b -> -> Ha Hb. unfold TimeUtils.fromTimestampMs.
    rewrite !wrap_int64_id by assumption.
    rewrite <- Z.mul_sub_distr_r.
    apply Z.quot_mul. unfold TimeUtils.ticks_per_ms. lia.
Qed.

Lemma durationMs_truncates_witness :
  TimeUtils.durationMs 2500000 1000000 = - TimeUtils.durationMs 1000000 2500000
  /\ TimeUtils.durationMs (TimeUtils.fromTimestampMs 7) (TimeUtils.fromTimestampMs 10)
     = 10 - 7.
Proof.
  split.
  - apply (durationMs_truncates 2500000 1000000); vm_compute; split; discriminate.
  - apply (durationMs_truncates (TimeUtils.fromTimestampMs 7) (TimeUtils.fromTimestampMs 10));
      try reflexivity; vm_compute; split; discriminate.
Defined.

(** ** Strings ([StringUtils], [utils/crypto_utils.h]) *)

Module StringUtils.

(** The loop [while (std::getline(stream, token, delimiter))
    result.push_back(token);] read one character at a time.  [token] is what
    the running [getline] has extracted so far, [extracted] whether it has
    extracted anything: at the end of the stream a [getline] that has
    extracted characters returns its token, one that has extracted nothing
    fails and ends the loop. *)
Fixpoint getline_loop (stream : string) (delimiter : Ascii.ascii) (token : string)
    (extracted : bool) : list string :=
  match stream with
  | EmptyString => if extracted then [token] else []
  | String c rest =>
      if Ascii.eqb c delimiter
      then token :: getline_loop rest delimiter "" false
      else getline_loop rest delimiter (token +:+ String c "") true
  end.

Definition split (str : string) (delimiter : Ascii.ascii) : list string :=
  getline_loop str delimiter "" false.

(** [for (i = 1; i < parts.size(); ++i) oss << delimiter << parts[i];] *)
Fixpoint join_rest (parts : list string) (delimiter : string) : string :=
  match parts with
  | [] => ""
  | part :: rest => delimiter +:+ part +:+ join_rest rest delimiter
  end.

Definition join (parts : list string) (delimiter : string) : string :=
  match parts with
  | [] => ""
  | first :: rest => first +:+ join_rest rest delimiter
  end.

(** [str.compare(pos, len, other) == 0]. *)
Definition compare_is_0 (str : string) (pos len : nat) (other : string) : bool :=
  String.eqb (String.substring pos len str) other.

Definition endsWith (str suffix : string) : bool :=
  (String.length suffix <=? String.length str)%nat
  && compare_is_0 str (String.length str - String.length suffix)
       (String.length suffix) suffix.

End StringUtils.

(** ** The configuration store ([ConfigManager], [utils/config.h]) *)

Module ConfigManager.

Definition is_object (j : Json.json) : bool :=
  match j with Json.object _ => true | _ => false end.

Definition is_null (j : Json.json) : bool :=
  match j with Json.null => true | _ => false end.

(** The dot. *)
Definition dot : Ascii.ascii := Ascii.ascii_of_nat 46.

(** The key split at the dots, by the [getline] loop. *)
Definition path_of (key : string) : list string := StringUtils.split key dot.

(** The loop of [getValue] over the keys of the path. *)
Fixpoint descend (keys : list string) (current : Json.json) : Json.json :=
  match keys with
  | [] => current
  | k :: rest =>
      if is_object current && Json.contains current k
      then descend rest (Json.at_key current k)
      else Json.null
  end.

Definition getValue (config_ : Json.json) (key : string) : Json.json :=
  descend (path_of key) config_.

Definition has (config_ : Json.json) (key : string) : bool :=
  negb (is_null (getValue config_ key)).

(** The assignment to [current[key]] on an object: the member is replaced, or
    added when the object has none for the key.  (The place of a member in
    the list carries no meaning: the program reads objects by key only.) *)
Fixpoint put (key : string) (value : Json.json) (members : list (string * Json.json))
  : list (string * Json.json) :=
  match members with
  | [] => [(key, value)]
  | (k, v) :: rest =>
      if String.eqb k key then (k, value) :: rest else (k, v) :: put key value rest
  end.

(** The members of [current], after the test that replaces a value that is
    no object by [json::object()]. *)
Definition members_of (current : Json.json) : list (string * Json.json) :=
  match current with
  | Json.object members => members
  | _ => []
  end.

(** The walk of [setValue] along a path that is not empty: every step but
    the last enters the member for the key, made an empty object first when
    it is missing or no object; the last step stores the value. *)
Fixpoint store (keys : list string) (value : Json.json) (current : Json.json)
  : Json.json :=
  match keys with
  | [] => current
  | [k] => Json.object (put k value (members_of current))
  | k :: rest =>
      let members := members_of current in
      let child :=
        match Json.assoc k members with
        | Some (Json.object inner) => Json.object inner
        | _ => Json.object []
        end in
      Json.object (put k (store rest value child) members)
  end.

Definition setValue (config_ : Json.json) (key : string) (value : Json.json)
  : Json.json :=
  match path_of key with
  | [] => config_
  | keys => store keys value config_
  end.

(** [get<int>(key, default_value)]: the default when the value is null or
    when reading it throws. *)
Definition get_int (config_ : Json.json) (key : string) (default_value : Z)
  : outcome Z :=
  let value := getValue config_ key in
  if is_null value then Ok default_value
  else match Json.get_int value with
       | Throws _ => Ok default_value
       | read => read
       end.

(** [set<int>(key, value)]. *)
Definition set_int (config_ : Json.json) (key : string) (value : Z) : Json.json :=
  setValue config_ key (Json.number_integer value).

End ConfigManager.

Example path_of_examples :
  ConfigManager.path_of "exchange.binance.api_key" = ["exchange"; "binance"; "api_key"]
  /\ ConfigManager.path_of "" = []
  /\ ConfigManager.path_of "a." = ["a"]
  /\ ConfigManager.path_of ".a" = [""; "a"]
  /\ ConfigManager.path_of "a..b" = ["a"; ""; "b"].
Proof. repeat split. Qed.

(** *** The path of a key *)

Lemma getline_loop_extracted (stream : string) (delimiter : Ascii.ascii)
    (token : string) :
  StringUtils.getline_loop stream delimiter token true <> [].
Proof.
  revert token. induction stream as [|c rest IH]; intros token; simpl; [done|].
  destruct (Ascii.eqb c delimiter); [done | apply IH].
Qed.

Lemma getline_loop_nil (stream : string) (delimiter : Ascii.ascii) (token : string)
    (extracted : bool) :
  StringUtils.getline_loop stream delimiter token extracted = []
  <-> stream = "" /\ extracted = false.
Proof.
  destruct stream as [|c rest]; simpl.
  - destruct extracted; split; try done. by intros [_ ?].
  - destruct (Ascii.eqb c delimiter); [split; [done | by intros [? _]]|].
    split; [|by intros [? _]].
    intros H. by apply getline_loop_extracted in H.
Qed.

Lemma path_of_nil (key : string) : ConfigManager.path_of key = [] <-> key = "".
Proof.
  unfold ConfigManager.path_of, StringUtils.split.
  rewrite getline_loop_nil. tauto.
Qed.

(** *** Stores and reads *)

Lemma assoc_put_eq (key : string) (value : Json.json) members :
  Json.assoc key (ConfigManager.put key value members) = Some value.
Proof.
  induction members as [|[k v] members IH]; simpl.
  - by rewrite String.eqb_refl.
  - destruct (String.eqb k key) eqn:E; simpl; rewrite E; [reflexivity | exact IH].
Qed.

Lemma assoc_put_ne (key key' : string) (value : Json.json) members :
  key' <> key ->
  Json.assoc key' (ConfigManager.put key value members) = Json.assoc key' members.
Proof.
  intros Hne. induction members as [|[k v] members IH]; simpl.
  - destruct (String.eqb_spec key key'); [congruence | reflexivity].
  - destruct (String.eqb_spec k key) as [->|Hk]; simpl.
    + destruct (String.eqb_spec key key'); [congruence | reflexivity].
    + destruct (String.eqb k key'); [reflexivity | exact IH].
Qed.

Lemma descend_put_eq (key : string) (rest : list string) (value : Json.json) members :
  ConfigManager.descend (key :: rest) (Json.object (ConfigManager.put key value members))
  = ConfigManager.descend rest value.
Proof. simpl. by rewrite assoc_put_eq. Qed.

Lemma descend_put_ne (key key' : string) (rest : list string) (value : Json.json) members :
  key' <> key ->
  ConfigManager.descend (key' :: rest) (Json.object (ConfigManager.put key value members))
  = ConfigManager.descend (key' :: rest) (Json.object members).
Proof. intros Hne. simpl. by rewrite assoc_put_ne. Qed.

Lemma descend_members_of (key : string) (rest : list string) (current : Json.json) :
  ConfigManager.descend (key :: rest) (Json.object (ConfigManager.members_of current))
  = ConfigManager.descend (key :: rest) current.
Proof. destruct current; reflexivity. Qed.

Lemma store_cons (key : string) (rest : list string) (value current : Json.json) :
  rest <> [] ->
  ConfigManager.store (key :: rest) value current
  = Json.object
      (ConfigManager.put key
         (ConfigManager.store rest value
            match Json.assoc key (ConfigManager.members_of current) with
            | Some (Json.object inner) => Json.object inner
            | _ => Json.object []
            end)
         (ConfigManager.members_of current)).
Proof. destruct rest; [done | reflexivity]. Qed.

Lemma descend_store (keys : list string) (value current : Json.json) :
  keys <> [] ->
  ConfigManager.descend keys (ConfigManager.store keys value current) = value.
Proof.
  revert current. induction keys as [|key rest IH]; intros current Hne; [done|].
  destruct rest as [|key' rest].
  - simpl ConfigManager.store. by rewrite descend_put_eq.
  - rewrite store_cons by done. rewrite descend_put_eq. by apply IH.
Qed.

Lemma descend_store_diverging (common : list string) (k k' : string)
    (r r' : list string) (value current : Json.json) :
  k <> k' ->
  ConfigManager.descend (common ++ k' :: r')
    (ConfigManager.store (common ++ k :: r) value current)
  = ConfigManager.descend (common ++ k' :: r') current.
Proof.
  intros Hne. revert current.
  induction common as [|h common IH]; intros current; simpl app.
  - destruct r as [|k2 r].
    + simpl ConfigManager.store.
      rewrite descend_put_ne by congruence. apply descend_members_of.
    + rewrite store_cons by done.
      rewrite descend_put_ne by congruence. apply descend_members_of.
  - rewrite store_cons by (by destruct common).
    rewrite descend_put_eq, IH.
    destruct current as [| | | | | |members]; try (by destruct common).
    simpl ConfigManager.members_of. simpl ConfigManager.descend at 2.
    destruct (Json.assoc h members) as [[| | | | | |inner]|]; try reflexivity;
      by destruct common.
Qed.

Lemma getValue_setValue (config_ : Json.json) (key : string) (value : Json.json) :
  key <> "" ->
  ConfigManager.getValue (ConfigManager.setValue config_ key value) key = value.
Proof.
  intros Hkey.
  assert (Hpath : ConfigManager.path_of key <> []) by (by rewrite path_of_nil).
  unfold ConfigManager.getValue, ConfigManager.setValue.
  destruct (ConfigManager.path_of key) as [|k rest] eqn:E; [done|].
  by apply descend_store.
Qed.

(** X26 (ConfigManager::setValue, getValue, has): a value stored under a key
    that is not the empty string is what [getValue] returns for that key,
    whatever the configuration held before (missing levels are created, and
    a value that is no object on the way is replaced by an object); so
    [has(key)] holds afterwards exactly when the stored value is not null.
    Storing under the empty key changes nothing. *)
Theorem config_set_get_round_trip (config_ : Json.json) (key : string)
    (value : Json.json) :
  (key <> "" ->
   ConfigManager.getValue (ConfigManager.setValue config_ key value) key = value
   /\ ConfigManager.has (ConfigManager.setValue config_ key value) key
      = negb (ConfigManager.is_null value))
  /\ ConfigManager.setValue config_ "" value = config_.
Proof.
  split; [|reflexivity].
  intros Hkey. pose proof (getValue_setValue config_ key value Hkey) as Hget.
  split; [exact Hget|]. unfold ConfigManager.has. by rewrite Hget.
Qed.

Lemma config_set_get_round_trip_witness :
  ConfigManager.getValue
    (ConfigManager.setValue (Json.object [("exchange", Json.string_ "none")])
       "exchange.binance.api_key" (Json.string_ "k"))
    "exchange.binance.api_key" = Json.string_ "k"
  /\ ConfigManager.has
       (ConfigManager.setValue (Json.object [("exchange", Json.string_ "none")])
          "exchange.binance.api_key" (Json.string_ "k"))
       "exchange.binance.api_key" = negb (ConfigManager.is_null (Json.string_ "k")).
Proof.
  apply (config_set_get_round_trip (Json.object [("exchange", Json.string_ "none")])
           "exchange.binance.api_key" (Json.string_ "k")).
  discriminate.
Defined.

(** X27 (ConfigManager::setValue, getValue): storing under one key leaves
    every key on a diverging path as it was.  When the paths of two keys
    agree up to some level and then name different members, [getValue] of
    the second key returns after [setValue] of the first what it returned
    before. *)
Theorem config_set_keeps_diverging_keys (config_ : Json.json) (key key' : string)
    (value : Json.json) (common : list string) (k k' : string) (r r' : list string) :
  ConfigManager.path_of key = common ++ k :: r ->
  ConfigManager.path_of key' = common ++ k' :: r' ->
  k <> k' ->
  ConfigManager.getValue (ConfigManager.setValue config_ key value) key'
  = ConfigManager.getValue config_ key'.
Proof.
  intros Hkey Hkey' Hne. unfold ConfigManager.getValue, ConfigManager.setValue.
  rewrite Hkey, Hkey'.
  destruct (common ++ k :: r) as [|k0 rest] eqn:E; [by destruct common|].
  rewrite <- E. by apply descend_store_diverging.
Qed.

Lemma config_set_keeps_diverging_keys_witness :
  ConfigManager.getValue
    (ConfigManager.setValue
       (Json.object [("exchange", Json.object [("name", Json.string_ "binance")])])
       "exchange.limits.rate" (Json.number_integer 10))
    "exchange.name"
  = ConfigManager.getValue
      (Json.object [("exchange", Json.object [("name", Json.string_ "binance")])])
      "exchange.name".
Proof.
  apply (config_set_keeps_diverging_keys _ "exchange.limits.rate" "exchange.name" _
           ["exchange"] "limits" "name" ["rate"] []); reflexivity || discriminate.
Defined.

(** X28 (ConfigManager::get<int>, set<int>): [get] never throws.  It
    returns the default for a key that is missing and for a value of a type
    that does not convert (the exception of the typed read is caught, unlike
    in [PairListManager::loadFromConfig]); and it returns what [set] stored
    under the key, reduced to [int]. *)
Theorem config_get_falls_back_to_default (config_ : Json.json) (key : string)
    (default_value : Z) :
  (forall e, ConfigManager.get_int config_ key default_value <> Throws e)
  /\ (ConfigManager.has config_ key = false ->
      ConfigManager.get_int config_ key default_value = Ok default_value)
  /\ (forall e, Json.get_int (ConfigManager.getValue config_ key) = Throws e ->
        ConfigManager.get_int config_ key default_value = Ok default_value)
  /\ (forall value : Z, key <> "" ->
        ConfigManager.get_int (ConfigManager.set_int config_ key value) key default_value
        = Ok (wrap_int value)).
Proof.
  unfold ConfigManager.get_int, ConfigManager.has. split; [|split; [|split]].
  - intros e. destruct (ConfigManager.is_null _); [discriminate|].
    destruct (Json.get_int _); discriminate.
  - intros Hhas. apply negb_false_iff in Hhas. by rewrite Hhas.
  - intros e ->. by destruct (ConfigManager.is_null _).
  - intros value Hkey. unfold ConfigManager.set_int.
    by rewrite (getValue_setValue _ _ _ Hkey).
Qed.

Lemma config_get_falls_back_to_default_witness :
  ConfigManager.get_int
    (Json.object [("refresh_period", Json.string_ "soon")]) "refresh_period" 1800
  = Ok 1800
  /\ ConfigManager.get_int
       (ConfigManager.set_int Json.null "pairlist.refresh_period" 60)
       "pairlist.refresh_period" 1800
     = Ok (wrap_int 60).
Proof.
  split.
  - destruct (config_get_falls_back_to_default
                (Json.object [("refresh_period", Json.string_ "soon")])
                "refresh_period" 1800) as (_ & _ & Hthrows & _).
    eapply Hthrows. reflexivity.
  - destruct (config_get_falls_back_to_default Json.null "pairlist.refresh_period" 1800)
      as (_ & _ & _ & Hset).
    apply Hset. discriminate.
Defined.

(** *** Splitting and joining *)

Lemma string_app_cons (c : Ascii.ascii) (s t : string) :
  String c s +:+ t = String c (s +:+ t).
Proof. reflexivity. Qed.

Lemma string_app_nil_l (s : string) : "" +:+ s = s.
Proof. reflexivity. Qed.

Lemma string_app_nil_r (s : string) : s +:+ "" = s.
Proof.
  induction s as [|c s IH]; [reflexivity|]. by rewrite string_app_cons, IH.
Qed.

Lemma string_app_assoc (a b c : string) : (a +:+ b) +:+ c = a +:+ (b +:+ c).
Proof.
  induction a as [|x a IH]; [reflexivity|]. by rewrite !string_app_cons, IH.
Qed.

Fixpoint last_char (s : string) : option Ascii.ascii :=
  match s with
  | EmptyString => None
  | String c rest => match last_char rest with Some l => Some l | None => Some c end
  end.

Lemma last_char_None (s : string) : last_char s = None <-> s = "".
Proof.
  destruct s as [|c s]; simpl; [done|].
  destruct (last_char s); split; done.
Qed.

Lemma last_char_app (a b : string) :
  b <> "" -> last_char (a +:+ b) = last_char b.
Proof.
  intros Hb. induction a as [|x a IH]; [reflexivity|].
  rewrite string_app_cons. simpl. rewrite IH.
  destruct (last_char b) eqn:E; [reflexivity|].
  by apply last_char_None in E.
Qed.

Lemma substring_last_cons (a : Ascii.ascii) (s : string) :
  String.substring (String.length s) 1 (String a s)
  = match last_char s with Some c => String c "" | None => String a "" end.
Proof.
  revert a. induction s as [|b s IH]; intros a; [reflexivity|].
  change (String.substring (String.length (String b s)) 1 (String a (String b s)))
    with (String.substring (String.length s) 1 (String b s)).
  rewrite IH. simpl. by destruct (last_char s).
Qed.

Lemma substring_last (s : string) :
  String.substring (String.length s - 1) 1 s
  = match last_char s with Some c => String c "" | None => "" end.
Proof.
  destruct s as [|a s]; [reflexivity|].
  simpl String.length. replace (S (String.length s) - 1)%nat with (String.length s) by lia.
  rewrite substring_last_cons. simpl. by destruct (last_char s).
Qed.

Lemma endsWith_char (s : string) (d : Ascii.ascii) :
  StringUtils.endsWith s (String d "")
  = match last_char s with Some c => Ascii.eqb c d | None => false end.
Proof.
  unfold StringUtils.endsWith, StringUtils.compare_is_0.
  change (String.length (String d "")) with 1%nat.
  rewrite substring_last.
  destruct (last_char s) as [c|] eqn:E.
  - destruct s as [|a s]; [discriminate E|].
    change (1 <=? String.length (String a s))%nat with true.
    cbn [andb String.eqb]. by destruct (Ascii.eqb c d).
  - apply last_char_None in E. by subst s.
Qed.

Lemma join_rest_cons (parts : list string) (delimiter : string) :
  parts <> [] ->
  StringUtils.join_rest parts delimiter = delimiter +:+ StringUtils.join parts delimiter.
Proof. destruct parts; [done | reflexivity]. Qed.

Lemma join_getline_loop (stream : string) (d : Ascii.ascii) (token : string)
    (extracted : bool) :
  (extracted = false -> token = "") ->
  (extracted = true -> StringUtils.endsWith token (String d "") = false) ->
  StringUtils.join (StringUtils.getline_loop stream d token extracted) (String d "")
  +:+ (if StringUtils.endsWith (token +:+ stream) (String d "") then String d "" else "")
  = token +:+ stream.
Proof.
  revert token extracted.
  induction stream as [|c rest IH]; intros token extracted Hfresh Hlast.
  - rewrite string_app_nil_r. destruct extracted; simpl.
    + by rewrite (Hlast eq_refl), !string_app_nil_r.
    + by rewrite (Hfresh eq_refl).
  - simpl StringUtils.getline_loop.
    destruct (Ascii.eqb_spec c d) as [->|Hc].
    + simpl StringUtils.join. rewrite string_app_assoc. f_equal.
      rewrite endsWith_char, last_char_app by done.
      destruct rest as [|c' rest].
      * simpl. by rewrite Ascii.eqb_refl.
      * rewrite join_rest_cons by (by rewrite getline_loop_nil; intros [? _]).
        rewrite string_app_assoc, string_app_cons, string_app_nil_l. f_equal.
        specialize (IH "" false (fun _ => eq_refl) ltac:(discriminate)).
        rewrite endsWith_char, string_app_nil_l in IH.
        replace (last_char (String d (String c' rest)))
          with (last_char (String c' rest)); [exact IH|].
        simpl. by destruct (last_char rest).
    + specialize (IH (token +:+ String c "") true ltac:(discriminate)).
      rewrite string_app_assoc in IH. apply IH. intros _.
      rewrite endsWith_char, last_char_app by done. simpl.
      by apply Ascii.eqb_neq.
Qed.

(** X29 (StringUtils::split, join, endsWith): joining what [split] returns
    with the same delimiter gives the string back, up to one delimiter at the
    very end, which [split] drops: [str] is [join(split(str, d), d)], followed
    by [d] when [str] ends with [d]. *)
Theorem split_join_round_trip (str : string) (d : Ascii.ascii) :
  StringUtils.join (StringUtils.split str d) (String d "")
  +:+ (if StringUtils.endsWith str (String d "") then String d "" else "")
  = str.
Proof.
  unfold StringUtils.split.
  apply (join_getline_loop str d "" false); [done | discriminate].
Qed.

(** Whether the character occurs in the string. *)
Fixpoint has_char (d : Ascii.ascii) (s : string) : bool :=
  match s with
  | EmptyString => false
  | String c rest => Ascii.eqb c d || has_char d rest
  end.

Lemma getline_loop_app (part stream : string) (d : Ascii.ascii) (token : string)
    (extracted : bool) :
  has_char d part = false ->
  StringUtils.getline_loop (part +:+ stream) d token extracted
  = StringUtils.getline_loop stream d (token +:+ part)
      (extracted || negb (String.eqb part "")).
Proof.
  revert token extracted.
  induction part as [|c part IH]; intros token extracted Hpart.
  - by rewrite string_app_nil_l, string_app_nil_r, orb_false_r.
  - simpl in Hpart. apply orb_false_iff in Hpart as [Hc Hpart].
    rewrite string_app_cons. simpl StringUtils.getline_loop. rewrite Hc.
    rewrite (IH _ _ Hpart), string_app_assoc, string_app_cons, string_app_nil_l.
    by rewrite orb_true_r.
Qed.

Lemma split_join_parts (d : Ascii.ascii) (first : string) (rest : list string) :
  Forall (fun part => has_char d part = false) (first :: rest) ->
  last (first :: rest) <> Some "" ->
  StringUtils.split (StringUtils.join (first :: rest) (String d "")) d = first :: rest.
Proof.
  unfold StringUtils.split. revert first.
  induction rest as [|second rest IH]; intros first Hparts Hlast.
  - simpl StringUtils.join. rewrite string_app_nil_r.
    rewrite <- (string_app_nil_r first) at 1.
    rewrite getline_loop_app by (by inversion Hparts).
    simpl. destruct first; [done | reflexivity].
  - simpl StringUtils.join. inversion Hparts as [|? ? Hfirst Hrest]; subst.
    rewrite getline_loop_app by exact Hfirst.
    rewrite string_app_cons, string_app_nil_l. simpl StringUtils.getline_loop.
    rewrite Ascii.eqb_refl. rewrite string_app_nil_l. f_equal.
    apply (IH second Hrest). by rewrite last_cons_cons in Hlast.
Qed.

(** X30 (StringUtils::join, split): [split] undoes [join].  For parts none
    of which holds the delimiter character and the last of which is not the
    empty string, [split(join(parts, d), d)] is [parts]. *)
Theorem join_split_round_trip (d : Ascii.ascii) (parts : list string) :
  Forall (fun part => has_char d part = false) parts ->
  last parts <> Some "" ->
  StringUtils.split (StringUtils.join parts (String d "")) d = parts.
Proof.
  destruct parts as [|first rest]; [reflexivity|]. apply split_join_parts.
Qed.

Lemma join_split_round_trip_witness :
  StringUtils.split
    (StringUtils.join ["BTC/USDT"; ""; "ETH/USDT"] (String ConfigManager.dot "")) ConfigManager.dot
  = ["BTC/USDT"; ""; "ETH/USDT"].
Proof.
  apply join_split_round_trip.
  - repeat constructor.
  - discriminate.
Defined.
